(** * python-framework: the database connection pool

    A shallow embedding of [python_framework/db/connection_pool.py],
    [python_framework/db/postgresutils.py] (class [ConnectionDetails], the
    connection list and [getSchemaFromSchemaId]), [db/transaction_manager.py],
    [db/config.py], [python_framework/thread_safe_list.py] and
    [python_framework/thread_safe_cache.py], with the properties the
    specification states about them and further properties of the code.

    Conventions of the embedding.
    - Python [int] is [Z]; list indexing and [del] follow Python, negative
      indices included.
    - Every method is a computation in the monad [M S A]: it reads and
      writes a state of type [S], may return, raise or wait for a lock, and
      appends to a trace the calls it makes to its collaborators (the
      logger, SQLAlchemy, [uuid4], the process environment).
    - What a collaborator answers is read from an oracle, indexed by the
      position of the call in the trace; theorems hold for every oracle.
    - A [threading.Lock] is a [bool] (held or free).  A call that needs a
      lock which is held has outcome [Blocks]: in a sequential run nobody
      releases it. *)

From stdpp Require Import base list strings pretty gmap.
From Stdlib Require Import Ascii ZArith Lia.

Open Scope Z_scope.

(** ** Python values and exceptions *)

Inductive exn : Type :=
| IndexError
| AttributeError
| KeyError
| TypeError (msg : string)
| ValueError (msg : string)
| RuntimeError (msg : string)
| Exception (msg : string)
| DBAPIError.

(** The values that reach a format string or a printed dictionary. *)
Inductive PyVal : Type :=
| PNone
| PBool (b : bool)
| PInt (z : Z)
| PStr (s : string).

(** [str(v)] *)
Definition py_str (v : PyVal) : string :=
  match v with
  | PNone => "None"
  | PBool true => "True"
  | PBool false => "False"
  | PInt z => pretty z
  | PStr s => s
  end.

(** [str(e)] of an exception value: its message. *)
Definition exn_str (e : exn) : string :=
  match e with
  | IndexError => "list index out of range"
  | AttributeError => "attribute"
  | KeyError => "key"
  | TypeError m | ValueError m | RuntimeError m | Exception m => m
  | DBAPIError => "database error"
  end.

(** [l[i]] on a Python list: indices [-len .. len-1] are accepted. *)
Definition py_index {A} (l : list A) (i : Z) : option A :=
  let n := Z.of_nat (length l) in
  if (0 <=? i) && (i <? n) then l !! Z.to_nat i
  else if (- n <=? i) && (i <? 0) then l !! Z.to_nat (n + i)
  else None.

(** [del l[i]]: the list without that entry, [None] for [IndexError]. *)
Definition py_del {A} (l : list A) (i : Z) : option (list A) :=
  let n := Z.of_nat (length l) in
  if (0 <=? i) && (i <? n) then Some (delete (Z.to_nat i) l)
  else if (- n <=? i) && (i <? 0) then Some (delete (Z.to_nat (n + i)) l)
  else None.

(** [l.insert(i, x)]: the index is clipped to the list. *)
Definition py_insert {A} (l : list A) (i : Z) (x : A) : list A :=
  let n := Z.of_nat (length l) in
  let j := if i <? 0 then Z.max 0 (n + i) else Z.min i n in
  take (Z.to_nat j) l ++ x :: drop (Z.to_nat j) l.

(** [l[i] = x]: the list with that entry replaced, [None] for [IndexError]. *)
Definition py_set {A} (l : list A) (i : Z) (x : A) : option (list A) :=
  let n := Z.of_nat (length l) in
  if (0 <=? i) && (i <? n) then Some (<[Z.to_nat i := x]> l)
  else if (- n <=? i) && (i <? 0) then Some (<[Z.to_nat (n + i) := x]> l)
  else None.

(** *** The [%] operator on strings

    [fmt % args] with the conversions the repository uses: [%s], [%d] and
    [%%].  A right operand that is not a tuple is the one-element list. *)

Fixpoint py_format (fmt : string) (args : list PyVal) : exn + string :=
  match fmt with
  | EmptyString =>
      match args with
      | [] => inr EmptyString
      | _ :: _ =>
          inl (TypeError "not all arguments converted during string formatting")
      end
  | String "%"%char (String c rest) =>
      if Ascii.eqb c "%"%char then
        match py_format rest args with
        | inr s => inr (String "%"%char s)
        | inl e => inl e
        end
      else if Ascii.eqb c "s"%char then
        match args with
        | [] => inl (TypeError "not enough arguments for format string")
        | v :: args' =>
            match py_format rest args' with
            | inr s => inr (py_str v +:+ s)
            | inl e => inl e
            end
        end
      else if Ascii.eqb c "d"%char then
        match args with
        | [] => inl (TypeError "not enough arguments for format string")
        | PInt z :: args' =>
            match py_format rest args' with
            | inr s => inr (pretty z +:+ s)
            | inl e => inl e
            end
        | PBool b :: args' =>
            match py_format rest args' with
            | inr s => inr ((if b then "1" else "0") +:+ s)
            | inl e => inl e
            end
        | _ :: _ => inl (TypeError "%d format: a real number is required")
        end
      else inl (ValueError "unsupported format character")
  | String "%"%char EmptyString => inl (ValueError "incomplete format")
  | String c rest =>
      match py_format rest args with
      | inr s => inr (String c s)
      | inl e => inl e
      end
  end.

(** ** Collaborators: the trace and the oracle *)

Inductive LogLevel : Type := FATAL | ERROR | WARN | INFO | DEBUG | TRACE.

(** A physical connection and a transaction of SQLAlchemy.  [conn_no] and
    [tx_no] tell one object from another: the position in the trace of the
    call that made it. *)
Record Connection := { conn_no : nat; closed : bool }.
Record Transaction := { tx_no : nat; tx_conn : nat; is_active : bool }.

Inductive call : Type :=
| CreateLogger (key : string) (level : LogLevel)
                                   (* create_logger_for_context *)
| Environ (name : string)          (* os.environ lookup *)
| Uuid4                            (* str(uuid4()) *)
| ExcInfo                          (* repr(exc_info()) *)
| PrintExc                         (* traceback.print_exc(file=stdout) *)
| CreateEngine                     (* sqlalchemy.create_engine *)
| ExecutionOptions                 (* Engine.execution_options(...) *)
| Connect                          (* Engine.connect() *)
| Close (c : nat)                  (* Connection.close() *)
| Begin (c : nat)                  (* Connection.begin() *)
| Commit (tx : nat)                (* Transaction.commit() *)
| Rollback (tx : nat).             (* Transaction.rollback() *)

Inductive event : Type :=
| Log (key : string) (level : LogLevel) (msg : string)
| Ext (c : call).

(** What a collaborator answers: whether the call succeeded, and the text
    it produced when it produces one. *)
Record Answer := { ok : bool; text : string }.

Record Env := { trace : list event; oracle : nat → Answer }.

Definition emit (ev : event) (e : Env) : Env :=
  {| trace := trace e ++ [ev]; oracle := oracle e |}.

(** ** The monad of methods *)

Inductive outcome (A : Type) : Type :=
| Returns (a : A)
| Raises (x : exn)
| Blocks.
Arguments Returns {A} a.
Arguments Raises {A} x.
Arguments Blocks {A}.

Record Result (S A : Type) := mkResult { out : outcome A; state : S; env : Env }.
Arguments mkResult {S A} out state env.
Arguments out {S A} r.
Arguments state {S A} r.
Arguments env {S A} r.

Definition M (S A : Type) : Type := S → Env → Result S A.

Definition ret {S A} (a : A) : M S A := fun s e => mkResult (Returns a) s e.

Definition raise {S A} (x : exn) : M S A := fun s e => mkResult (Raises x) s e.

Definition block {S A} : M S A := fun s e => mkResult Blocks s e.

Definition bind {S A B} (m : M S A) (f : A → M S B) : M S B :=
  fun s e =>
    match m s e with
    | mkResult (Returns a) s' e' => f a s' e'
    | mkResult (Raises x) s' e' => mkResult (Raises x) s' e'
    | mkResult Blocks s' e' => mkResult Blocks s' e'
    end.

Notation "'let*' x := m 'in' k" := (bind m (fun x => k))
  (at level 10, x name, m at level 100, k at level 200,
   format "'[v' 'let*'  x  :=  m  'in'  '/' k ']'").

Definition gets {S A} (f : S → A) : M S A := fun s e => mkResult (Returns (f s)) s e.

Definition modify {S} (f : S → S) : M S unit :=
  fun s e => mkResult (Returns tt) (f s) e.

(** [try: m  except: h] with a bare [except] (every exception is caught). *)
Definition try_except {S A} (m : M S A) (h : exn → M S A) : M S A :=
  fun s e =>
    match m s e with
    | mkResult (Raises x) s' e' => h x s' e'
    | r => r
    end.

(** [try: m  finally: f] *)
Definition try_finally {S A} (m : M S A) (f : M S unit) : M S A :=
  fun s e =>
    match m s e with
    | mkResult Blocks s' e' => mkResult Blocks s' e'
    | mkResult o s' e' =>
        match f s' e' with
        | mkResult (Returns _) s'' e'' => mkResult o s'' e''
        | mkResult (Raises x) s'' e'' => mkResult (Raises x) s'' e''
        | mkResult Blocks s'' e'' => mkResult Blocks s'' e''
        end
    end.

(** Run a method of a component stored in a field of the state. *)
Definition zoom {S T A} (get : S → T) (set : T → S → S) (m : M T A) : M S A :=
  fun s e =>
    match m (get s) e with
    | mkResult o t' e' => mkResult o (set t' s) e'
    end.

(** A call to a collaborator: recorded in the trace, answered by the oracle. *)
Definition ask {S} (c : call) : M S Answer :=
  fun s e => mkResult (Returns (oracle e (length (trace e)))) s (emit (Ext c) e).

(** The number the next call has in the trace. *)
Definition tick {S} : M S nat :=
  fun s e => mkResult (Returns (length (trace e))) s e.

(** [ContextLogger.log(key, level, msg)] *)
Definition log_to {S} (key : string) (level : LogLevel) (msg : string) : M S unit :=
  fun s e => mkResult (Returns tt) s (emit (Log key level msg) e).

(** Evaluate [fmt % args]; a formatting error is raised. *)
Definition fmt_msg {S} (fmt : string) (args : list PyVal) : M S string :=
  match py_format fmt args with
  | inr s => ret s
  | inl x => raise x
  end.

(** *** [threading.Lock] *)

Section Lock.
Context {S : Type} (held : S → bool) (set_held : bool → S → S).

Definition acquire : M S unit :=
  fun s e => if held s then mkResult Blocks s e
             else mkResult (Returns tt) (set_held true s) e.

Definition release : M S unit :=
  fun s e => if held s then mkResult (Returns tt) (set_held false s) e
             else mkResult (Raises (RuntimeError "release unlocked lock")) s e.

Definition locked : M S bool := gets held.

(** [with lock: body] *)
Definition with_lock {A} (body : M S A) : M S A :=
  let* _ := acquire in try_finally body release.
End Lock.

(** ** AtomicInt: the bounded rotating counter *)

Module AtomicInt.

Record t := mk { _value : Z; _lock : bool }.

Definition set_value (v : Z) (a : t) : t := {| _value := v; _lock := _lock a |}.
Definition set_lock (b : bool) (a : t) : t := {| _value := _value a; _lock := b |}.

Definition __init__ (value : Z) : t := {| _value := value; _lock := false |}.

Definition get : M t Z := gets _value.

Definition set (value : Z) : M t unit :=
  with_lock _lock set_lock (modify (set_value value)).

Definition inc : M t unit :=
  with_lock _lock set_lock (modify (fun a => set_value (_value a + 1) a)).

Definition dec : M t unit :=
  with_lock _lock set_lock (modify (fun a => set_value (_value a - 1) a)).

(** returns current value and updates the value for next operation *)
Definition next (max : Z) : M t Z :=
  with_lock _lock set_lock
    (let* current := gets _value in
     let* _ := (if current + 1 >? max
                then modify (set_value 0)
                else modify (fun a => set_value (_value a + 1) a)) in
     ret current).

End AtomicInt.

(** ** ConnectionCycle: the connection rotation

    Generic in the type [A] of the entries; [item_eq c connection] is the
    entries' [__eq__], used by [delete].  [_pool] keeps of the owning pool
    what the rotation uses of it: the key it logs under. *)

Definition LOGGER_KEY : string := "CONNECTION_POOL".

Module ConnectionCycle.

Record t (A : Type) := mk {
  _items_lock : bool;
  _items : list A;
  _pointer : AtomicInt.t;
  _pool : option string
}.
Arguments mk {A} _ _ _ _.
Arguments _items_lock {A} _.
Arguments _items {A} _.
Arguments _pointer {A} _.
Arguments _pool {A} _.

Section Methods.
Context {A : Type}.

Definition set_items_lock (b : bool) (c : t A) : t A :=
  mk b (_items c) (_pointer c) (_pool c).
Definition set_items (l : list A) (c : t A) : t A :=
  mk (_items_lock c) l (_pointer c) (_pool c).
Definition set_pointer (p : AtomicInt.t) (c : t A) : t A :=
  mk (_items_lock c) (_items c) p (_pool c).

(** [len(self._items)] *)
Definition len (c : t A) : Z := Z.of_nat (length (_items c)).

(** A method of [self._pointer]. *)
Definition pointer {B} (m : M AtomicInt.t B) : M (t A) B :=
  zoom _pointer set_pointer m.

(** [self._items[i]] *)
Definition item (i : Z) : M (t A) A :=
  fun c e =>
    match py_index (_items c) i with
    | Some x => mkResult (Returns x) c e
    | None => mkResult (Raises IndexError) c e
    end.

(** [del self._items[i]] *)
Definition del_item (i : Z) : M (t A) unit :=
  fun c e =>
    match py_del (_items c) i with
    | Some l => mkResult (Returns tt) (set_items l c) e
    | None => mkResult (Raises IndexError) c e
    end.

Definition __init__ (pool : option string) : t A :=
  mk false [] (AtomicInt.__init__ 0) pool.

Definition log (log_str : string) (log_level : LogLevel) : M (t A) unit :=
  let* p := gets _pool in
  match p with
  | None => log_to LOGGER_KEY log_level log_str
  | Some key => log_to key log_level log_str
  end.

Definition size : M (t A) Z := gets len.

Definition add (connection : A) : M (t A) unit :=
  with_lock _items_lock set_items_lock
    (modify (fun c => set_items (_items c ++ [connection]) c)).

Definition _delete_by_index (index : Z) : M (t A) (option A) :=
  let* n := gets len in
  if index >=? n then ret None
  else
    (* adjust pointer IFF it is at or past the index *)
    let* ptr := pointer AtomicInt.get in
    let* _ :=
      (if ptr >=? index then
         if ptr >=? n - 1 then pointer (AtomicInt.set 0)
         else pointer AtomicInt.dec
       else ret tt) in
    let* conn := item index in
    let* _ := del_item index in
    ret (Some conn).

Definition delete_by_index (index : Z) : M (t A) unit :=
  with_lock _items_lock set_items_lock
    (let* _ := _delete_by_index index in ret tt).

(** The loop of [delete]: the index of the first entry equal to
    [connection], counting from [i]; [-1] when there is none. *)
Fixpoint search (item_eq : A → A → bool) (items : list A) (connection : A)
    (i : Z) : Z :=
  match items with
  | [] => -1
  | c :: rest =>
      if item_eq c connection then i
      else search item_eq rest connection (i + 1)
  end.

Definition delete (item_eq : A → A → bool) (connection : A) : M (t A) bool :=
  with_lock _items_lock set_items_lock
    (let* items := gets _items in
     let index := search item_eq items connection 0 in
     if index =? -1 then ret false
     else
       let* _ := _delete_by_index index in
       ret true).

Definition peek : M (t A) (option A) :=
  let* n := gets len in
  if n =? 0 then ret None
  else
    let* ptr := pointer AtomicInt.get in
    let* x := item ptr in
    ret (Some x).

Definition _cycle : M (t A) A :=
  let* n := gets len in
  let* i := pointer (AtomicInt.next (n - 1)) in
  let* conn := item i in
  let* ptr := pointer AtomicInt.get in
  let* msg := fmt_msg "connections cycled, current_pointer = [%d]..." [PInt ptr] in
  let* _ := log msg TRACE in
  ret conn.

Definition cycle : M (t A) (option A) :=
  let* n := gets len in
  if n =? 0 then ret None
  else
    let* ptr := pointer AtomicInt.get in
    let* msg := fmt_msg "cycling connections, current_pointer = [%d]..." [PInt ptr] in
    let* _ := log msg TRACE in
    (* if there's a lock on items, we need to wait for it *)
    let* l := locked _items_lock in
    if l then
      with_lock _items_lock set_items_lock
        (let* x := _cycle in ret (Some x))
    else
      let* x := _cycle in ret (Some x).

End Methods.

End ConnectionCycle.

(** ** ConnectionDetails: the endpoint identity *)

(** [repr(s)] of a string, for ASCII text: single quotes unless the text
    has a single quote and no double quote; backslash, the chosen quote
    and control characters are escaped. *)

Definition hex_digit (n : N) : ascii :=
  match n with
  | 0%N => "0" | 1%N => "1" | 2%N => "2" | 3%N => "3" | 4%N => "4"
  | 5%N => "5" | 6%N => "6" | 7%N => "7" | 8%N => "8" | 9%N => "9"
  | 10%N => "a" | 11%N => "b" | 12%N => "c" | 13%N => "d" | 14%N => "e"
  | _ => "f"
  end%char.

Fixpoint contains_char (c : ascii) (s : string) : bool :=
  match s with
  | EmptyString => false
  | String d rest => Ascii.eqb c d || contains_char c rest
  end.

Fixpoint repr_body (quote : ascii) (s : string) : string :=
  match s with
  | EmptyString => EmptyString
  | String c rest =>
      let n := N_of_ascii c in
      let tail := repr_body quote rest in
      if Ascii.eqb c "\"%char then String "\"%char (String "\"%char tail)
      else if Ascii.eqb c quote then String "\"%char (String c tail)
      else if (n =? 10)%N then String "\"%char (String "n"%char tail)
      else if (n =? 13)%N then String "\"%char (String "r"%char tail)
      else if (n =? 9)%N then String "\"%char (String "t"%char tail)
      else if (n <? 32)%N || (n =? 127)%N then
        String "\"%char (String "x"%char
          (String (hex_digit (n / 16)) (String (hex_digit (n mod 16)) tail)))
      else String c tail
  end.

Definition double_quote : ascii := ascii_of_nat 34.

Definition py_repr_str (s : string) : string :=
  let quote :=
    if contains_char "'"%char s && negb (contains_char double_quote s)
    then double_quote else "'"%char in
  String quote (repr_body quote s +:+ String quote EmptyString).

(** [repr(v)] *)
Definition py_repr (v : PyVal) : string :=
  match v with
  | PStr s => py_repr_str s
  | _ => py_str v
  end.

(** [str(d)] of a dictionary with string keys, kept in insertion order. *)
Fixpoint dict_entries (d : list (string * PyVal)) : string :=
  match d with
  | [] => ""
  | [(k, v)] => py_repr_str k +:+ ": " +:+ py_repr v
  | (k, v) :: rest => py_repr_str k +:+ ": " +:+ py_repr v +:+ ", " +:+ dict_entries rest
  end.

Definition dict_str (d : list (string * PyVal)) : string :=
  "{" +:+ dict_entries d +:+ "}".

(** [d[key] = v]: in place when the key is there, appended otherwise. *)
Fixpoint dict_set (key : string) (v : PyVal) (d : list (string * PyVal))
    : list (string * PyVal) :=
  match d with
  | [] => [(key, v)]
  | (k, w) :: rest =>
      if String.eqb k key then (k, v) :: rest else (k, w) :: dict_set key v rest
  end.

(** The truth value of a Python value, and [a == b]: [bool] is a kind of
    [int], so [1 == True]. *)
Definition py_truthy (v : PyVal) : bool :=
  match v with
  | PNone => false
  | PBool b => b
  | PInt z => negb (z =? 0)
  | PStr s => negb (String.eqb s "")
  end.

Definition py_eq (a b : PyVal) : bool :=
  match a, b with
  | PNone, PNone => true
  | PStr s, PStr t => String.eqb s t
  | PInt x, PInt y => x =? y
  | PBool x, PBool y => Bool.eqb x y
  | PInt x, PBool y => x =? (if y then 1 else 0)
  | PBool x, PInt y => (if x then 1 else 0) =? y
  | _, _ => false
  end.

(** [s.replace(old, new)] for a one-character [old]. *)
Fixpoint py_replace (old : ascii) (new : string) (s : string) : string :=
  match s with
  | EmptyString => EmptyString
  | String c rest =>
      if Ascii.eqb c old then new +:+ py_replace old new rest
      else String c (py_replace old new rest)
  end.

Module ConnectionDetails.

Record t := mk {
  dialect : PyVal;
  driver : PyVal;
  host : PyVal;
  port : PyVal;
  database : PyVal;
  user : PyVal;
  password : PyVal;
  schema : PyVal;
  disable_ssl : PyVal
}.

(** [self.__dict__], in the order [__init__] assigns the attributes. *)
Definition __dict__ (self : t) : list (string * PyVal) :=
  [("dialect", dialect self); ("driver", driver self); ("host", host self);
   ("port", port self); ("database", database self); ("user", user self);
   ("password", password self); ("schema", schema self);
   ("disable_ssl", disable_ssl self)].

Definition get_key (self : t) : string :=
  py_str (host self) +:+ ":" +:+ py_str (port self) +:+ ":" +:+
  py_str (database self) +:+ ":" +:+ py_str (user self) +:+ ":" +:+
  py_str (schema self).

Definition __repr__ (self : t) : string :=
  let repr_dict := __dict__ self in
  let repr_dict := dict_set "password" (PStr "******") repr_dict in
  dict_str repr_dict.

Definition get_connection_string (self : t) : string :=
  let engine :=
    match driver self with
    | PNone => py_str (dialect self)
    | _ => py_str (dialect self) +:+ "+" +:+ py_str (driver self)
    end in
  engine +:+ "://" +:+ py_str (user self) +:+ ":" +:+ py_str (password self) +:+ "@" +:+
  py_str (host self) +:+ ":" +:+ py_str (port self) +:+ "/" +:+
  py_str (database self) +:+
  (if py_truthy (disable_ssl self) then "?sslmode=disable" else "").

Definition __eq__ (self other : t) : bool :=
  py_eq (dialect self) (dialect other)
  && py_eq (driver self) (driver other)
  && py_eq (host self) (host other)
  && py_eq (port self) (port other)
  && py_eq (database self) (database other)
  && py_eq (user self) (user other)
  && py_eq (password self) (password other)
  && py_eq (schema self) (schema other).

End ConnectionDetails.

(** ** WaitableConnection: the connection handle (object and simple methods)

    The handle's reference to its pool is not a field: the handle objects
    of a pool live in the pool's [_connections], and the methods that use
    [self._pool] run on that pool's state (they follow [ConnectionPool]). *)

Module WaitableConnection.

Record t := mk {
  _id : string;
  _connection : option Connection;
  _lock : bool;
  _transaction : option Transaction;
  _in_use : bool
}.

Definition set_connection (c : option Connection) (h : t) : t :=
  mk (_id h) c (_lock h) (_transaction h) (_in_use h).
Definition set_lock (b : bool) (h : t) : t :=
  mk (_id h) (_connection h) b (_transaction h) (_in_use h).
Definition set_transaction (x : option Transaction) (h : t) : t :=
  mk (_id h) (_connection h) (_lock h) x (_in_use h).
Definition set_in_use (b : bool) (h : t) : t :=
  mk (_id h) (_connection h) (_lock h) (_transaction h) b.

(** What [self._connection.close()] leaves when it goes through: the
    connection reports closed, and the transaction begun on it, if the
    handle records one, has been rolled back by SQLAlchemy and is no longer
    active. *)
Definition after_close (c : Connection) (h : t) : t :=
  mk (_id h) (Some {| conn_no := conn_no c; closed := true |}) (_lock h)
     (match _transaction h with
      | Some tx =>
          if Nat.eqb (tx_conn tx) (conn_no c)
          then Some {| tx_no := tx_no tx; tx_conn := tx_conn tx; is_active := false |}
          else Some tx
      | None => None
      end)
     (_in_use h).

Definition __init__ {S} (connection : Connection) : M S t :=
  let* a := ask Uuid4 in
  ret (mk (text a) (Some connection) false None false).

Definition is_healthy (self : t) : bool :=
  match _connection self with
  | Some c => negb (closed c)
  | None => false
  end.

Definition in_use (self : t) : bool := _in_use self.

Definition __eq__ (self other : t) : bool := String.eqb (_id self) (_id other).

End WaitableConnection.

(** A reference to a handle: its position in the [_connections] of its pool. *)
Definition ref : Type := nat.

Record Engine := { engine_no : nat }.

(** What [create_connection] returns: nothing, a handle or a bare
    physical connection. *)
Inductive value : Type :=
| VNone
| VHandle (r : ref)
| VConnection (c : Connection).

Definition value_of_handle (o : option ref) : value :=
  match o with
  | Some r => VHandle r
  | None => VNone
  end.

(** [s.lower()], for ASCII text. *)
Definition lower_char (c : ascii) : ascii :=
  let n := N_of_ascii c in
  if (65 <=? n)%N && (n <=? 90)%N then ascii_of_N (n + 32) else c.

Fixpoint py_lower (s : string) : string :=
  match s with
  | EmptyString => EmptyString
  | String c rest => String (lower_char c) (py_lower rest)
  end.

(** [len(v)] *)
Definition py_len (v : PyVal) : exn + Z :=
  match v with
  | PStr s => inr (Z.of_nat (String.length s))
  | _ => inl (TypeError "object has no len()")
  end.

(** [int(v)], as CPython 3.11 computes it with its default settings.

    A text is read as UTF-8.  It must hold one literal: decimal digits with
    single underscores allowed between them, after an optional sign, and
    with white space allowed around the whole.  The decimal digits of every
    script count (Unicode 14.0), and so does the white space outside ASCII.
    A literal of more than 4300 digits is refused. *)

(** The code points of a text.  A byte that is part of no UTF-8 sequence
    becomes the lone surrogate [os.environ] gives it, which is neither a
    digit nor white space. *)
Definition continuation (b : N) : bool := ((128 <=? b) && (b <? 192))%N.

Definition escaped (b : N) : N * nat := ((56320 + b)%N, 1%nat).

(** The code point that starts with byte [b0], and the bytes it takes. *)
Definition utf8_head (b0 : N) (rest : list N) : N * nat :=
  if (b0 <? 128)%N then (b0, 1%nat)
  else
    match rest with
    | b1 :: rest1 =>
        if ((194 <=? b0) && (b0 <? 224))%N then
          if continuation b1
          then (((b0 - 192) * 64 + (b1 - 128))%N, 2%nat)
          else escaped b0
        else
          match rest1 with
          | b2 :: rest2 =>
              if ((224 <=? b0) && (b0 <? 240))%N then
                let cp := ((b0 - 224) * 4096 + (b1 - 128) * 64 + (b2 - 128))%N in
                if continuation b1 && continuation b2 && (2048 <=? cp)%N
                   && negb ((55296 <=? cp) && (cp <? 57344))%N
                then (cp, 3%nat)
                else escaped b0
              else
                match rest2 with
                | b3 :: _ =>
                    let cp := ((b0 - 240) * 262144 + (b1 - 128) * 4096
                               + (b2 - 128) * 64 + (b3 - 128))%N in
                    if ((240 <=? b0) && (b0 <? 245))%N
                       && continuation b1 && continuation b2 && continuation b3
                       && ((65536 <=? cp) && (cp <? 1114112))%N
                    then (cp, 4%nat)
                    else escaped b0
                | [] => escaped b0
                end
          | [] => escaped b0
          end
    | [] => escaped b0
    end.

Fixpoint decode_utf8 (fuel : nat) (s : list N) : list N :=
  match fuel, s with
  | S fuel, b0 :: rest =>
      let (cp, used) := utf8_head b0 rest in
      cp :: decode_utf8 fuel (drop (pred used) rest)
  | _, _ => []
  end.

Definition code_points (s : string) : list N :=
  let bytes := map N_of_ascii (String.list_ascii_of_string s) in
  decode_utf8 (length bytes) bytes.

(** The digit zero of every script with decimal digits; the digits one to
    nine follow it. *)
Definition decimal_zeros : list N :=
  [48; 1632; 1776; 1984; 2406; 2534; 2662; 2790; 2918; 3046; 3174;
    3302; 3430; 3558; 3664; 3792; 3872; 4160; 4240; 6112; 6160; 6470;
    6608; 6784; 6800; 6992; 7088; 7232; 7248; 42528; 43216; 43264;
    43472; 43504; 43600; 44016; 65296; 66720; 68912; 69734; 69872;
    69942; 70096; 70384; 70736; 70864; 71248; 71360; 71472; 71904;
    72016; 72784; 73040; 73120; 92768; 92864; 93008; 120782; 120792;
    120802; 120812; 120822; 123200; 123632; 125264; 130032]%N.

Definition decimal_value (cp : N) : option N :=
  match List.find (fun z => (z <=? cp) && (cp <? z + 10))%N decimal_zeros with
  | Some z => Some (cp - z)%N
  | None => None
  end.

(** The characters outside ASCII for which [str.isspace] holds. *)
Definition unicode_spaces : list N :=
  [133; 160; 5760; 8192; 8193; 8194; 8195; 8196; 8197; 8198; 8199;
    8200; 8201; 8202; 8232; 8233; 8239; 8287; 12288]%N.

(** What [int] parses: an ASCII character stays, white space becomes a
    blank, a decimal digit its ASCII digit and anything else [?]. *)
Definition to_ascii_digit (cp : N) : N :=
  if (cp <? 127)%N then cp
  else if existsb (N.eqb cp) unicode_spaces then 32%N
  else
    match decimal_value cp with
    | Some d => (48 + d)%N
    | None => 63%N
    end.

(** [Py_ISSPACE] *)
Definition py_isspace (c : N) : bool := ((9 <=? c) && (c <=? 13) || (c =? 32))%N.

Fixpoint skip_spaces (l : list N) : list N :=
  match l with
  | c :: rest => if py_isspace c then skip_spaces rest else l
  | [] => []
  end.

(** The digits and underscores at the head of [l]: the value, the number
    of digits and what follows them; [None] for two underscores in a row
    and for an underscore after the last digit. *)
Fixpoint scan_digits (l : list N) (acc : Z) (digits : N) (after_underscore : bool)
    : option (Z * N * list N) :=
  match l with
  | c :: rest =>
      if ((48 <=? c) && (c <=? 57))%N
      then scan_digits rest (10 * acc + Z.of_N (c - 48)) (digits + 1)%N false
      else if (c =? 95)%N then
        if after_underscore then None else scan_digits rest acc digits true
      else if after_underscore then None else Some (acc, digits, l)
  | [] => if after_underscore then None else Some (acc, digits, [])
  end.

Definition max_str_digits : N := 4300.

Definition int_of_text (s : string) : exn + Z :=
  let invalid : exn + Z :=
    inl (ValueError ("invalid literal for int() with base 10: "
                     +:+ String.substring 0 200 (py_repr_str s))) in
  let l := skip_spaces (map to_ascii_digit (code_points s)) in
  let '(sign, l) :=
    match l with
    | 43%N :: rest => (1, rest)
    | 45%N :: rest => (-1, rest)
    | _ => (1, l)
    end in
  match l with
  | 95%N :: _ => invalid
  | _ =>
      match scan_digits l 0 0 false with
      | None => invalid
      | Some (z, digits, rest) =>
          if (digits =? 0)%N then invalid
          else if (max_str_digits <? digits)%N then
            inl (ValueError
                   ("Exceeds the limit (" +:+ pretty max_str_digits
                    +:+ " digits) for integer string conversion: value has "
                    +:+ pretty digits
                    +:+ " digits; use sys.set_int_max_str_digits() to increase the limit"))
          else
            match skip_spaces rest with
            | [] => inr (sign * z)
            | _ => invalid
            end
      end
  end.

Definition py_int (v : PyVal) : exn + Z :=
  match v with
  | PInt z => inr z
  | PBool b => inr (if b then 1 else 0)
  | PNone =>
      inl (TypeError
             "int() argument must be a string, a bytes-like object or a real number, not 'NoneType'")
  | PStr s => int_of_text s
  end.

Definition lift_exn {S A} (x : exn + A) : M S A :=
  match x with
  | inr a => ret a
  | inl e => raise e
  end.

(** [load_environment_variable(name, default)] of [config_utils.py] *)
Definition load_environment_variable {S} (environment_variable : string)
    (default : PyVal) : M S PyVal :=
  let* a := ask (Environ environment_variable) in
  if ok a && negb (String.eqb (text a) "") then ret (PStr (text a))
  else ret default.

(** ** ConnectionPool *)

Module ConnectionPool.

(** [_connections] holds the handle objects themselves, in the order
    they were made; it only grows.  The rotation holds references. *)
Record t := mk {
  _engine : option Engine;
  _connection_details : ConnectionDetails.t;
  _connections : list WaitableConnection.t;
  _connection_cycle : ConnectionCycle.t ref;
  _lock : bool;
  _max_pool_size : Z;
  logger_key : string
}.

Definition set_engine (x : option Engine) (p : t) : t :=
  mk x (_connection_details p) (_connections p) (_connection_cycle p)
     (_lock p) (_max_pool_size p) (logger_key p).
Definition set_connections (l : list WaitableConnection.t) (p : t) : t :=
  mk (_engine p) (_connection_details p) l (_connection_cycle p)
     (_lock p) (_max_pool_size p) (logger_key p).
Definition set_connection_cycle (c : ConnectionCycle.t ref) (p : t) : t :=
  mk (_engine p) (_connection_details p) (_connections p) c
     (_lock p) (_max_pool_size p) (logger_key p).
Definition set_lock (b : bool) (p : t) : t :=
  mk (_engine p) (_connection_details p) (_connections p) (_connection_cycle p)
     b (_max_pool_size p) (logger_key p).

(** A method of [self._connection_cycle]. *)
Definition rotation {B} (m : M (ConnectionCycle.t ref) B) : M t B :=
  zoom _connection_cycle set_connection_cycle m.

(** A method of the handle object behind [r]. *)
Definition handle {B} (r : ref) (m : M WaitableConnection.t B) : M t B :=
  fun p e =>
    match _connections p !! r with
    | Some h =>
        match m h e with
        | mkResult o h' e' =>
            mkResult o (set_connections (<[r := h']> (_connections p)) p) e'
        end
    | None => mkResult (Raises AttributeError) p e
    end.

(** [a == b] on two handles of this pool. *)
Definition handle_eq (objects : list WaitableConnection.t) (a b : ref) : bool :=
  match objects !! a, objects !! b with
  | Some x, Some y => WaitableConnection.__eq__ x y
  | _, _ => false
  end.

Definition __init__ {S} (connection_details : ConnectionDetails.t)
    (max_pool_size : Z) : M S t :=
  let key :=
    LOGGER_KEY +:+ " - " +:+ py_str (ConnectionDetails.database connection_details)
      +:+ "." +:+ py_str (ConnectionDetails.schema connection_details) in
  let self :=
    mk None connection_details [] (ConnectionCycle.__init__ (Some key)) false
       max_pool_size key in
  let* v := load_environment_variable "ENABLE_POSTGRES_TRACE_LOGGING" (PStr "False") in
  let* _ := ask (CreateLogger key
              (if String.eqb (py_lower (py_str v)) "true" then TRACE else INFO)) in
  ret self.

Definition log (log_str : string) (log_level : LogLevel) : M t unit :=
  let* key := gets logger_key in
  log_to key log_level log_str.

Definition create_db_engine (recreate : bool) : M t Engine :=
  with_lock _lock set_lock
    (let* eng := gets _engine in
     match eng, recreate with
     | Some en, false => ret en
     | _, _ =>
         let* _ := log "creating DB engine..." TRACE in
         let* n := tick in
         let* a := ask CreateEngine in
         if negb (ok a) then raise DBAPIError
         else
           let en := {| engine_no := n |} in
           let* _ := modify (set_engine (Some en)) in
           let* sch := gets (fun p => ConnectionDetails.schema (_connection_details p)) in
           let* _ :=
             match sch with
             | PNone => ret tt
             | _ =>
                 let* k := lift_exn (py_len sch) in
                 if k >? 0 then (let* _ := ask ExecutionOptions in ret tt) else ret tt
             end in
           let* msg := fmt_msg "DB engine created, pool = [%s]" [PStr (text a)] in
           let* _ := log msg TRACE in
           ret en
     end).

(** [self._engine.connect()] *)
Definition connect : M t Connection :=
  let* eng := gets _engine in
  match eng with
  | None => raise AttributeError
  | Some _ =>
      let* n := tick in
      let* a := ask Connect in
      if ok a then ret {| conn_no := n; closed := false |}
      else raise DBAPIError
  end.

Definition size : M t Z := rotation ConnectionCycle.size.

Definition _create_connection : M t (option ref) :=
  (* ensure pool not overflowing *)
  let* sz := rotation ConnectionCycle.size in
  let* max := gets _max_pool_size in
  if sz >=? max then rotation ConnectionCycle.cycle
  else
    let* _ := log "creating new connection..." TRACE in
    let* connection := connect in
    let* waitable_connection := WaitableConnection.__init__ connection in
    let* r := gets (fun p => length (_connections p)) in
    let* _ := modify (fun p => set_connections (_connections p ++ [waitable_connection]) p) in
    let* _ := rotation (ConnectionCycle.add r) in
    let* sz' := rotation ConnectionCycle.size in
    let* msg := fmt_msg "new connection created, current pool size = [%d]" [PInt sz'] in
    let* _ := log msg TRACE in
    ret (Some r).

Definition create_connection (raw_connection_only lock : bool) : M t value :=
  let* eng := gets _engine in
  let* _ := match eng with
            | None => let* _ := create_db_engine false in ret tt
            | Some _ => ret tt
            end in
  if raw_connection_only then
    let* c := connect in ret (VConnection c)
  else if lock then
    with_lock _lock set_lock (let* o := _create_connection in ret (value_of_handle o))
  else
    let* o := _create_connection in ret (value_of_handle o).

Definition remove_connection (connection : ref) : M t bool :=
  let* id := handle connection (gets WaitableConnection._id) in
  let* msg := fmt_msg "removing connection with id = [%s] from pool..." [PStr id] in
  let* _ := log msg DEBUG in
  with_lock _lock set_lock
    (let* objects := gets _connections in
     let* removed := rotation (ConnectionCycle.delete (handle_eq objects) connection) in
     let* sz := rotation ConnectionCycle.size in
     let* _ :=
       (if removed : bool then
          let* msg := fmt_msg
            "connection with id = [%s] removed from pool, current pool size = [%d]"
            [PStr id; PInt sz] in
          log msg DEBUG
        else
          let* msg := fmt_msg
            "failed to remove connection with id = [%s] from pool, current pool size = [%d]"
            [PStr id; PInt sz] in
          log msg WARN) in
     ret removed).

Definition get_connection : M t (option ref) :=
  let* _ := log "getting connection..." TRACE in
  let* sz := rotation ConnectionCycle.size in
  let* max := gets _max_pool_size in
  let* grow :=
    (if sz =? 0 then ret true
     else if sz <? max then
       (* next connection in pool is in use *)
       let* nxt := rotation ConnectionCycle.peek in
       match nxt with
       | None => raise AttributeError
       | Some r =>
           let* busy := handle r (gets WaitableConnection.in_use) in
           if busy : bool then
             (* the pool is not currently being scaled *)
             let* l := locked _lock in ret (negb l)
           else ret false
       end
     else ret false) in
  let* connection :=
    (if grow : bool then
       let* v := create_connection false true in
       ret (match v with VHandle r => Some r | _ => None end)
     else rotation ConnectionCycle.cycle) in
  let* _ := log "returning connection." TRACE in
  ret connection.

(** *** The registry [ConnectionPool.POOLS]

    Pools by endpoint key; a pool is referred to by its key. *)

Abbreviation Registry := (gmap string t).

(** A method of the pool [POOLS[key]]. *)
Definition pool {B} (key : string) (m : M t B) : M Registry B :=
  fun pools e =>
    match pools !! key with
    | Some p =>
        match m p e with
        | mkResult o p' e' => mkResult o (<[key := p']> pools) e'
        end
    | None => mkResult (Raises KeyError) pools e
    end.

(** Methods called on an object that no registry holds yet. *)
Definition on_object {S B} (p : t) (m : M t B) : M S (B * t) :=
  fun s e =>
    match m p e with
    | mkResult (Returns b) p' e' => mkResult (Returns (b, p')) s e'
    | mkResult (Raises x) _ e' => mkResult (Raises x) s e'
    | mkResult Blocks _ e' => mkResult Blocks s e'
    end.

(** [for i in range(n): pool.create_connection()] *)
Fixpoint create_connections (n : nat) : M t unit :=
  match n with
  | O => ret tt
  | S k =>
      let* _ := create_connection false false in
      create_connections k
  end.

Definition initialize (connection_details : ConnectionDetails.t)
    (max_pool_size initial_pool_size : Z) : M Registry string :=
  let key := ConnectionDetails.get_key connection_details in
  let* pools := gets (fun pools : Registry => pools) in
  match pools !! key with
  | Some _ => ret key
  | None =>
      let* msg := fmt_msg "creating pool with key = [%s], max_pool_size = [%d]..."
                    [PStr key; PInt max_pool_size] in
      let* _ := log_to LOGGER_KEY DEBUG msg in
      let* p := __init__ connection_details max_pool_size in
      let* built :=
        on_object p
          (let* _ := create_db_engine false in
           if initial_pool_size >? 0 then
             let* msg := fmt_msg "initialising pool with [%d] connections..."
                           [PInt initial_pool_size] in
             let* _ := log msg DEBUG in
             create_connections (Z.to_nat initial_pool_size)
           else ret tt) in
      let* _ := modify (fun pools : Registry => <[key := snd built]> pools) in
      let* msg := fmt_msg "pool created with key = [%s]." [PStr key] in
      let* _ := pool key (log msg DEBUG) in
      ret key
  end.

Definition instance (connection_details : ConnectionDetails.t) : M Registry string :=
  let key := ConnectionDetails.get_key connection_details in
  let* pools := gets (fun pools : Registry => pools) in
  match pools !! key with
  | Some _ => ret key
  | None =>
      let* v := load_environment_variable "EXTERNAL_DB_POOL_MAX_SIZE" (PInt 10) in
      let* max_pool_size := lift_exn (py_int v) in
      let* v := load_environment_variable "EXTERNAL_DB_POOL_INITIAL_SIZE" (PInt 5) in
      let* initial_pool_size := lift_exn (py_int v) in
      initialize connection_details max_pool_size initial_pool_size
  end.

Definition get_pooled_connection (connection_details : ConnectionDetails.t)
    : M Registry (option (string * ref)) :=
  let* key := instance connection_details in
  let* o := pool key get_connection in
  ret (option_map (fun r => (key, r)) o).

End ConnectionPool.

(** ** WaitableConnection: the methods that use the owning pool

    [r] is the handle [self]; the state is the pool [self._pool]. *)

Definition exc_val_text (exc_val : option exn) : PyVal :=
  match exc_val with
  | None => PNone
  | Some x => PStr (exn_str x)
  end.

(** We assume this is already inside a locked region, so we do not lock again *)
Definition self_heal (r : ref) : M ConnectionPool.t bool :=
  let* a := ask ExcInfo in
  let* msg := fmt_msg "self-healing connection..." [PStr (text a)] in
  let* _ := ConnectionPool.log msg DEBUG in
  let* _ :=
    try_except
      (let* c := ConnectionPool.handle r (gets WaitableConnection._connection) in
       match c with
       | None => raise AttributeError
       | Some c =>
           let* a := ask (Close (conn_no c)) in
           if ok a then
             ConnectionPool.handle r (modify (WaitableConnection.after_close c))
           else raise DBAPIError
       end)
      (fun _ => ret tt) in
  let* healed :=
    try_except
      (let* v := ConnectionPool.create_connection true false in
       let* _ := ConnectionPool.handle r
                   (modify (WaitableConnection.set_connection
                              match v with VConnection c => Some c | _ => None end)) in
       ret true)
      (fun _ =>
         let* a := ask ExcInfo in
         let* msg := fmt_msg
           "failed to self-heal connection. Removing connection from pool. Error = [%s]"
           [PStr (text a)] in
         let* _ := ConnectionPool.log msg ERROR in
         let* _ := ask PrintExc in
         ret false) in
  if healed : bool then ret true
  else
    let* _ := ConnectionPool.remove_connection r in
    ret false.

Definition start_transaction (r : ref) : M ConnectionPool.t Connection :=
  let* _ := ConnectionPool.log "acquiring lock on connection..." TRACE in
  let* _ := ConnectionPool.handle r
              (acquire WaitableConnection._lock WaitableConnection.set_lock) in
  let* _ := ConnectionPool.log "lock acquired on connection..." TRACE in
  let* _ := ConnectionPool.handle r (modify (WaitableConnection.set_in_use true)) in
  (* assess connection health, if unhealthy, close and create new connection *)
  let* healthy := ConnectionPool.handle r (gets WaitableConnection.is_healthy) in
  let* usable := (if healthy : bool then ret true else self_heal r) in
  if negb usable then
    let* _ := ConnectionPool.handle r (modify (WaitableConnection.set_in_use false)) in
    let* _ := ConnectionPool.handle r
                (release WaitableConnection._lock WaitableConnection.set_lock) in
    raise (Exception "Failed to start transaction - connection could not self-heal")
  else
    let* _ := ConnectionPool.log "creating transaction..." TRACE in
    let* c := ConnectionPool.handle r (gets WaitableConnection._connection) in
    match c with
    | None => raise AttributeError
    | Some c =>
        let* n := tick in
        let* a := ask (Begin (conn_no c)) in
        if negb (ok a) then raise DBAPIError
        else
          let* _ := ConnectionPool.handle r
                      (modify (WaitableConnection.set_transaction
                                 (Some {| tx_no := n; tx_conn := conn_no c;
                                          is_active := true |}))) in
          let* _ := ConnectionPool.log "returning connection..." TRACE in
          ret c
    end.

(** [self._transaction.rollback()] and [self._transaction.commit()]: the
    transaction object is told to finish with call [c]. *)
Definition finish_transaction (r : ref) (c : nat → call) : M ConnectionPool.t unit :=
  let* t := ConnectionPool.handle r (gets WaitableConnection._transaction) in
  match t with
  | None => raise AttributeError
  | Some tx =>
      let* a := ask (c (tx_no tx)) in
      if ok a then
        ConnectionPool.handle r
          (modify (WaitableConnection.set_transaction
                     (Some {| tx_no := tx_no tx; tx_conn := tx_conn tx;
                              is_active := false |})))
      else raise DBAPIError
  end.

Definition rollback_transaction (r : ref) (exc_val : option exn)
    : M ConnectionPool.t unit :=
  let* msg := fmt_msg "rolling back transaction. Exception = [%s]"
                [exc_val_text exc_val] in
  let* _ := ConnectionPool.log msg ERROR in
  let* _ := finish_transaction r Rollback in
  let* _ := ConnectionPool.handle r (modify (WaitableConnection.set_in_use false)) in
  ConnectionPool.handle r (release WaitableConnection._lock WaitableConnection.set_lock).

Definition commit_transaction (r : ref) : M ConnectionPool.t unit :=
  let* _ := ConnectionPool.log "committing transaction..." TRACE in
  let* _ := finish_transaction r Commit in
  let* _ := ConnectionPool.handle r (modify (WaitableConnection.set_in_use false)) in
  ConnectionPool.handle r (release WaitableConnection._lock WaitableConnection.set_lock).

Definition close_transaction (r : ref) : M ConnectionPool.t unit :=
  let* _ := ConnectionPool.log "closing non transactional connection..." TRACE in
  let* _ := ConnectionPool.handle r (modify (WaitableConnection.set_in_use false)) in
  let* _ := ConnectionPool.handle r
              (release WaitableConnection._lock WaitableConnection.set_lock) in
  let* c := ConnectionPool.handle r (gets WaitableConnection._connection) in
  match c with
  | None => raise AttributeError
  | Some c =>
      let* a := ask (Close (conn_no c)) in
      if ok a then
        ConnectionPool.handle r (modify (WaitableConnection.after_close c))
      else raise DBAPIError
  end.

Definition __enter__ (r : ref) : M ConnectionPool.t Connection :=
  start_transaction r.

(** [exc_tb.print_exc(file=stdout)]: [exc_tb] is a traceback object, and a
    traceback object has no attribute [print_exc]. *)
Definition exc_tb_print_exc {S} : M S unit := raise AttributeError.

(** [exc] is the exception the block raised, if any: [exc_type] is not
    [None] exactly when there is one, and [exc_val] is that exception. *)
Definition __exit__ (r : ref) (exc : option exn) : M ConnectionPool.t bool :=
  match exc with
  | Some exc_val =>
      let* _ := rollback_transaction r (Some exc_val) in
      let* _ := exc_tb_print_exc in
      ret false
  | None =>
      let* _ := commit_transaction r in
      ret true
  end.

(** ** The [with] statement

    [with manager as x: block], for a manager with methods [enter] and
    [exit]: [exit] is not called when [enter] raises; after the block it is
    called with the exception the block raised, or with none; a true
    result of [exit] swallows that exception. *)
Definition with_stmt {S X A} (enter : M S X) (exit : option exn → M S bool)
    (block : X → M S A) : M S (option A) :=
  let* x := enter in
  fun s e =>
    match block x s e with
    | mkResult (Returns a) s' e' =>
        (let* _ := exit None in ret (Some a)) s' e'
    | mkResult (Raises err) s' e' =>
        (let* swallow := exit (Some err) in
         if swallow : bool then ret None else raise err) s' e'
    | mkResult Blocks s' e' => mkResult Blocks s' e'
    end.

(** ** DBConfig and the construction of ConnectionDetails from it *)

Module DBConfig.

Record t := mk {
  host : PyVal;
  port : PyVal;
  database_name : PyVal;
  username : PyVal;
  password : PyVal;
  schema_id : PyVal;
  use_raw_schema_id : PyVal;
  use_redshift : PyVal;
  disable_ssl : PyVal
}.

Definition __dict__ (self : t) : list (string * PyVal) :=
  [("host", host self); ("port", port self); ("database_name", database_name self);
   ("username", username self); ("password", password self);
   ("schema_id", schema_id self); ("use_raw_schema_id", use_raw_schema_id self);
   ("use_redshift", use_redshift self); ("disable_ssl", disable_ssl self)].

Definition __repr__ (self : t) : string :=
  let repr_dict := __dict__ self in
  let repr_dict := dict_set "password" (PStr "******") repr_dict in
  dict_str repr_dict.

(** [obj[key]] on a dictionary. *)
Definition getitem (obj : gmap string PyVal) (key : string) : exn + PyVal :=
  match obj !! key with
  | Some v => inr v
  | None => inl KeyError
  end.

(** [default if key not in obj else obj[key]] *)
Definition get_or (obj : gmap string PyVal) (key : string) (default : PyVal) : PyVal :=
  match obj !! key with
  | Some v => v
  | None => default
  end.

Definition from_json (obj : gmap string PyVal) : exn + t :=
  match getitem obj "host" with
  | inl x => inl x
  | inr host =>
  match getitem obj "port" with
  | inl x => inl x
  | inr port =>
  match getitem obj "database" with
  | inl x => inl x
  | inr database =>
  match getitem obj "username" with
  | inl x => inl x
  | inr username =>
  match getitem obj "password" with
  | inl x => inl x
  | inr password =>
      inr (mk host port database username password
             (get_or obj "schemaId" (PStr "public"))
             (get_or obj "useRawSchemaId" (PBool true))
             (get_or obj "useRedshift" (PBool false))
             (get_or obj "disableSsl" (PBool false)))
  end end end end end.

End DBConfig.

Definition POSTGRES_UTILS : string := "POSTGRES_UTILS".

(** [getSchemaFromSchemaId]: only a string has [replace]. *)
Definition getSchemaFromSchemaId (schema_id : PyVal) : exn + PyVal :=
  match schema_id with
  | PStr s => inr (PStr ("_" +:+ py_replace "-" "" s))
  | _ => inl AttributeError
  end.

Definition newline : ascii := ascii_of_nat 10.

(** [ConnectionDetails.from_db_config]; [database_config] may be [None]. *)
Definition from_db_config {S} (database_config : option DBConfig.t)
    : M S ConnectionDetails.t :=
  try_except
    (match database_config with
     | None => raise AttributeError
     | Some cfg =>
         let* schema_used :=
           (if py_truthy (DBConfig.use_raw_schema_id cfg)
            then ret (DBConfig.schema_id cfg)
            else lift_exn (getSchemaFromSchemaId (DBConfig.schema_id cfg))) in
         ret (ConnectionDetails.mk
                (if py_truthy (DBConfig.use_redshift cfg)
                 then PStr "redshift" else PStr "postgresql")
                (PStr "pg8000")
                (DBConfig.host cfg) (DBConfig.port cfg) (DBConfig.database_name cfg)
                (DBConfig.username cfg) (DBConfig.password cfg) schema_used
                (DBConfig.disable_ssl cfg))
     end)
    (fun _ =>
       let* error_msg :=
         fmt_msg ("Failed to create ConnectionDetails for database_config = [%s]" +:+
                  String newline "Please verify environment variables")
           [PStr match database_config with
                 | None => "None"
                 | Some cfg => DBConfig.__repr__ cfg
                 end] in
       let* _ := log_to POSTGRES_UTILS ERROR error_msg in
       raise (Exception error_msg)).

(** ** TransactionManager *)

Module TransactionManager.

Record t := mk {
  _connection_details : ConnectionDetails.t;
  _waitable_connection : option (string * ref)
}.

(** The manager object and the registry it reaches. *)
Record World := mkWorld {
  self : t;
  POOLS : gmap string ConnectionPool.t
}.

Definition set_self (x : t) (w : World) : World := mkWorld x (POOLS w).
Definition set_POOLS (x : gmap string ConnectionPool.t) (w : World) : World :=
  mkWorld (self w) x.

Definition registry {B} (m : M (gmap string ConnectionPool.t) B) : M World B :=
  zoom POOLS set_POOLS m.

(** A method of the handle [self._waitable_connection]. *)
Definition waitable_connection {B} (m : ref → M ConnectionPool.t B) : M World B :=
  let* wc := gets (fun w => _waitable_connection (self w)) in
  match wc with
  | None => raise AttributeError
  | Some (key, r) => registry (ConnectionPool.pool key (m r))
  end.

Definition __enter__ : M World Connection :=
  let* details := gets (fun w => _connection_details (self w)) in
  let* wc := registry (ConnectionPool.get_pooled_connection details) in
  let* _ := modify (fun w => set_self (mk (_connection_details (self w)) wc) w) in
  match wc with
  | None =>
      raise (Exception "Failed to start transaction - could not get connection from pool")
  | Some _ =>
      let* connection :=
        try_except (waitable_connection start_transaction)
          (fun _ => raise (Exception "Failed to start transaction - could not")) in
      ret connection
  end.

Definition __exit__ (exc : option exn) : M World bool :=
  match exc with
  | Some _ =>
      let* _ := waitable_connection (fun r => rollback_transaction r None) in
      ret false
  | None =>
      let* _ := waitable_connection commit_transaction in
      ret true
  end.

Definition __init__ {S} (database_config : option DBConfig.t)
    (connection_details : option ConnectionDetails.t) : M S t :=
  match connection_details with
  | None =>
      let* d := from_db_config database_config in
      ret (mk d None)
  | Some d => ret (mk d None)
  end.

End TransactionManager.

(** ** Runs and observations used to state the properties *)

(** [n] calls of [cycle], one after the other: what they returned, in order. *)
Fixpoint cycles {A} (n : nat) : M (ConnectionCycle.t A) (list (option A)) :=
  match n with
  | O => ret []
  | S k =>
      let* x := ConnectionCycle.cycle in
      let* xs := cycles k in
      ret (x :: xs)
  end.

(** The calls a client makes on a pool and on its handles. *)
Inductive operation : Type :=
| GetConnection
| CreateConnection (lock : bool)
| RemoveConnection (r : ref)
| StartTransaction (r : ref)
| CommitTransaction (r : ref)
| RollbackTransaction (r : ref) (exc_val : option exn)
| CloseTransaction (r : ref).

Definition discard {S A} (m : M S A) : M S unit := let* _ := m in ret tt.

Definition perform (o : operation) : M ConnectionPool.t unit :=
  match o with
  | GetConnection => discard ConnectionPool.get_connection
  | CreateConnection lock => discard (ConnectionPool.create_connection false lock)
  | RemoveConnection r => discard (ConnectionPool.remove_connection r)
  | StartTransaction r => discard (start_transaction r)
  | CommitTransaction r => commit_transaction r
  | RollbackTransaction r exc_val => rollback_transaction r exc_val
  | CloseTransaction r => close_transaction r
  end.

(** A client running one call after the other, whatever each call's outcome
    (an exception is caught by the client, who carries on). *)
Fixpoint run (ops : list operation) (p : ConnectionPool.t) (e : Env)
    : ConnectionPool.t * Env :=
  match ops with
  | [] => (p, e)
  | o :: rest =>
      match perform o p e with
      | mkResult _ p' e' => run rest p' e'
      end
  end.

(** The size of the rotation of a pool. *)
Definition rotation_size (p : ConnectionPool.t) : Z :=
  ConnectionCycle.len (ConnectionPool._connection_cycle p).

(** The events a call added to the trace. *)
Definition emitted {S A} (m : M S A) (s : S) (e : Env) : list event :=
  drop (length (trace e)) (trace (env (m s e))).

(** The log line [commit_transaction] opens with, and the one
    [rollback_transaction] opens with (for the context [exc_val]). *)
Definition is_commit_line (ev : event) : bool :=
  match ev with
  | Log _ TRACE msg => String.eqb msg "committing transaction..."
  | _ => false
  end.

Fixpoint starts_with (pre s : string) : bool :=
  match pre with
  | EmptyString => true
  | String a pre' =>
      match s with
      | EmptyString => false
      | String b s' => Ascii.eqb a b && starts_with pre' s'
      end
  end.

Definition is_rollback_line (ev : event) : bool :=
  match ev with
  | Log _ ERROR msg => starts_with "rolling back transaction. Exception = [" msg
  | _ => false
  end.

Definition rollback_line_for (exc_val : option exn) (ev : event) : bool :=
  match ev with
  | Log _ ERROR msg =>
      String.eqb msg
        ("rolling back transaction. Exception = [" +:+ py_str (exc_val_text exc_val) +:+ "]")
  | _ => false
  end.

Definition count (f : event → bool) (evs : list event) : nat :=
  length (filter (fun ev => f ev = true) evs).

(** The rotation invariant of the specification: the cursor is a valid
    index into the list, or 0 when the list is empty. *)
Definition cursor_valid {A} (c : ConnectionCycle.t A) : Prop :=
  let v := AtomicInt._value (ConnectionCycle._pointer c) in
  if ConnectionCycle.len c =? 0 then v = 0 else 0 ≤ v < ConnectionCycle.len c.

(** A rotation at rest: no lock held. *)
Definition rotation_at {A} (l : list A) (cursor : Z) (pool : option string)
    : ConnectionCycle.t A :=
  ConnectionCycle.mk false l (AtomicInt.mk cursor false) pool.

(** ** Example states *)

(** Collaborators that always succeed; the text they produce is the number
    of the call. *)
Definition all_ok : nat → Answer := fun n => {| ok := true; text := "id" +:+ pretty n |}.

Definition quiet : Env := {| trace := []; oracle := all_ok |}.


Definition example_details : ConnectionDetails.t :=
  ConnectionDetails.mk (PStr "postgresql") (PStr "pg8000") (PStr "db.local")
    (PInt 5432) (PStr "app") (PStr "bob") (PStr "hunter2") (PStr "public")
    (PBool false).

Definition example_key : string := "CONNECTION_POOL - app.public".

(** An idle handle on an open connection. *)
Definition idle_handle (id : string) (n : nat) : WaitableConnection.t :=
  WaitableConnection.mk id (Some {| conn_no := n; closed := false |}) false None false.

(** A pool at rest with an engine, the handles [objects], all of them in
    the rotation in order, and the cursor at [cursor]. *)
Definition example_pool (max : Z) (objects : list WaitableConnection.t) (cursor : Z)
    : ConnectionPool.t :=
  ConnectionPool.mk (Some {| engine_no := 0 |}) example_details objects
    (rotation_at (seq 0 (length objects)) cursor (Some example_key))
    false max example_key.

(** ** The admission decision of [get_connection], as the specification
    words it *)

(** The handle object under the cursor of the rotation. *)
Definition cursor_handle (p : ConnectionPool.t) : option WaitableConnection.t :=
  match py_index (ConnectionCycle._items (ConnectionPool._connection_cycle p))
          (AtomicInt._value
             (ConnectionCycle._pointer (ConnectionPool._connection_cycle p))) with
  | Some r => ConnectionPool._connections p !! r
  | None => None
  end.

Definition cursor_busy (p : ConnectionPool.t) : bool :=
  match cursor_handle p with
  | Some h => WaitableConnection.in_use h
  | None => false
  end.

(** The rotation is empty, or it is below the maximum and the handle under
    the cursor is busy and the pool lock is free. *)
Definition wants_growth (p : ConnectionPool.t) : bool :=
  (rotation_size p =? 0)
  || ((rotation_size p <? ConnectionPool._max_pool_size p)
      && cursor_busy p && negb (ConnectionPool._lock p)).

(** [get_connection] when it asks for growth, and when it cycles. *)
Definition grow_path : M ConnectionPool.t (option ref) :=
  let* _ := ConnectionPool.log "getting connection..." TRACE in
  let* connection :=
    (let* v := ConnectionPool.create_connection false true in
     ret (match v with VHandle r => Some r | _ => None end)) in
  let* _ := ConnectionPool.log "returning connection." TRACE in
  ret connection.

Definition cycle_path : M ConnectionPool.t (option ref) :=
  let* _ := ConnectionPool.log "getting connection..." TRACE in
  let* connection := ConnectionPool.rotation ConnectionCycle.cycle in
  let* _ := ConnectionPool.log "returning connection." TRACE in
  ret connection.

(** The call made a handle, put it last in the rotation and returned it. *)
Definition creates_new_handle (p : ConnectionPool.t)
    (r : Result ConnectionPool.t (option ref)) : Prop :=
  let new := length (ConnectionPool._connections p) in
  out r = Returns (Some new) ∧
  length (ConnectionPool._connections (state r)) = S new ∧
  ConnectionCycle._items (ConnectionPool._connection_cycle (state r))
    = ConnectionCycle._items (ConnectionPool._connection_cycle p) ++ [new].

(** The pool has its engine and neither its lock nor the lock of the
    rotation's list is held. *)
Definition at_rest (p : ConnectionPool.t) : Prop :=
  is_Some (ConnectionPool._engine p) ∧
  ConnectionPool._lock p = false ∧
  ConnectionCycle._items_lock (ConnectionPool._connection_cycle p) = false.

(** The scenario of the specification: a pool made with max 2, initial 1. *)
Definition scenario_start : Result (gmap string ConnectionPool.t) string :=
  ConnectionPool.initialize example_details 2 1 ∅ quiet.

(** ** Handles in the store of their pool *)

(** The handle object behind [r], and the pool with that object replaced. *)
Definition get_handle (r : ref) (p : ConnectionPool.t) : option WaitableConnection.t :=
  ConnectionPool._connections p !! r.

Definition put_handle (r : ref) (h : WaitableConnection.t) (p : ConnectionPool.t)
    : ConnectionPool.t :=
  ConnectionPool.set_connections (<[r := h]> (ConnectionPool._connections p)) p.

(** IDLE in the specification is a handle with no open transaction, its
    lock free or held for a moment.  [idle] is such a handle at rest:
    moreover not marked busy, and its lock free. *)
Definition has_open_transaction (h : WaitableConnection.t) : bool :=
  match WaitableConnection._transaction h with
  | Some tx => is_active tx
  | None => false
  end.

Definition idle (h : WaitableConnection.t) : Prop :=
  WaitableConnection._in_use h = false ∧
  WaitableConnection._lock h = false ∧
  has_open_transaction h = false.

(** ** What a call adds to the trace *)

(** From [e] to [e'] the trace grew by events that satisfy [P]. *)
Definition adds (e e' : Env) (P : list event → Prop) : Prop :=
  ∃ evs, trace e' = trace e ++ evs ∧ P evs.

Definition no_commit_or_rollback (evs : list event) : Prop :=
  count is_commit_line evs = 0%nat ∧ count is_rollback_line evs = 0%nat.

(** What the wrapper did on the way out: for a block that ended normally,
    for one that raised (the rollback was given [context]), for one that
    never ended. *)
Definition on_exit {A} (block_outcome : outcome A) (context : exn → option exn)
    (evs : list event) : Prop :=
  match block_outcome with
  | Returns _ =>
      count is_commit_line evs = 1%nat ∧ count is_rollback_line evs = 0%nat
  | Raises x =>
      count is_commit_line evs = 0%nat ∧ count is_rollback_line evs = 1%nat ∧
      count (rollback_line_for (context x)) evs = 1%nat
  | Blocks => True
  end.

(** A block that does not itself commit or roll back. *)
Definition quiet_block {S X A} (block : X → M S A) : Prop :=
  ∀ x s e, adds e (env (block x s e)) no_commit_or_rollback.

(** The same under a [TransactionManager]: the block moreover leaves the
    manager object alone and every registered pool registered. *)
Definition quiet_managed_block {X A} (block : X → M TransactionManager.World A) : Prop :=
  ∀ x w e,
    adds e (env (block x w e)) no_commit_or_rollback ∧
    TransactionManager.self (state (block x w e)) = TransactionManager.self w ∧
    (∀ key, is_Some (TransactionManager.POOLS w !! key) →
            is_Some (TransactionManager.POOLS (state (block x w e)) !! key)).

(** The handle [r] of pool [p] holds an open transaction on connection
    [c], begun by the call at position [n] of the trace, at or after
    position [since]. *)
Definition transaction_begun (r : ref) (c : Connection) (p : ConnectionPool.t)
    (since : nat) (tr : list event) : Prop :=
  ∃ h n,
    get_handle r p = Some h ∧
    WaitableConnection._transaction h
      = Some {| tx_no := n; tx_conn := conn_no c; is_active := true |} ∧
    (since ≤ n)%nat ∧ tr !! n = Some (Ext (Begin (conn_no c))).

(** A manager that has not been entered, and the registry of the scenario:
    the pool of [example_details] is registered. *)
Definition example_world : TransactionManager.World :=
  TransactionManager.mkWorld (TransactionManager.mk example_details None)
    (state scenario_start).

(** A block that fails. *)
Definition failing_block {S X} (x : X) : M S unit := raise (Exception "boom").

(** Two connection details that agree on every attribute but the password. *)
Definition differ_only_in_password (d1 d2 : ConnectionDetails.t) : Prop :=
  ConnectionDetails.dialect d1 = ConnectionDetails.dialect d2 ∧
  ConnectionDetails.driver d1 = ConnectionDetails.driver d2 ∧
  ConnectionDetails.host d1 = ConnectionDetails.host d2 ∧
  ConnectionDetails.port d1 = ConnectionDetails.port d2 ∧
  ConnectionDetails.database d1 = ConnectionDetails.database d2 ∧
  ConnectionDetails.user d1 = ConnectionDetails.user d2 ∧
  ConnectionDetails.schema d1 = ConnectionDetails.schema d2 ∧
  ConnectionDetails.disable_ssl d1 = ConnectionDetails.disable_ssl d2.

(** [example_details] with another password. *)
Definition other_password : ConnectionDetails.t :=
  ConnectionDetails.mk (PStr "postgresql") (PStr "pg8000") (PStr "db.local")
    (PInt 5432) (PStr "app") (PStr "bob") (PStr "correct horse") (PStr "public")
    (PBool false).

(** ** ThreadSafeList ([thread_safe_list.py]), for integer indices *)

Module ThreadSafeList.

Record t (A : Type) := mk { _write_lock : bool; _list : list A }.
Arguments mk {A} _ _.
Arguments _write_lock {A} _.
Arguments _list {A} _.

Section Methods.
Context {A : Type}.

Definition set_write_lock (b : bool) (l : t A) : t A := mk b (_list l).
Definition set_list (x : list A) (l : t A) : t A := mk (_write_lock l) x.

Definition __init__ (init : option (list A)) : t A :=
  match init with
  | Some l => mk false l
  | None => mk false []
  end.

Definition __delitem__ (ii : Z) : M (t A) unit :=
  with_lock _write_lock set_write_lock
    (let* l := gets _list in
     match py_del l ii with
     | Some l' => modify (set_list l')
     | None => raise IndexError
     end).

Definition __setitem__ (ii : Z) (val : A) : M (t A) unit :=
  with_lock _write_lock set_write_lock
    (let* l := gets _list in
     match py_set l ii val with
     | Some l' => modify (set_list l')
     | None => raise IndexError
     end).

Definition insert (ii : Z) (val : A) : M (t A) unit :=
  with_lock _write_lock set_write_lock
    (modify (fun l => set_list (py_insert (_list l) ii val) l)).

Definition append (val : A) : M (t A) unit :=
  let* n := gets (fun l => Z.of_nat (length (_list l))) in
  insert n val.

Definition clear : M (t A) (list A) :=
  with_lock _write_lock set_write_lock
    (let* _items := gets _list in
     let* _ := modify (set_list []) in
     ret _items).

Definition __len__ : M (t A) Z := gets (fun l => Z.of_nat (length (_list l))).

Definition __getitem__ (ii : Z) : M (t A) A :=
  let* l := gets _list in
  match py_index l ii with
  | Some x => ret x
  | None => raise IndexError
  end.

End Methods.

End ThreadSafeList.

(** ** ThreadSafeCache ([thread_safe_cache.py])

    The dictionary is a finite map; [values], [keys] and [items], which
    show its insertion order, are left out. *)

Module ThreadSafeCache.

Section Methods.
Context `{Countable K} {V : Type}.

Record t := mk { _cache : gmap K V; _write_lock : bool }.

Definition set_cache (m : gmap K V) (c : t) : t := mk m (_write_lock c).
Definition set_write_lock (b : bool) (c : t) : t := mk (_cache c) b.

Definition __init__ (init : option (gmap K V)) : t :=
  match init with
  | Some m => mk (m ∪ ∅) false
  | None => mk ∅ false
  end.

Definition __getitem__ (key : K) : M t V :=
  let* m := gets _cache in
  match m !! key with
  | Some v => ret v
  | None => raise KeyError
  end.

Definition __setitem__ (key : K) (value : V) : M t unit :=
  with_lock _write_lock set_write_lock
    (modify (fun c => set_cache (<[key := value]> (_cache c)) c)).

Definition __delitem__ (key : K) : M t unit :=
  with_lock _write_lock set_write_lock
    (let* m := gets _cache in
     match m !! key with
     | Some _ => modify (set_cache (delete key m))
     | None => raise KeyError
     end).

Definition __contains__ (key : K) : M t bool :=
  gets (fun c => bool_decide (is_Some (_cache c !! key))).

Definition __len__ : M t Z := gets (fun c => Z.of_nat (size (_cache c))).

End Methods.

Arguments t K {_ _} V.

End ThreadSafeCache.

(** ** [initialize_logger] of [connection_pool.py]

    The state is the module's flag [LOGGER_INITIALIZED]. *)
Definition initialize_logger : M bool unit :=
  let* LOGGER_INITIALIZED := gets (fun b : bool => b) in
  if LOGGER_INITIALIZED then ret tt
  else
    let* enable_trace_logging :=
      load_environment_variable "ENABLE_CONNECTION_POOL_TRACE_LOGGING" (PStr "False") in
    let* _ := ask (CreateLogger LOGGER_KEY
                (if String.eqb (py_lower (py_str enable_trace_logging)) "true"
                 then TRACE else INFO)) in
    modify (fun _ => true).

(** ** The connection list of [postgresutils.py]

    [CONNECTION_POOL] holds pairs of connection details and a connection,
    or [None].  Whether a connection is in a transaction is SQLAlchemy's to
    say: [in_transaction] gives its answer for each connection. *)

Section LegacyPool.
Context (in_transaction : Connection → bool).

Abbreviation CONNECTION_POOL := (list (option (ConnectionDetails.t * Connection))).




End LegacyPool.





(** ** Locks and handle objects of a pool

    [steady a b c n p]: the pool lock, the list lock of the rotation and
    the lock of its cursor are [a], [b] and [c] (held or free), and the
    pool has at least [n] handle objects. *)
Definition steady (a b c : bool) (n : nat) (p : ConnectionPool.t) : Prop :=
  ConnectionPool._lock p = a ∧
  ConnectionCycle._items_lock (ConnectionPool._connection_cycle p) = b ∧
  AtomicInt._lock (ConnectionCycle._pointer (ConnectionPool._connection_cycle p)) = c ∧
  (n ≤ length (ConnectionPool._connections p))%nat.

Definition locks_free (p : ConnectionPool.t) : Prop := steady false false false 0 p.

(** A pool of [connection_details] with maximum [max], its engine made,
    its locks free, that holds exactly the handles [0 .. k-1], all of them
    in the rotation, in order. *)
Definition filled (connection_details : ConnectionDetails.t) (max : Z) (k : nat)
    (p : ConnectionPool.t) : Prop :=
  is_Some (ConnectionPool._engine p) ∧
  ConnectionPool._connection_details p = connection_details ∧
  ConnectionPool._max_pool_size p = max ∧
  locks_free p ∧
  length (ConnectionPool._connections p) = k ∧
  ConnectionCycle._items (ConnectionPool._connection_cycle p) = seq 0 k.

(** The number of handles after one more [create_connection()], and after
    [n] of them. *)
Definition grown (max : Z) (k : nat) : nat := if Z.of_nat k <? max then S k else k.

Fixpoint grown_by (max : Z) (n k : nat) : nat :=
  match n with
  | O => k
  | S n' => grown_by max n' (grown max k)
  end.

(** Two configurations that agree on everything but the password. *)
Definition configs_differ_only_in_password (c1 c2 : DBConfig.t) : Prop :=
  DBConfig.host c1 = DBConfig.host c2 ∧
  DBConfig.port c1 = DBConfig.port c2 ∧
  DBConfig.database_name c1 = DBConfig.database_name c2 ∧
  DBConfig.username c1 = DBConfig.username c2 ∧
  DBConfig.schema_id c1 = DBConfig.schema_id c2 ∧
  DBConfig.use_raw_schema_id c1 = DBConfig.use_raw_schema_id c2 ∧
  DBConfig.use_redshift c1 = DBConfig.use_redshift c2 ∧
  DBConfig.disable_ssl c1 = DBConfig.disable_ssl c2.

(** The schema of a configuration can be used: it is taken as it is, or
    it is a string. *)
Definition schema_usable (cfg : DBConfig.t) : bool :=
  py_truthy (DBConfig.use_raw_schema_id cfg)
  || match DBConfig.schema_id cfg with PStr _ => true | _ => false end.

Definition example_config : DBConfig.t :=
  DBConfig.mk (PStr "db.local") (PInt 5432) (PStr "app") (PStr "bob") (PStr "hunter2")
    (PStr "tenant-4f-a1") (PBool false) (PBool false) (PBool false).

(** The pool respects a bound: its maximum is [M] and its rotation holds
    at most [B] handles. *)
Definition bounded (M B : Z) (p : ConnectionPool.t) : Prop :=
  ConnectionPool._max_pool_size p = M ∧ rotation_size p ≤ B.

(** ** Reasoning about methods

    [wp m Q E B s e]: run from state [s] and environment [e], the method
    [m] ends in [Q] when it returns, in [E] when it raises and in [B] when
    it waits for a lock.  [preserves P m]: whatever its outcome, [m] keeps
    the property [P] of the state. *)

Definition wp {S A} (m : M S A) (Q : A → S → Env → Prop)
    (E : exn → S → Env → Prop) (B : S → Env → Prop) (s : S) (e : Env) : Prop :=
  match m s e with
  | mkResult (Returns a) s' e' => Q a s' e'
  | mkResult (Raises x) s' e' => E x s' e'
  | mkResult Blocks s' e' => B s' e'
  end.

Definition preserves {S A} (P : S → Prop) (m : M S A) : Prop :=
  ∀ s e, P s → P (state (m s e)).

(** [grows m]: [m] only adds to the trace. *)
Definition grows {S A} (m : M S A) : Prop :=
  ∀ s e, (length (trace e) ≤ length (trace (env (m s e))))%nat.

(** [calm P m]: from a state in [P] the method [m] returns or raises, it
    does not wait, and it ends in [P]. *)
Definition calm {S A} (P : S → Prop) (m : M S A) : Prop :=
  ∀ s e, P s → P (state (m s e)) ∧ out (m s e) ≠ Blocks.

(** A method of the rotation that waits for nothing and frees the locks it
    takes. *)
Definition rotation_calm {A B} (m : M (ConnectionCycle.t A) B) : Prop :=
  calm (fun c => ConnectionCycle._items_lock c = false ∧
                 AtomicInt._lock (ConnectionCycle._pointer c) = false) m.

(** * Properties *)

Ltac munfold :=
  unfold discard, with_lock, locked, acquire, release, try_finally, try_except,
    fmt_msg, lift_exn, log_to, ask, tick, modify, gets, zoom, bind, ret, raise.

Ltac msimpl := repeat (progress (munfold; cbn -[py_index py_del pretty])).

(** ** Rules for [wp] *)

Section WP.
Context {S : Type}.
Implicit Types (s : S) (e : Env).

Lemma wp_ret {A} (a : A) Q E B s e : Q a s e → wp (ret a) Q E B s e.
Proof. done. Qed.

Lemma wp_raise {A} x (Q : A → S → Env → Prop) E B s e :
  E x s e → wp (raise x) Q E B s e.
Proof. done. Qed.

Lemma wp_gets {A} (f : S → A) Q E B s e : Q (f s) s e → wp (gets f) Q E B s e.
Proof. done. Qed.

Lemma wp_modify (f : S → S) Q E B s e : Q tt (f s) e → wp (modify f) Q E B s e.
Proof. done. Qed.

Lemma wp_ask c Q E B s e :
  Q (oracle e (length (trace e))) s (emit (Ext c) e) → wp (ask c) Q E B s e.
Proof. done. Qed.

Lemma wp_tick Q E B s e : Q (length (trace e)) s e → wp tick Q E B s e.
Proof. done. Qed.

Lemma wp_log_to key lvl msg Q E B s e :
  Q tt s (emit (Log key lvl msg) e) → wp (log_to key lvl msg) Q E B s e.
Proof. done. Qed.

Lemma wp_lift_exn {A} (x : exn + A) Q E B s e :
  match x with inr a => Q a s e | inl err => E err s e end →
  wp (lift_exn x) Q E B s e.
Proof. by destruct x. Qed.

Lemma wp_fmt_msg fmt args Q E B s e :
  match py_format fmt args with inr a => Q a s e | inl err => E err s e end →
  wp (fmt_msg fmt args) Q E B s e.
Proof. unfold fmt_msg. by destruct (py_format fmt args). Qed.

Lemma wp_bind {A C} (m : M S A) (f : A → M S C) Q E B s e :
  wp m (fun a => wp (f a) Q E B) E B s e → wp (bind m f) Q E B s e.
Proof. unfold wp, bind. by destruct (m s e) as [[a|x|] s' e']. Qed.

Lemma wp_try_except {A} (m : M S A) (h : exn → M S A) Q E B s e :
  wp m Q (fun x => wp (h x) Q E B) B s e → wp (try_except m h) Q E B s e.
Proof. unfold wp, try_except. by destruct (m s e) as [[a|x|] s' e']. Qed.

Lemma wp_try_finally {A} (m : M S A) (f : M S unit) Q E B s e :
  wp m (fun a => wp f (fun _ => Q a) E B) (fun x => wp f (fun _ => E x) E B) B s e →
  wp (try_finally m f) Q E B s e.
Proof.
  unfold wp, try_finally. destruct (m s e) as [[a|x|] s' e']; [| |done];
    by destruct (f s' e') as [[[]|y|] s'' e''].
Qed.

Lemma wp_acquire (held : S → bool) (set_held : bool → S → S) Q E B s e :
  (if held s then B s e else Q tt (set_held true s) e) →
  wp (acquire held set_held) Q E B s e.
Proof. unfold wp, acquire. by destruct (held s). Qed.

Lemma wp_release (held : S → bool) (set_held : bool → S → S) Q E B s e :
  (if held s then Q tt (set_held false s) e
   else E (RuntimeError "release unlocked lock") s e) →
  wp (release held set_held) Q E B s e.
Proof. unfold wp, release. by destruct (held s). Qed.

Lemma wp_zoom {T A} (get : S → T) (set : T → S → S) (m : M T A) Q E B s e :
  wp m (fun a t' => Q a (set t' s)) (fun x t' => E x (set t' s))
       (fun t' => B (set t' s)) (get s) e →
  wp (zoom get set m) Q E B s e.
Proof. unfold wp, zoom. by destruct (m (get s) e) as [[a|x|] t' e']. Qed.

(** A property of the state holds after the call, whatever the outcome. *)
Lemma wp_elim {A} (m : M S A) (P : S → Prop) s e :
  wp m (fun _ s' _ => P s') (fun _ s' _ => P s') (fun s' _ => P s') s e →
  P (state (m s e)).
Proof. unfold wp. by destruct (m s e) as [[a|x|] s' e']. Qed.

(** A property of the value a call returns. *)
Lemma wp_out {A} (m : M S A) (P : A → Prop) s e :
  wp m (fun a _ _ => P a) (fun _ _ _ => True) (fun _ _ => True) s e →
  ∀ a, out (m s e) = Returns a → P a.
Proof.
  unfold wp. destruct (m s e) as [[a|x|] s' e']; cbn; intros H b Hb; by simplify_eq.
Qed.

(** The result of a call, read off [wp]. *)
Lemma wp_result {A} (m : M S A) (r : Result S A) s e :
  wp m (fun a s' e' => r = mkResult (Returns a) s' e')
       (fun x s' e' => r = mkResult (Raises x) s' e')
       (fun s' e' => r = mkResult Blocks s' e') s e →
  m s e = r.
Proof. unfold wp. by destruct (m s e) as [[a|x|] s' e']. Qed.

End WP.

Lemma wp_item {A} (i : Z) Q E B (c : ConnectionCycle.t A) e :
  match py_index (ConnectionCycle._items c) i with
  | Some x => Q x c e
  | None => E IndexError c e
  end →
  wp (ConnectionCycle.item i) Q E B c e.
Proof. unfold wp, ConnectionCycle.item. by destruct (py_index _ _). Qed.

Lemma wp_del_item {A} (i : Z) Q E B (c : ConnectionCycle.t A) e :
  match py_del (ConnectionCycle._items c) i with
  | Some l => Q tt (ConnectionCycle.set_items l c) e
  | None => E IndexError c e
  end →
  wp (ConnectionCycle.del_item i) Q E B c e.
Proof. unfold wp, ConnectionCycle.del_item. by destruct (py_del _ _). Qed.

Lemma wp_handle {A} (r : ref) (m : M WaitableConnection.t A) Q E B p e :
  match ConnectionPool._connections p !! r with
  | Some h =>
      wp m (fun a h' => Q a (ConnectionPool.set_connections
                               (<[r := h']> (ConnectionPool._connections p)) p))
           (fun x h' => E x (ConnectionPool.set_connections
                               (<[r := h']> (ConnectionPool._connections p)) p))
           (fun h' => B (ConnectionPool.set_connections
                           (<[r := h']> (ConnectionPool._connections p)) p)) h e
  | None => E AttributeError p e
  end →
  wp (ConnectionPool.handle r m) Q E B p e.
Proof.
  unfold wp, ConnectionPool.handle.
  destruct (ConnectionPool._connections p !! r) as [h|]; [|done].
  by destruct (m h e) as [[a|x|] h' e'].
Qed.

Create Rewrite HintDb pyfmt.

Ltac wp_simpl :=
  cbv beta;
  cbn [out state env
       AtomicInt._value AtomicInt._lock AtomicInt.set_value AtomicInt.set_lock
       ConnectionCycle._items_lock ConnectionCycle._items ConnectionCycle._pointer
       ConnectionCycle._pool ConnectionCycle.set_items_lock ConnectionCycle.set_items
       ConnectionCycle.set_pointer ConnectionCycle.len
       WaitableConnection._id WaitableConnection._connection WaitableConnection._lock
       WaitableConnection._transaction WaitableConnection._in_use
       WaitableConnection.set_connection WaitableConnection.set_lock
       WaitableConnection.set_transaction WaitableConnection.set_in_use
       WaitableConnection.in_use
       ConnectionPool._engine ConnectionPool._connection_details
       ConnectionPool._connections ConnectionPool._connection_cycle
       ConnectionPool._lock ConnectionPool._max_pool_size ConnectionPool.logger_key
       ConnectionPool.set_engine ConnectionPool.set_connections
       ConnectionPool.set_connection_cycle ConnectionPool.set_lock] in *;
  unfold ConnectionCycle.len in *.

Ltac unfold_head m :=
  let h := lazymatch m with
           | ?f _ _ _ _ _ => f | ?f _ _ _ _ => f | ?f _ _ _ => f
           | ?f _ _ => f | ?f _ => f | ?f => f end in
  unfold h.

Ltac wp_step :=
  lazymatch goal with
  | |- wp (bind _ _) _ _ _ _ _ => apply wp_bind
  | |- wp (ret _) _ _ _ _ _ => apply wp_ret
  | |- wp (raise _) _ _ _ _ _ => apply wp_raise
  | |- wp (gets _) _ _ _ _ _ => apply wp_gets
  | |- wp (modify _) _ _ _ _ _ => apply wp_modify
  | |- wp (ask _) _ _ _ _ _ => apply wp_ask
  | |- wp tick _ _ _ _ _ => apply wp_tick
  | |- wp (log_to _ _ _) _ _ _ _ _ => apply wp_log_to
  | |- wp (lift_exn _) _ _ _ _ _ => apply wp_lift_exn
  | |- wp (fmt_msg _ _) _ _ _ _ _ =>
      apply wp_fmt_msg;
      first [ progress autorewrite with pyfmt | destruct (py_format _ _) eqn:? ]
  | |- wp (try_except _ _) _ _ _ _ _ => apply wp_try_except
  | |- wp (try_finally _ _) _ _ _ _ _ => apply wp_try_finally
  | |- wp (acquire _ _) _ _ _ _ _ => apply wp_acquire
  | |- wp (release _ _) _ _ _ _ _ => apply wp_release
  | |- wp (zoom _ _ _) _ _ _ _ _ => apply wp_zoom
  | |- wp (ConnectionPool.handle _ _) _ _ _ _ _ => apply wp_handle
  | |- wp (ConnectionCycle.item _) _ _ _ _ _ => apply wp_item
  | |- wp (ConnectionCycle.del_item _) _ _ _ _ _ => apply wp_del_item
  | |- wp (if ?b then _ else _) _ _ _ _ _ => destruct b eqn:?
  | |- wp (match ?x with _ => _ end) _ _ _ _ _ => destruct x eqn:?
  | |- match ?x with _ => _ end => destruct x eqn:?
  | |- if ?b then _ else _ => destruct b eqn:?
  | |- wp ?m _ _ _ _ _ => unfold_head m
  end; wp_simpl.

Ltac wp_go := repeat wp_step.

(** The same, dropping at once the branches that [prune] refutes. *)
Tactic Notation "wp_go" "with" tactic3(prune) :=
  repeat (wp_step; try (solve [prune])).

Ltac env_simpl := cbn [oracle trace emit] in *.

(** Comparisons of integers, from their boolean form. *)
Ltac bool_to_Z :=
  repeat match goal with
         | H : (_ >=? _) = true |- _ => rewrite Z.geb_leb, Z.leb_le in H
         | H : (_ >=? _) = false |- _ => rewrite Z.geb_leb, Z.leb_gt in H
         | H : (_ >? _) = true |- _ => rewrite Z.gtb_ltb, Z.ltb_lt in H
         | H : (_ >? _) = false |- _ => rewrite Z.gtb_ltb, Z.ltb_ge in H
         | H : (_ <? _) = true |- _ => rewrite Z.ltb_lt in H
         | H : (_ <? _) = false |- _ => rewrite Z.ltb_ge in H
         | H : (_ <=? _) = true |- _ => rewrite Z.leb_le in H
         | H : (_ <=? _) = false |- _ => rewrite Z.leb_gt in H
         | H : (_ =? _) = true |- _ => rewrite Z.eqb_eq in H
         | H : (_ =? _) = false |- _ => rewrite Z.eqb_neq in H
         end.

(** ** Rules for [preserves] *)

Section Preserves.
Context {S : Type} (P : S → Prop).

Lemma preserves_ret {A} (a : A) : preserves P (ret a).
Proof. by intros s e. Qed.

Lemma preserves_raise {A} x : preserves P (raise (A:=A) x).
Proof. by intros s e. Qed.

Lemma preserves_gets {A} (f : S → A) : preserves P (gets f).
Proof. by intros s e. Qed.

Lemma preserves_ask c : preserves P (ask c).
Proof. by intros s e. Qed.

Lemma preserves_tick : preserves P tick.
Proof. by intros s e. Qed.

Lemma preserves_log_to key lvl msg : preserves P (log_to key lvl msg).
Proof. by intros s e. Qed.

Lemma preserves_lift_exn {A} (x : exn + A) : preserves P (lift_exn x).
Proof. by destruct x; intros ? ?. Qed.

Lemma preserves_fmt_msg fmt args : preserves P (fmt_msg fmt args).
Proof. unfold fmt_msg. by destruct (py_format fmt args); intros ? ?. Qed.

Lemma preserves_modify (f : S → S) : (∀ s, P s → P (f s)) → preserves P (modify f).
Proof. intros H s e. apply H. Qed.

Lemma preserves_bind {A C} (m : M S A) (f : A → M S C) :
  preserves P m → (∀ a, preserves P (f a)) → preserves P (bind m f).
Proof.
  intros Hm Hf s e Hs. specialize (Hm s e Hs). unfold bind.
  destruct (m s e) as [[a|x|] s' e']; cbn in *; [by apply Hf|done..].
Qed.

Lemma preserves_try_except {A} (m : M S A) (h : exn → M S A) :
  preserves P m → (∀ x, preserves P (h x)) → preserves P (try_except m h).
Proof.
  intros Hm Hh s e Hs. specialize (Hm s e Hs). unfold try_except.
  destruct (m s e) as [[a|x|] s' e']; cbn in *; [done|by apply Hh|done].
Qed.

Lemma preserves_try_finally {A} (m : M S A) (f : M S unit) :
  preserves P m → preserves P f → preserves P (try_finally m f).
Proof.
  intros Hm Hf s e Hs. specialize (Hm s e Hs). unfold try_finally.
  destruct (m s e) as [[a|x|] s' e']; cbn in *; [| |done];
    specialize (Hf s' e' Hm); by destruct (f s' e') as [[[]|y|] s'' e''].
Qed.

Lemma preserves_acquire (held : S → bool) (set_held : bool → S → S) :
  (∀ b s, P s → P (set_held b s)) → preserves P (acquire held set_held).
Proof. intros H s e Hs. unfold acquire. destruct (held s); cbn; auto. Qed.

Lemma preserves_release (held : S → bool) (set_held : bool → S → S) :
  (∀ b s, P s → P (set_held b s)) → preserves P (release held set_held).
Proof. intros H s e Hs. unfold release. destruct (held s); cbn; auto. Qed.

Lemma preserves_with_lock {A} (held : S → bool) (set_held : bool → S → S)
    (body : M S A) :
  (∀ b s, P s → P (set_held b s)) → preserves P body →
  preserves P (with_lock held set_held body).
Proof.
  intros H Hb. unfold with_lock. apply preserves_bind.
  - by apply preserves_acquire.
  - intros _. apply preserves_try_finally; [done|by apply preserves_release].
Qed.

End Preserves.

(** ** The bounded rotating counter *)

Lemma next_unlocked (v ceiling : Z) (e : Env) :
  AtomicInt.next ceiling (AtomicInt.mk v false) e =
  mkResult (Returns v)
    (AtomicInt.mk (if v + 1 >? ceiling then 0 else v + 1) false) e.
Proof.
  unfold AtomicInt.next. msimpl. destruct (v + 1 >? ceiling); reflexivity.
Qed.

(** C6.  [next(ceiling)] on a counter whose lock is free returns the stored
    value and leaves 0 stored when [current + 1 > ceiling], the value plus
    one otherwise; from 0 with ceiling 2, three calls return 0, 1, 2 and
    leave 1, 2, 0. *)
Theorem next_returns_current_then_advances :
  (∀ (v ceiling : Z) (e : Env),
     let r := AtomicInt.next ceiling (AtomicInt.mk v false) e in
     out r = Returns v ∧
     AtomicInt._value (state r) = (if v + 1 >? ceiling then 0 else v + 1) ∧
     AtomicInt._lock (state r) = false ∧
     env r = e) ∧
  (∀ e : Env,
     let r1 := AtomicInt.next 2 (AtomicInt.__init__ 0) e in
     let r2 := AtomicInt.next 2 (state r1) (env r1) in
     let r3 := AtomicInt.next 2 (state r2) (env r2) in
     (out r1, AtomicInt._value (state r1)) = (Returns 0, 1) ∧
     (out r2, AtomicInt._value (state r2)) = (Returns 1, 2) ∧
     (out r3, AtomicInt._value (state r3)) = (Returns 2, 0)).
Proof.
  split.
  - intros v ceiling e. cbn zeta. rewrite next_unlocked. cbn. auto.
  - intros e. cbn. auto.
Qed.

(** ** The rotation *)

Section Rotation.
Context {A : Type}.
Implicit Types (l : list A) (pool : option string) (e : Env).

Lemma py_index_nat l (i : nat) x :
  l !! i = Some x → py_index l (Z.of_nat i) = Some x.
Proof.
  intros H. unfold py_index. pose proof (lookup_lt_Some _ _ _ H).
  replace (0 <=? Z.of_nat i) with true by (symmetry; apply Z.leb_le; lia).
  replace (Z.of_nat i <? Z.of_nat (length l)) with true
    by (symmetry; apply Z.ltb_lt; lia).
  cbn. by rewrite Nat2Z.id.
Qed.

Lemma py_del_nat l (i : nat) :
  (i < length l)%nat → py_del l (Z.of_nat i) = Some (delete i l).
Proof.
  intros H. unfold py_del.
  replace (0 <=? Z.of_nat i) with true by (symmetry; apply Z.leb_le; lia).
  replace (Z.of_nat i <? Z.of_nat (length l)) with true
    by (symmetry; apply Z.ltb_lt; lia).
  cbn. by rewrite Nat2Z.id.
Qed.

(** [l[-1]] is the last entry. *)
Lemma py_index_minus_one l x : last l = Some x → py_index l (-1) = Some x.
Proof.
  intros H. unfold py_index.
  assert (length l ≠ 0%nat) by (destruct l; [discriminate | cbn; lia]).
  replace (- Z.of_nat (length l) <=? -1) with true
    by (symmetry; apply Z.leb_le; lia).
  cbn. rewrite last_lookup in H.
  replace (Z.to_nat (Z.of_nat (length l) + -1)) with (pred (length l)) by lia.
  done.
Qed.

(** *** [cycle] *)

Lemma cycle_empty lk ptr pool e :
  ConnectionCycle.cycle (ConnectionCycle.mk (A:=A) lk [] ptr pool) e =
  mkResult (Returns None) (ConnectionCycle.mk lk [] ptr pool) e.
Proof. reflexivity. Qed.

(** One call at a valid cursor: the entry under the cursor comes back and
    the cursor moves on, back to 0 after the last index. *)
Lemma cycle_step l (i : nat) x pool e :
  l !! i = Some x →
  ∃ e',
    ConnectionCycle.cycle (rotation_at l (Z.of_nat i) pool) e =
    mkResult (Returns (Some x))
      (rotation_at l
         (if Z.of_nat i + 1 >? Z.of_nat (length l) - 1 then 0 else Z.of_nat i + 1)
         pool) e'.
Proof.
  intros H. pose proof (lookup_lt_Some _ _ _ H) as Hlt.
  unfold rotation_at, ConnectionCycle.cycle, ConnectionCycle._cycle,
    ConnectionCycle.pointer, ConnectionCycle.item, ConnectionCycle.log,
    AtomicInt.next, AtomicInt.get, ConnectionCycle.len.
  destruct pool; msimpl;
    (destruct (Z.of_nat (length l) =? 0) eqn:E; [apply Z.eqb_eq in E; lia|]);
    msimpl;
    destruct (Z.of_nat i + 1 >? Z.of_nat (length l) - 1) eqn:E2; msimpl;
    rewrite (py_index_nat _ _ _ H); eexists; reflexivity.
Qed.

(** One call on a non-empty rotation at rest, whatever the cursor. *)
Lemma cycle_at l (v : Z) pool e :
  l ≠ [] →
  let key := match pool with Some k => k | None => LOGGER_KEY end in
  let v' := if v + 1 >? Z.of_nat (length l) - 1 then 0 else v + 1 in
  let e1 := emit (Log key TRACE ("cycling connections, current_pointer = [" +:+ pretty v +:+ "]...")) e in
  ConnectionCycle.cycle (rotation_at l v pool) e =
  match py_index l v with
  | Some x =>
      mkResult (Returns (Some x)) (rotation_at l v' pool)
        (emit (Log key TRACE
                 ("connections cycled, current_pointer = [" +:+ pretty v' +:+ "]...")) e1)
  | None => mkResult (Raises IndexError) (rotation_at l v' pool) e1
  end.
Proof.
  intros Hl. cbn zeta.
  assert (Hn : (Z.of_nat (length l) =? 0) = false).
  { apply Z.eqb_neq. destruct l; [done|cbn; lia]. }
  unfold rotation_at, ConnectionCycle.cycle, ConnectionCycle._cycle, ConnectionCycle.pointer,
    ConnectionCycle.item, ConnectionCycle.log, AtomicInt.get, AtomicInt.next,
    ConnectionCycle.len.
  destruct pool; msimpl; rewrite Hn; msimpl;
    destruct (v + 1 >? Z.of_nat (length l) - 1); msimpl;
    destruct (py_index l v); reflexivity.
Qed.

(** A cursor from -1 up to the last index finds an entry: Python reads
    index -1 as the last one. *)
Lemma py_index_in_range l (v : Z) :
  l ≠ [] → -1 ≤ v < Z.of_nat (length l) → is_Some (py_index l v).
Proof.
  intros Hl Hv. unfold py_index.
  assert (0 < Z.of_nat (length l)) by (destruct l; [done|cbn; lia]).
  destruct (Z.leb_spec 0 v); cbn [andb].
  - replace (v <? Z.of_nat (length l)) with true by (symmetry; apply Z.ltb_lt; lia).
    apply lookup_lt_is_Some_2. lia.
  - replace (- Z.of_nat (length l) <=? v) with true by (symmetry; apply Z.leb_le; lia).
    replace (v <? 0) with true by (symmetry; apply Z.ltb_lt; lia).
    cbn [andb]. apply lookup_lt_is_Some_2. lia.
Qed.

Lemma advance_mod (i K : nat) :
  (i < K)%nat →
  (if Z.of_nat i + 1 >? Z.of_nat K - 1 then 0 else Z.of_nat i + 1)
  = Z.of_nat ((i + 1) mod K).
Proof.
  intros H. destruct (Z.gtb_spec (Z.of_nat i + 1) (Z.of_nat K - 1)).
  - replace (i + 1)%nat with K by lia. rewrite Nat.Div0.mod_same. done.
  - rewrite Nat.mod_small by lia. lia.
Qed.

(** [n] calls from cursor [i] return the entries at [i], [i+1], ... taken
    modulo the size, and leave the cursor at [(i + n) mod size]. *)
Lemma cycles_from l pool (n i : nat) e :
  (i < length l)%nat →
  out (cycles n (rotation_at l (Z.of_nat i) pool) e)
    = Returns (map (fun j => l !! ((i + j) mod length l)%nat) (seq 0 n)) ∧
  state (cycles n (rotation_at l (Z.of_nat i) pool) e)
    = rotation_at l (Z.of_nat ((i + n) mod length l)) pool.
Proof.
  revert i e. induction n as [|n IH]; intros i e Hi.
  - cbn. rewrite Nat.add_0_r, Nat.mod_small by done. done.
  - destruct (lookup_lt_is_Some_2 l i Hi) as [x Hx].
    destruct (cycle_step l i x pool e Hx) as [e' Hstep].
    cbn [cycles]. unfold bind. rewrite Hstep.
    rewrite advance_mod by done.
    assert (Hlt : ((i + 1) mod length l < length l)%nat)
      by (apply Nat.mod_upper_bound; lia).
    destruct (IH ((i + 1) mod length l)%nat e' Hlt) as [Ho Hs].
    destruct (cycles n _ e') as [o s' e'']. cbn in Ho, Hs. subst o s'.
    cbn [out state ret]. split.
    + f_equal. cbn [seq map]. rewrite Nat.add_0_r, (Nat.mod_small i) by done.
      rewrite Hx. f_equal. rewrite <- seq_shift, map_map.
      apply map_ext. intros j. f_equal.
      rewrite Nat.Div0.add_mod_idemp_l. f_equal. lia.
    + rewrite Nat.Div0.add_mod_idemp_l.
      by replace (i + 1 + n)%nat with (i + S n)%nat by lia.
Qed.

Lemma lookups_once_round l (i : nat) :
  (i < length l)%nat →
  (fun j => l !! ((i + j) mod length l)%nat) <$> seq 0 (length l)
  = Some <$> (drop i l ++ take i l).
Proof.
  intros Hi. apply list_eq. intros k.
  rewrite !list_lookup_fmap.
  destruct (decide (k < length l)%nat) as [Hk|Hk].
  - rewrite lookup_seq_lt by done. cbn.
    destruct (decide (i + k < length l)%nat) as [Hs|Hs].
    + rewrite Nat.mod_small by done.
      rewrite lookup_app_l by (rewrite length_drop; lia).
      rewrite lookup_drop.
      destruct (lookup_lt_is_Some_2 l (i + k)%nat Hs) as [x ->]. done.
    + replace ((i + k) mod length l)%nat with (i + k - length l)%nat.
      2:{ rewrite <- (Nat.mod_small (i + k - length l) (length l)) by lia.
          replace (i + k)%nat with ((i + k - length l) + 1 * length l)%nat at 2 by lia.
          by rewrite Nat.Div0.mod_add. }
      rewrite lookup_app_r by (rewrite length_drop; lia).
      rewrite length_drop, lookup_take_lt by lia.
      replace (k - (length l - i))%nat with (i + k - length l)%nat by lia.
      assert (Hlt : (i + k - length l < length l)%nat) by lia.
      destruct (lookup_lt_is_Some_2 l _ Hlt) as [x ->]. done.
  - rewrite (lookup_ge_None_2 (seq 0 (length l))) by (rewrite length_seq; lia).
    rewrite (lookup_ge_None_2 (drop i l ++ take i l)); [done|].
    rewrite length_app, length_drop, length_take. lia.
Qed.

(** C4.  A rotation of [K] entries with a valid cursor [i], at rest: a call
    of [cycle] returns the entry under the cursor and moves the cursor on
    (back to 0 after the last index); [K] calls return every entry once, in
    insertion order from the cursor round (from a cursor at 0: the list
    itself), and leave the rotation as it was; call [K+1] returns what the
    first returned; on an empty rotation [cycle] returns [None]. *)
Theorem cycle_round_robin l (i : nat) pool e :
  (i < length l)%nat →
  let c := rotation_at l (Z.of_nat i) pool in
  let K := length l in
  (∃ x, l !! i = Some x ∧
        out (ConnectionCycle.cycle c e) = Returns (Some x) ∧
        state (ConnectionCycle.cycle c e) =
          rotation_at l (if Z.of_nat i + 1 >? Z.of_nat K - 1 then 0 else Z.of_nat i + 1)
            pool) ∧
  out (cycles K c e) = Returns (Some <$> (drop i l ++ take i l)) ∧
  drop i l ++ take i l ≡ₚ l ∧
  (i = 0%nat → out (cycles K c e) = Returns (Some <$> l)) ∧
  state (cycles K c e) = c ∧
  out (cycles (S K) c e) = Returns ((Some <$> (drop i l ++ take i l)) ++ [l !! i]) ∧
  (∀ lk ptr, out (ConnectionCycle.cycle (ConnectionCycle.mk (A:=A) lk [] ptr pool) e)
             = Returns None).
Proof.
  intros Hi c K.
  assert (Hround : out (cycles K c e) = Returns (Some <$> (drop i l ++ take i l))).
  { destruct (cycles_from l pool K i e Hi) as [Ho _]. subst c K.
    rewrite Ho. f_equal. apply (lookups_once_round l i Hi). }
  split; [|split; [|split; [|split; [|split; [|split]]]]].
  - destruct (lookup_lt_is_Some_2 l i Hi) as [x Hx]. exists x.
    destruct (cycle_step l i x pool e Hx) as [e' Hstep].
    subst c K. rewrite Hstep. done.
  - done.
  - rewrite Permutation_app_comm. by rewrite take_drop.
  - intros ->. rewrite Hround. cbn. by rewrite app_nil_r.
  - destruct (cycles_from l pool K i e Hi) as [_ Hs]. subst c K.
    rewrite Hs.
    replace (i + length l)%nat with (i + 1 * length l)%nat by lia.
    by rewrite Nat.Div0.mod_add, Nat.mod_small.
  - destruct (cycles_from l pool (S K) i e Hi) as [Ho _]. subst c K.
    rewrite Ho. f_equal. rewrite seq_S, map_app. cbn [map].
    change (map ?f ?xs) with (f <$> xs).
    rewrite (lookups_once_round l i Hi).
    replace (0 + length l)%nat with (length l) by lia.
    replace (i + length l)%nat with (i + 1 * length l)%nat by lia.
    by rewrite Nat.Div0.mod_add, Nat.mod_small.
  - intros lk ptr. by rewrite cycle_empty.
Qed.

(** *** [delete] and [_delete_by_index] *)

Lemma search_absent (item_eq : A → A → bool) l (connection : A) (i : Z) :
  (∀ x, x ∈ l → item_eq x connection = false) →
  ConnectionCycle.search item_eq l connection i = -1.
Proof.
  revert i. induction l as [|c rest IH]; intros i H; cbn; [done|].
  rewrite H by set_solver. apply IH. intros x Hx. apply H. set_solver.
Qed.

(** C10.  [delete(connection)] on a rotation whose lock is free, when no
    entry equals [connection]: it returns [False]; the list, the cursor and
    everything else stay as they were. *)
Theorem delete_absent (item_eq : A → A → bool) (c : ConnectionCycle.t A)
    (connection : A) e :
  ConnectionCycle._items_lock c = false →
  (∀ x, x ∈ ConnectionCycle._items c → item_eq x connection = false) →
  ConnectionCycle.delete item_eq connection c e = mkResult (Returns false) c e.
Proof.
  intros Hl Habs. destruct c as [lk items p pool]; cbn in *; subst.
  unfold ConnectionCycle.delete. msimpl.
  rewrite search_absent by done. reflexivity.
Qed.

(** What [delete_by_index(k)] does to a rotation at rest, for an index in
    the list. *)
Lemma delete_by_index_at l (k : nat) (v : Z) pool e :
  (k < length l)%nat →
  ConnectionCycle.delete_by_index (Z.of_nat k) (rotation_at l v pool) e =
  mkResult (Returns tt)
    (rotation_at (delete k l)
       (if v >=? Z.of_nat k
        then if v >=? Z.of_nat (length l) - 1 then 0 else v - 1
        else v) pool) e.
Proof.
  intros Hk. destruct (lookup_lt_is_Some_2 l k Hk) as [x Hx].
  unfold rotation_at, ConnectionCycle.delete_by_index, ConnectionCycle._delete_by_index,
    ConnectionCycle.pointer, ConnectionCycle.item, ConnectionCycle.del_item,
    AtomicInt.get, AtomicInt.set, AtomicInt.dec, ConnectionCycle.len.
  msimpl.
  destruct (Z.geb_spec (Z.of_nat k) (Z.of_nat (length l))); [lia|]. msimpl.
  destruct (v >=? Z.of_nat k); msimpl;
    [destruct (v >=? Z.of_nat (length l) - 1); msimpl|];
    rewrite (py_index_nat _ _ _ Hx); msimpl;
    rewrite (py_del_nat _ _ Hk); reflexivity.
Qed.

(** From a state that satisfies the invariant, the cursor after the
    deletion is between -1 and the new last index: Python accepts it as an
    index whenever the list is not empty. *)
Lemma delete_by_index_cursor_range l (k : nat) (v : Z) pool e :
  (k < length l)%nat → 0 ≤ v < Z.of_nat (length l) →
  let c' := state (ConnectionCycle.delete_by_index (Z.of_nat k) (rotation_at l v pool) e) in
  let v' := AtomicInt._value (ConnectionCycle._pointer c') in
  -1 ≤ v' ∧ v' < Z.max 1 (ConnectionCycle.len c').
Proof.
  intros Hk Hv. rewrite delete_by_index_at by done. cbn.
  unfold ConnectionCycle.len. cbn. rewrite length_delete by (by apply lookup_lt_is_Some_2).
  destruct (Z.geb_spec v (Z.of_nat k)); [destruct (Z.geb_spec v (Z.of_nat (length l) - 1))|];
    lia.
Qed.

(** The invariant survives the deletion except in one case: the cursor and
    the deleted index are both 0 and another entry remains. *)
Lemma delete_by_index_cursor_valid l (k : nat) (v : Z) pool e :
  (k < length l)%nat → 0 ≤ v < Z.of_nat (length l) →
  cursor_valid
    (state (ConnectionCycle.delete_by_index (Z.of_nat k) (rotation_at l v pool) e))
  ↔ ¬ (v = 0 ∧ k = 0%nat ∧ (2 ≤ length l)%nat).
Proof.
  intros Hk Hv. rewrite delete_by_index_at by done.
  unfold cursor_valid, ConnectionCycle.len. cbn.
  rewrite length_delete by (by apply lookup_lt_is_Some_2).
  destruct (Z.eqb_spec (Z.of_nat (length l - 1)) 0);
    destruct (Z.geb_spec v (Z.of_nat k));
    try destruct (Z.geb_spec v (Z.of_nat (length l) - 1)); lia.
Qed.

(** C1.  The rotation [[a; b]] with the cursor at 0 satisfies the
    invariant; [delete_by_index(0)] removes [a] and, the cursor being at
    the index and not at the last index, decrements it: the cursor is -1,
    which is not an index of [[b]].  [peek] and [cycle] then read
    [items[-1]], the last entry. *)
Theorem delete_by_index_cursor_minus_one (a b : A) pool e :
  let c := rotation_at [a; b] 0 pool in
  let c' := state (ConnectionCycle.delete_by_index 0 c e) in
  cursor_valid c ∧
  out (ConnectionCycle.delete_by_index 0 c e) = Returns tt ∧
  ConnectionCycle._items c' = [b] ∧
  AtomicInt._value (ConnectionCycle._pointer c') = -1 ∧
  ¬ cursor_valid c' ∧
  out (ConnectionCycle.peek c' e) = Returns (Some b) ∧
  out (ConnectionCycle.cycle c' e) = Returns (Some b).
Proof.
  cbn zeta.
  split; [unfold cursor_valid; vm_compute; split; [discriminate | reflexivity]|].
  split; [reflexivity|]. split; [reflexivity|]. split; [reflexivity|].
  split; [unfold cursor_valid; vm_compute; intros [H _]; by apply H|].
  split; destruct pool; reflexivity.
Qed.

End Rotation.

(** ** What the methods of the rotation do to its list *)

Lemma py_del_length {A} (l l' : list A) (i : Z) :
  py_del l i = Some l' → (length l' ≤ length l)%nat.
Proof.
  unfold py_del. intros H.
  destruct ((0 <=? i) && (i <? Z.of_nat (length l))) eqn:E1;
    [|destruct ((- Z.of_nat (length l) <=? i) && (i <? 0)) eqn:E2; [|done]];
    injection H as <-;
    apply andb_true_iff in E1 || apply andb_true_iff in E2;
    (rewrite length_delete; [lia|]); apply lookup_lt_is_Some_2; lia.
Qed.

Section RotationFrame.
Context {A : Type}.
Implicit Types (c : ConnectionCycle.t A).

Lemma size_keeps_items c e :
  ConnectionCycle._items (state (ConnectionCycle.size c e)) = ConnectionCycle._items c.
Proof. done. Qed.

Lemma peek_keeps_items c e :
  ConnectionCycle._items (state (ConnectionCycle.peek c e)) = ConnectionCycle._items c.
Proof.
  apply (wp_elim _ (fun c' => ConnectionCycle._items c' = ConnectionCycle._items c)).
  destruct c as [lk l [v pl] pool]. wp_go; done.
Qed.

Lemma cycle_keeps_items c e :
  ConnectionCycle._items (state (ConnectionCycle.cycle c e)) = ConnectionCycle._items c.
Proof.
  apply (wp_elim _ (fun c' => ConnectionCycle._items c' = ConnectionCycle._items c)).
  destruct c as [lk l [v pl] pool]. wp_go; done.
Qed.

Lemma py_index_elem (l : list A) (i : Z) (x : A) : py_index l i = Some x → x ∈ l.
Proof.
  unfold py_index. intros H.
  destruct ((0 <=? i) && (i <? Z.of_nat (length l)));
    [|destruct ((- Z.of_nat (length l) <=? i) && (i <? 0)); [|done]];
    by eapply list_elem_of_lookup_2.
Qed.

Lemma cycle_returns_item c e (x : A) :
  out (ConnectionCycle.cycle c e) = Returns (Some x) → x ∈ ConnectionCycle._items c.
Proof.
  intros H.
  refine (wp_out _ (fun a => ∀ y, a = Some y → y ∈ ConnectionCycle._items c) c e
            _ _ H x eq_refl).
  clear H. destruct c as [lk l [v pl] pool]. wp_go; try done;
    intros y [= <-]; by eapply py_index_elem.
Qed.

Lemma delete_shrinks item_eq (connection : A) c e :
  (length (ConnectionCycle._items (state (ConnectionCycle.delete item_eq connection c e)))
   ≤ length (ConnectionCycle._items c))%nat.
Proof.
  apply (wp_elim _ (fun c' => (length (ConnectionCycle._items c')
                               ≤ length (ConnectionCycle._items c))%nat)).
  destruct c as [lk l [v pl] pool]. wp_go;
    try match goal with H : py_del _ _ = Some _ |- _ => apply py_del_length in H end;
    done.
Qed.

End RotationFrame.

(** ** The bound on the rotation *)

Create HintDb bound.

Section Bound.
Context (cap bnd : Z) (Hcap : cap ≤ bnd).

Lemma bounded_set_connections l p :
  bounded cap bnd p → bounded cap bnd (ConnectionPool.set_connections l p).
Proof. by destruct p. Qed.

Lemma bounded_set_lock b p : bounded cap bnd p → bounded cap bnd (ConnectionPool.set_lock b p).
Proof. by destruct p. Qed.

Lemma bounded_set_engine x p : bounded cap bnd p → bounded cap bnd (ConnectionPool.set_engine x p).
Proof. by destruct p. Qed.

Lemma handle_bounded {C} r (m : M WaitableConnection.t C) :
  preserves (bounded cap bnd) (ConnectionPool.handle r m).
Proof.
  intros p e Hp. unfold ConnectionPool.handle.
  destruct (ConnectionPool._connections p !! r) as [h|]; [|done].
  destruct (m h e) as [o h' e']. by apply bounded_set_connections.
Qed.

(** A method of the rotation that does not lengthen its list keeps the bound. *)
Lemma rotation_bounded {C} (m : M (ConnectionCycle.t ref) C) :
  (∀ c e, (length (ConnectionCycle._items (state (m c e)))
           ≤ length (ConnectionCycle._items c))%nat) →
  preserves (bounded cap bnd) (ConnectionPool.rotation m).
Proof.
  intros Hm p e [Hmax Hsz]. unfold ConnectionPool.rotation, zoom.
  specialize (Hm (ConnectionPool._connection_cycle p) e).
  destruct (m _ e) as [o c' e']. destruct p. cbn in *.
  unfold bounded, rotation_size, ConnectionCycle.len in *. cbn in *. lia.
Qed.

Local Hint Resolve bounded_set_connections bounded_set_lock bounded_set_engine : bound.

Ltac pres_step :=
  lazymatch goal with
  | |- preserves _ (bind _ _) => apply preserves_bind; [|intros ?]
  | |- preserves _ (ret _) => apply preserves_ret
  | |- preserves _ (raise _) => apply preserves_raise
  | |- preserves _ (gets _) => apply preserves_gets
  | |- preserves _ (ask _) => apply preserves_ask
  | |- preserves _ tick => apply preserves_tick
  | |- preserves _ (log_to _ _ _) => apply preserves_log_to
  | |- preserves _ (lift_exn _) => apply preserves_lift_exn
  | |- preserves _ (fmt_msg _ _) => apply preserves_fmt_msg
  | |- preserves _ (modify _) => apply preserves_modify; solve [auto with bound]
  | |- preserves _ (try_except _ _) => apply preserves_try_except; [|intros ?]
  | |- preserves _ (try_finally _ _) => apply preserves_try_finally
  | |- preserves _ (with_lock _ _ _) =>
      apply preserves_with_lock; [solve [auto with bound]|]
  | |- preserves _ (locked _) => apply preserves_gets
  | |- preserves _ (ConnectionPool.handle _ _) => apply handle_bounded
  | |- preserves _ (ConnectionPool.rotation ConnectionCycle.size) =>
      apply rotation_bounded; intros; by rewrite size_keeps_items
  | |- preserves _ (ConnectionPool.rotation ConnectionCycle.peek) =>
      apply rotation_bounded; intros; by rewrite peek_keeps_items
  | |- preserves _ (ConnectionPool.rotation ConnectionCycle.cycle) =>
      apply rotation_bounded; intros; by rewrite cycle_keeps_items
  | |- preserves _ (ConnectionPool.rotation (ConnectionCycle.delete _ _)) =>
      apply rotation_bounded; intros; apply delete_shrinks
  | |- preserves _ (if ?b then _ else _) => destruct b
  | |- preserves _ (match ?x with _ => _ end) => destruct x
  | |- preserves _ ?m => first [ solve [auto with bound] | unfold_head m ]
  end.

Ltac pres_go := repeat pres_step.

Lemma log_bounded msg lvl : preserves (bounded cap bnd) (ConnectionPool.log msg lvl).
Proof. pres_go. Qed.

Lemma create_db_engine_bounded recreate :
  preserves (bounded cap bnd) (ConnectionPool.create_db_engine recreate).
Proof. pres_go. Qed.

Lemma connect_bounded : preserves (bounded cap bnd) ConnectionPool.connect.
Proof. pres_go. Qed.

Local Hint Resolve log_bounded create_db_engine_bounded connect_bounded : bound.

(** The guard of [_create_connection]: a handle is added only below the
    maximum. *)
Lemma _create_connection_bounded :
  preserves (bounded cap bnd) ConnectionPool._create_connection.
Proof.
  intros p e Hp. apply wp_elim.
  destruct p as [eng cd conns [lk l [v pl] pool] plk max key].
  unfold ConnectionPool._create_connection, ConnectionPool.rotation,
    ConnectionCycle.size, ConnectionPool.log.
  wp_go;
    unfold bounded, rotation_size, ConnectionCycle.len in *; wp_simpl;
    repeat match goal with
           | H : (_ >=? _) = false |- _ => rewrite Z.geb_leb, Z.leb_gt in H
           end;
    rewrite ?length_app; cbn [length]; unfold ref in *; intuition lia.
Qed.

Local Hint Resolve _create_connection_bounded : bound.

Lemma create_connection_bounded raw lock :
  preserves (bounded cap bnd) (ConnectionPool.create_connection raw lock).
Proof. pres_go. Qed.

Lemma remove_connection_bounded r :
  preserves (bounded cap bnd) (ConnectionPool.remove_connection r).
Proof. pres_go. Qed.

Local Hint Resolve create_connection_bounded remove_connection_bounded : bound.

Lemma get_connection_bounded : preserves (bounded cap bnd) ConnectionPool.get_connection.
Proof. pres_go. Qed.

Lemma self_heal_bounded r : preserves (bounded cap bnd) (self_heal r).
Proof. pres_go. Qed.

Local Hint Resolve get_connection_bounded self_heal_bounded : bound.

Lemma start_transaction_bounded r : preserves (bounded cap bnd) (start_transaction r).
Proof. pres_go. Qed.

Lemma finish_transaction_bounded r c : preserves (bounded cap bnd) (finish_transaction r c).
Proof. pres_go. Qed.

Local Hint Resolve start_transaction_bounded finish_transaction_bounded : bound.

Lemma perform_bounded o : preserves (bounded cap bnd) (perform o).
Proof. destruct o; pres_go. Qed.

Lemma run_bounded ops p e : bounded cap bnd p → bounded cap bnd (run ops p e).1.
Proof.
  revert p e. induction ops as [|o ops IH]; intros p e Hp; [done|].
  cbn [run]. pose proof (perform_bounded o p e Hp) as H.
  destruct (perform o p e) as [out' p' e']. by apply IH.
Qed.

End Bound.

(** At or above the maximum the grow routine is [cycle]. *)
Lemma _create_connection_at_capacity (p : ConnectionPool.t) (e : Env) :
  ConnectionPool._max_pool_size p ≤ rotation_size p →
  ConnectionPool._create_connection p e
  = ConnectionPool.rotation ConnectionCycle.cycle p e.
Proof.
  intros H. destruct p as [eng cd conns c plk max key].
  unfold rotation_size in H. cbn in H.
  unfold ConnectionPool._create_connection.
  unfold bind at 1. unfold ConnectionPool.rotation at 1, zoom, ConnectionCycle.size, gets.
  cbn [ConnectionPool._connection_cycle ConnectionPool.set_connection_cycle
       ConnectionPool._engine ConnectionPool._connection_details
       ConnectionPool._connections ConnectionPool._lock
       ConnectionPool._max_pool_size ConnectionPool.logger_key].
  unfold bind at 1.
  cbn [ConnectionPool._max_pool_size ConnectionPool.set_connection_cycle].
  replace (ConnectionCycle.len c >=? max) with true
    by (symmetry; rewrite Z.geb_leb; apply Z.leb_le; lia).
  reflexivity.
Qed.

(** At the maximum, on a rotation at rest whose cursor is on an entry, the
    grow routine returns that entry and only moves the cursor. *)
Lemma _create_connection_cycles (p : ConnectionPool.t) (e : Env) l v pool :
  ConnectionPool._connection_cycle p = rotation_at l v pool →
  l ≠ [] →
  ConnectionPool._max_pool_size p ≤ Z.of_nat (length l) →
  -1 ≤ v < Z.of_nat (length l) →
  ∃ h e',
    py_index l v = Some h ∧
    ConnectionPool._create_connection p e
    = mkResult (Returns (Some h))
        (ConnectionPool.set_connection_cycle
           (rotation_at l (if v + 1 >? Z.of_nat (length l) - 1 then 0 else v + 1) pool) p)
        e'.
Proof.
  intros Hc Hl Hmax Hv.
  destruct (py_index_in_range l v Hl Hv) as [h Hh]. exists h.
  rewrite _create_connection_at_capacity
    by (unfold rotation_size; rewrite Hc; exact Hmax).
  unfold ConnectionPool.rotation, zoom. rewrite Hc.
  pose proof (cycle_at l v pool e Hl) as Hcy. cbn zeta in Hcy.
  rewrite Hcy, Hh. eexists. split; [done|reflexivity].
Qed.

(** The same through [create_connection], with or without the pool lock. *)
Lemma create_connection_cycles (lock : bool) (p : ConnectionPool.t) (e : Env) l v pool :
  is_Some (ConnectionPool._engine p) →
  ConnectionPool._lock p = false →
  ConnectionPool._connection_cycle p = rotation_at l v pool →
  l ≠ [] →
  ConnectionPool._max_pool_size p ≤ Z.of_nat (length l) →
  -1 ≤ v < Z.of_nat (length l) →
  ∃ h e',
    py_index l v = Some h ∧
    ConnectionPool.create_connection false lock p e
    = mkResult (Returns (VHandle h))
        (ConnectionPool.set_connection_cycle
           (rotation_at l (if v + 1 >? Z.of_nat (length l) - 1 then 0 else v + 1) pool) p)
        e'.
Proof.
  intros [eng He] Hlk Hc Hl Hmax Hv.
  destruct lock.
  - destruct (_create_connection_cycles (ConnectionPool.set_lock true p) e l v pool)
      as (h & e' & Hh & Hrun); [by destruct p|done|by destruct p|done|].
    exists h, e'. split; [done|].
    unfold ConnectionPool.create_connection.
    destruct p as [eng' cd conns c plk max key]. cbn in He, Hlk, Hc. subst.
    cbn -[ConnectionPool._create_connection] in Hrun.
    repeat (progress (munfold; cbn -[ConnectionPool._create_connection])).
    rewrite Hrun. reflexivity.
  - destruct (_create_connection_cycles p e l v pool) as (h & e' & Hh & Hrun); [done..|].
    exists h, e'. split; [done|].
    unfold ConnectionPool.create_connection.
    destruct p as [eng' cd conns c plk max key]. cbn in He, Hlk, Hc. subst.
    repeat (progress (munfold; cbn -[ConnectionPool._create_connection])).
    rewrite Hrun. reflexivity.
Qed.

(** C2.  A pool whose rotation holds at most [max_pool_size] handles: after
    any sequence of [get_connection], [create_connection] (not raw),
    [remove_connection] and the calls on its handles, whatever their
    outcomes, the rotation still holds at most [max_pool_size] handles and
    the maximum is unchanged.  With the rotation at the maximum,
    [_create_connection] is [cycle]: the list stays as it is and a handle
    it returns is one of the list.  With a maximum of 0 the rotation is
    empty and what comes back is [None], no handle.  With a maximum above
    0, on a rotation at rest whose cursor is on an entry (index -1
    included), the handle under the cursor comes back, from
    [_create_connection] and from [create_connection] with or without the
    pool lock, and none is added. *)
Theorem rotation_never_exceeds_max (p : ConnectionPool.t) (e : Env) :
  rotation_size p ≤ ConnectionPool._max_pool_size p →
  (∀ ops : list operation,
     rotation_size (run ops p e).1 ≤ ConnectionPool._max_pool_size p ∧
     ConnectionPool._max_pool_size (run ops p e).1 = ConnectionPool._max_pool_size p) ∧
  (rotation_size p = ConnectionPool._max_pool_size p →
     let r := ConnectionPool._create_connection p e in
     let c := ConnectionPool._connection_cycle p in
     let cursor := AtomicInt._value (ConnectionCycle._pointer c) in
     r = ConnectionPool.rotation ConnectionCycle.cycle p e ∧
     ConnectionCycle._items (ConnectionPool._connection_cycle (state r))
       = ConnectionCycle._items c ∧
     (∀ h, out r = Returns (Some h) → h ∈ ConnectionCycle._items c) ∧
     (ConnectionPool._max_pool_size p = 0 → r = mkResult (Returns None) p e) ∧
     (0 < ConnectionPool._max_pool_size p →
      ConnectionCycle._items_lock c = false →
      AtomicInt._lock (ConnectionCycle._pointer c) = false →
      -1 ≤ cursor < rotation_size p →
      ∃ h, py_index (ConnectionCycle._items c) cursor = Some h ∧
           h ∈ ConnectionCycle._items c ∧
           out r = Returns (Some h) ∧
           (∀ lock, is_Some (ConnectionPool._engine p) →
                    ConnectionPool._lock p = false →
                    let r' := ConnectionPool.create_connection false lock p e in
                    out r' = Returns (VHandle h) ∧
                    ConnectionCycle._items (ConnectionPool._connection_cycle (state r'))
                    = ConnectionCycle._items c))).
Proof.
  intros Hp. split.
  - intros ops.
    destruct (run_bounded (ConnectionPool._max_pool_size p)
                (ConnectionPool._max_pool_size p) ltac:(lia) ops p e) as [H1 H2];
      [by split|]. by split.
  - intros Hfull. cbn zeta.
    rewrite _create_connection_at_capacity by lia.
    split; [done|]. split; [|split; [|split]].
    + unfold ConnectionPool.rotation, zoom.
      pose proof (cycle_keeps_items (ConnectionPool._connection_cycle p) e) as Hitems.
      destruct (ConnectionCycle.cycle _ e) as [o c' e']. by destruct p.
    + unfold ConnectionPool.rotation, zoom.
      pose proof (cycle_returns_item (ConnectionPool._connection_cycle p) e) as Hin.
      destruct (ConnectionCycle.cycle _ e) as [o c' e']. destruct p. cbn in *.
      intros h ->. by apply Hin.
    + intros Hz. destruct p as [eng cd conns [lk l [v pl] pool] plk max key].
      unfold rotation_size, ConnectionCycle.len in Hfull. cbn in Hfull, Hz.
      destruct l; [by subst max|cbn in Hfull; lia].
    + intros Hpos Hlk Hpl Hv.
      destruct p as [eng cd conns [lk l [v pl] pool] plk max key].
      unfold rotation_size, ConnectionCycle.len in Hfull, Hv.
      cbn in Hfull, Hpos, Hlk, Hpl, Hv. subst lk pl max.
      cbn [ConnectionPool._connection_cycle ConnectionCycle._items ConnectionCycle._pointer
           AtomicInt._value ConnectionPool._engine ConnectionPool._lock].
      assert (Hl : l ≠ []) by (intros ->; cbn in Hpos; lia).
      set (p := ConnectionPool.mk _ _ _ _ _ _ _).
      destruct (_create_connection_cycles p e l v pool) as (h & e' & Hh & Hrun);
        [done|done|subst p; cbn; lia|done|].
      rewrite _create_connection_at_capacity in Hrun
        by (subst p; unfold rotation_size, ConnectionCycle.len; cbn; lia).
      exists h. split; [done|]. split; [by eapply py_index_elem|].
      split; [by rewrite Hrun|].
      intros lock Heng Hplk. cbn zeta.
      destruct (create_connection_cycles lock p e l v pool) as (h' & e'' & Hh' & Hrun');
        [done|done|done|done|subst p; cbn; lia|done|].
      rewrite Hrun'. cbn. split; [congruence|done].
Qed.

(** With a maximum of 0 the rotation holds its maximum of handles, none,
    and the grow routine returns [None]: there is no handle to return. *)
Lemma grow_at_max_zero_returns_none :
  let p := example_pool 0 [] 0 in
  rotation_size p = ConnectionPool._max_pool_size p ∧
  ConnectionPool._create_connection p quiet = mkResult (Returns None) p quiet ∧
  ConnectionPool.create_connection false true p quiet = mkResult (Returns VNone) p quiet.
Proof. vm_compute. repeat split. Qed.

(** ** The admission decision *)

Lemma wp_is {S A} (m : M S A) (r : Result S A) s e :
  r = m s e →
  wp m (fun a s' e' => r = mkResult (Returns a) s' e')
       (fun x s' e' => r = mkResult (Raises x) s' e')
       (fun s' e' => r = mkResult Blocks s' e') s e.
Proof. intros ->. unfold wp. by destruct (m s e) as [[a|x|] s' e']. Qed.

(** Step until the equation [H] rewrites the goal. *)
Ltac wp_until H := repeat (assert_fails (rewrite H); wp_step); rewrite H.

(** [get_connection] asks for growth exactly under [wants_growth]. *)
Lemma get_connection_decides (p : ConnectionPool.t) (e : Env) :
  (rotation_size p = 0 ∨ is_Some (cursor_handle p)) →
  ConnectionPool.get_connection p e
  = (if wants_growth p then grow_path else cycle_path) p e.
Proof.
  intros Hwf. apply wp_result.
  destruct p as [eng cd conns [lk l [v pl] pool] plk max key].
  unfold wants_growth, cursor_busy, cursor_handle, rotation_size,
    ConnectionCycle.len in *.
  unfold ConnectionPool.get_connection. wp_simpl.
  apply wp_bind. unfold ConnectionPool.log at 1. do 3 wp_step.
  apply wp_bind.
  unfold ConnectionPool.rotation at 1, ConnectionCycle.size, ConnectionCycle.len.
  do 2 wp_step.
  apply wp_bind. wp_step.
  apply wp_bind.
  destruct (Z.of_nat (length l) =? 0) eqn:Hz.
  { wp_step. cbn [orb]. apply wp_is. reflexivity. }
  destruct Hwf as [Hwf|[h Hh]]; [apply Z.eqb_neq in Hz; done|].
  cbn [orb].
  destruct (Z.of_nat (length l) <? max) eqn:Hlt; cbn [andb].
  2:{ wp_step. apply wp_is. reflexivity. }
  destruct (py_index l v) as [r|] eqn:Hr; [|done].
  apply wp_bind.
  unfold ConnectionPool.rotation at 1, ConnectionCycle.peek, ConnectionCycle.pointer,
    AtomicInt.get, ConnectionCycle.len.
  wp_until Hz. wp_until Hr. wp_until Hh. wp_until Hh. wp_step.
  rewrite list_insert_id by done.
  unfold WaitableConnection.in_use.
  destruct (WaitableConnection._in_use h); cbn [andb].
  - wp_step. unfold locked. wp_step. wp_step.
    destruct plk; cbn [negb]; apply wp_is; reflexivity.
  - wp_step. apply wp_is; reflexivity.
Qed.

Lemma fmt_new_connection (z : Z) :
  py_format "new connection created, current pool size = [%d]" [PInt z]
  = inr ("new connection created, current pool size = [" +:+ pretty z +:+ "]").
Proof. reflexivity. Qed.

#[local] Hint Rewrite fmt_new_connection : pyfmt.

(** Below the maximum, with the locks free and a factory that succeeds,
    the grow path makes a handle. *)
Lemma grow_path_below_max en cd conns l ptr pool max key e :
  Z.of_nat (length l) < max →
  (∀ n, ok (oracle e n) = true) →
  ∃ h e',
    grow_path
      (ConnectionPool.mk (Some en) cd conns (ConnectionCycle.mk false l ptr pool)
         false max key) e
    = mkResult (Returns (Some (length conns)))
        (ConnectionPool.mk (Some en) cd (conns ++ [h])
           (ConnectionCycle.mk false (l ++ [length conns]) ptr pool) false max key) e'
    ∧ h = WaitableConnection.mk (WaitableConnection._id h)
            (Some {| conn_no := S (S (length (trace e))); closed := false |})
            false None false.
Proof.
  intros Hlt Hok.
  eexists _, _. split.
  - apply wp_result. unfold grow_path.
    wp_go with (env_simpl; first [rewrite Hok in *; discriminate | bool_to_Z; lia]).
    reflexivity.
  - cbn. rewrite !length_app. cbn. do 3 f_equal. lia.
Qed.

(** At or above the maximum the grow path gives what the cycle path gives
    and makes no handle. *)
Lemma grow_path_at_capacity en cd conns c max key e :
  max ≤ ConnectionCycle.len c →
  let p := ConnectionPool.mk (Some en) cd conns c false max key in
  out (grow_path p e) = out (cycle_path p e) ∧
  ConnectionPool._connections (state (grow_path p e)) = conns ∧
  ConnectionCycle._items (ConnectionPool._connection_cycle (state (grow_path p e)))
    = ConnectionCycle._items c.
Proof.
  intros Hfull p.
  pose proof (cycle_keeps_items c (emit (Log key TRACE "getting connection...") e)) as Hk.
  unfold grow_path, cycle_path, ConnectionPool.create_connection, ConnectionPool.log.
  munfold. cbn -[ConnectionPool._create_connection ConnectionCycle.cycle].
  rewrite _create_connection_at_capacity by (unfold rotation_size; cbn; lia).
  unfold ConnectionPool.rotation, zoom.
  cbn -[ConnectionCycle.cycle].
  destruct (ConnectionCycle.cycle c _) as [[[r|]|x|] c' e']; cbn in *; done.
Qed.

(** C3, as the code has it.  For a pool whose cursor, when the rotation is
    not empty, points at one of its handles: [get_connection] takes the
    grow path exactly when the rotation is empty, or is below
    [max_pool_size] with the handle under the cursor busy and the pool lock
    free, and the cycle path (the result of [cycle]) otherwise.  On a pool
    at rest whose factory succeeds, the grow path makes a handle, puts it
    last in the rotation and returns it when the rotation is below
    [max_pool_size]; at or above it, it returns what [cycle] returns and
    makes none.  In the scenario (max 2, initial 1) the calls return A; B
    while A is busy, with size 2; and A, B, A after A is released. *)
Theorem get_connection_grows_or_cycles (p : ConnectionPool.t) (e : Env) :
  (rotation_size p = 0 ∨ is_Some (cursor_handle p)) →
  ConnectionPool.get_connection p e
    = (if wants_growth p then grow_path else cycle_path) p e ∧
  (at_rest p → (∀ n, ok (oracle e n) = true) →
   if rotation_size p <? ConnectionPool._max_pool_size p
   then creates_new_handle p (grow_path p e)
   else out (grow_path p e) = out (cycle_path p e) ∧
        ConnectionPool._connections (state (grow_path p e))
          = ConnectionPool._connections p ∧
        ConnectionCycle._items (ConnectionPool._connection_cycle (state (grow_path p e)))
          = ConnectionCycle._items (ConnectionPool._connection_cycle p)) ∧
  (∃ p0,
     state scenario_start !! ConnectionDetails.get_key example_details = Some p0 ∧
     rotation_size p0 = 1 ∧
     let a := 0%nat in
     let b := 1%nat in
     let g1 := ConnectionPool.get_connection p0 (env scenario_start) in
     let t1 := start_transaction a (state g1) (env g1) in
     let g2 := ConnectionPool.get_connection (state t1) (env t1) in
     let c1 := commit_transaction a (state g2) (env g2) in
     let g3 := ConnectionPool.get_connection (state c1) (env c1) in
     let g4 := ConnectionPool.get_connection (state g3) (env g3) in
     let g5 := ConnectionPool.get_connection (state g4) (env g4) in
     out g1 = Returns (Some a) ∧
     cursor_busy (state t1) = true ∧
     out g2 = Returns (Some b) ∧ rotation_size (state g2) = 2 ∧
     out c1 = Returns tt ∧
     out g3 = Returns (Some a) ∧ out g4 = Returns (Some b) ∧
     out g5 = Returns (Some a)).
Proof.
  intros Hwf. split; [by apply get_connection_decides|]. split.
  - intros (Heng & Hlock & Hitems) Hok.
    destruct p as [[en|] cd conns [lk l ptr pool] plk max key];
      [|by destruct Heng]. cbn in Hlock, Hitems. subst lk plk.
    unfold rotation_size, ConnectionCycle.len. cbn [ConnectionPool._connection_cycle
      ConnectionPool._max_pool_size ConnectionCycle._items ConnectionPool._connections].
    destruct (Z.ltb_spec (Z.of_nat (length l)) max) as [Hlt|Hge].
    + destruct (grow_path_below_max en cd conns l ptr pool max key e Hlt Hok)
        as (h & e' & Hrun & _).
      unfold creates_new_handle. rewrite Hrun. cbn.
      rewrite length_app. cbn. repeat split; [lia].
    + apply grow_path_at_capacity. unfold ConnectionCycle.len. cbn. lia.
  - eexists. split; [vm_compute; reflexivity|]. vm_compute. repeat split.
Qed.

(** C3 as the claim words it fails: on an empty rotation of a pool whose
    [max_pool_size] is 0, at rest and with a factory that succeeds,
    [get_connection] makes no handle; it returns [None]. *)
Lemma get_connection_empty_rotation_max_zero :
  let p := example_pool 0 [] 0 in
  rotation_size p = 0 ∧ wants_growth p = true ∧
  ¬ creates_new_handle p (ConnectionPool.get_connection p quiet) ∧
  out (ConnectionPool.get_connection p quiet) = Returns None ∧
  state (ConnectionPool.get_connection p quiet) = p.
Proof.
  cbn zeta. split; [reflexivity|]. split; [reflexivity|]. split.
  - intros [H _]. vm_compute in H. discriminate.
  - split; reflexivity.
Qed.

Lemma get_connection_grows_or_cycles_witness :
  let p := example_pool 2 [WaitableConnection.set_in_use true (idle_handle "A" 7)] 0 in
  (rotation_size p = 0 ∨ is_Some (cursor_handle p)) ∧
  ConnectionPool.get_connection p quiet = grow_path p quiet.
Proof.
  cbn zeta. split.
  - right. vm_compute. eauto.
  - apply (get_connection_grows_or_cycles
             (example_pool 2 [WaitableConnection.set_in_use true (idle_handle "A" 7)] 0)
             quiet).
    right. vm_compute. eauto.
Defined.

(** ** The theorems at concrete inputs *)

Lemma cycle_round_robin_witness :
  (1 < length ["A"; "B"; "C"])%nat ∧
  out (cycles 3 (rotation_at ["A"; "B"; "C"] 1 None) quiet)
    = Returns [Some "B"; Some "C"; Some "A"].
Proof.
  split; [cbn; lia|].
  apply (cycle_round_robin ["A"; "B"; "C"] 1 None quiet). cbn; lia.
Defined.

Lemma delete_absent_witness :
  let c := rotation_at ["A"; "B"; "C"] 1 None in
  ConnectionCycle._items_lock c = false ∧
  (∀ x, x ∈ ConnectionCycle._items c → String.eqb x "D" = false) ∧
  ConnectionCycle.delete String.eqb "D" c quiet = mkResult (Returns false) c quiet.
Proof.
  assert (H : ∀ x, x ∈ ["A"; "B"; "C"] → String.eqb x "D" = false).
  { intros x Hx. repeat (apply elem_of_cons in Hx as [->|Hx]; [reflexivity|]).
    by apply elem_of_nil in Hx. }
  cbn zeta. split; [reflexivity|]. split; [exact H|].
  apply (delete_absent String.eqb (rotation_at ["A"; "B"; "C"] 1 None) "D" quiet);
    [reflexivity | exact H].
Defined.

Lemma rotation_never_exceeds_max_witness :
  let p := example_pool 2 [idle_handle "A" 7; idle_handle "B" 8] 0 in
  rotation_size
    (run [GetConnection; StartTransaction 0%nat; GetConnection; CreateConnection true;
          CreateConnection false; RemoveConnection 0%nat; GetConnection] p quiet).1 ≤ 2 ∧
  out (ConnectionPool._create_connection p quiet) = Returns (Some 0%nat) ∧
  out (ConnectionPool.create_connection false true p quiet) = Returns (VHandle 0%nat).
Proof.
  cbn zeta.
  assert (Hle : rotation_size (example_pool 2 [idle_handle "A" 7; idle_handle "B" 8] 0)
                ≤ ConnectionPool._max_pool_size
                    (example_pool 2 [idle_handle "A" 7; idle_handle "B" 8] 0))
    by (vm_compute; discriminate).
  destruct (rotation_never_exceeds_max
              (example_pool 2 [idle_handle "A" 7; idle_handle "B" 8] 0) quiet Hle)
    as [Hbound Hfull].
  split; [exact (proj1 (Hbound _))|].
  destruct (Hfull eq_refl) as (_ & _ & _ & _ & Hgrow).
  destruct Hgrow as (h & Hh & _ & Ho & Hc);
    [reflexivity..|split; [vm_compute; discriminate|reflexivity]|].
  injection Hh as <-. split; [exact Ho|].
  apply (Hc true); [by eexists|reflexivity].
Defined.

(** ** Handles: reading and writing the store *)

Lemma get_put_handle r h p :
  is_Some (get_handle r p) → get_handle r (put_handle r h p) = Some h.
Proof.
  unfold get_handle, put_handle. destruct p; cbn. intros H.
  apply list_lookup_insert_eq. by apply lookup_lt_is_Some_1.
Qed.

Lemma put_put_handle r h h' p : put_handle r h' (put_handle r h p) = put_handle r h' p.
Proof. unfold put_handle. destruct p; cbn. by rewrite list_insert_insert_eq. Qed.

Lemma put_get_handle r h p : get_handle r p = Some h → put_handle r h p = p.
Proof.
  unfold get_handle, put_handle. destruct p; cbn. intros H. by rewrite list_insert_id.
Qed.

Lemma wp_handle_at {A} (r : ref) (h : WaitableConnection.t)
    (m : M WaitableConnection.t A) Q E B p e :
  get_handle r p = Some h →
  wp m (fun a h' => Q a (put_handle r h' p)) (fun x h' => E x (put_handle r h' p))
       (fun h' => B (put_handle r h' p)) h e →
  wp (ConnectionPool.handle r m) Q E B p e.
Proof. intros H Hm. apply wp_handle. unfold get_handle in H. by rewrite H. Qed.

Lemma logger_key_put_handle r h p :
  ConnectionPool.logger_key (put_handle r h p) = ConnectionPool.logger_key p.
Proof. by destruct p. Qed.

Lemma connection_cycle_put_handle r h p :
  ConnectionPool._connection_cycle (put_handle r h p) = ConnectionPool._connection_cycle p.
Proof. by destruct p. Qed.

(** Steps of [wp] on a pool kept abstract, for the methods of one handle. *)
Ltac pool_simpl :=
  cbv beta;
  rewrite ?logger_key_put_handle;
  unfold WaitableConnection.set_connection, WaitableConnection.set_lock,
    WaitableConnection.set_transaction, WaitableConnection.set_in_use;
  cbn [out state env
       WaitableConnection._id WaitableConnection._connection WaitableConnection._lock
       WaitableConnection._transaction WaitableConnection._in_use
       WaitableConnection.set_connection WaitableConnection.set_lock
       WaitableConnection.set_transaction WaitableConnection.set_in_use
       WaitableConnection.in_use WaitableConnection.is_healthy
       conn_no closed tx_no tx_conn is_active negb];
  rewrite ?put_put_handle.

Ltac handle_lookup :=
  first [ eassumption
        | apply get_put_handle; solve [eauto] ].

Ltac hwp_step :=
  lazymatch goal with
  | |- wp (ConnectionPool.handle _ _) _ _ _ _ _ =>
      eapply wp_handle_at; [handle_lookup|]
  | |- wp (bind _ _) _ _ _ _ _ => apply wp_bind
  | |- wp (ret _) _ _ _ _ _ => apply wp_ret
  | |- wp (raise _) _ _ _ _ _ => apply wp_raise
  | |- wp (gets _) _ _ _ _ _ => apply wp_gets
  | |- wp (modify _) _ _ _ _ _ => apply wp_modify
  | |- wp (ask _) _ _ _ _ _ => apply wp_ask
  | |- wp tick _ _ _ _ _ => apply wp_tick
  | |- wp (log_to _ _ _) _ _ _ _ _ => apply wp_log_to
  | |- wp (fmt_msg _ _) _ _ _ _ _ => apply wp_fmt_msg; autorewrite with pyfmt
  | |- wp (try_except _ _) _ _ _ _ _ => apply wp_try_except
  | |- wp (acquire _ _) _ _ _ _ _ => apply wp_acquire
  | |- wp (release _ _) _ _ _ _ _ => apply wp_release
  | |- wp (ConnectionPool.log _ _) _ _ _ _ _ => unfold ConnectionPool.log
  | |- wp (exc_tb_print_exc) _ _ _ _ _ => unfold exc_tb_print_exc
  end; pool_simpl.

Ltac hwp_go := repeat hwp_step.

(** ** Self-heal *)

(** The first statement of [self_heal] formats its log message with an
    argument and no conversion: it raises, whatever the state. *)
Lemma self_heal_raises (r : ref) (p : ConnectionPool.t) (e : Env) :
  self_heal r p e
  = mkResult
      (Raises (TypeError "not all arguments converted during string formatting"))
      p (emit (Ext ExcInfo) e).
Proof. reflexivity. Qed.

(** [start_transaction] on a handle whose lock is free and whose
    connection is missing or closed. *)
Lemma start_transaction_unhealthy (r : ref) (h : WaitableConnection.t)
    (p : ConnectionPool.t) (e : Env) :
  get_handle r p = Some h →
  WaitableConnection._lock h = false →
  WaitableConnection.is_healthy h = false →
  start_transaction r p e
  = mkResult
      (Raises (TypeError "not all arguments converted during string formatting"))
      (put_handle r (WaitableConnection.set_in_use true
                       (WaitableConnection.set_lock true h)) p)
      (emit (Ext ExcInfo)
         (emit (Log (ConnectionPool.logger_key p) TRACE "lock acquired on connection...")
            (emit (Log (ConnectionPool.logger_key p) TRACE
                     "acquiring lock on connection...") e))).
Proof.
  intros Hh Hl Hu. apply wp_result. unfold start_transaction.
  destruct h as [id c lk tx iu]. cbn in Hl. subst lk.
  hwp_go. unfold WaitableConnection.is_healthy in *. pool_simpl.
  cbn [WaitableConnection._connection] in Hu. rewrite Hu.
  unfold wp. rewrite self_heal_raises. reflexivity.
Qed.

(** C5.  A handle whose lock is free and whose connection is missing or
    closed: [start_transaction] takes the lock, marks the handle busy and
    calls [self_heal], which raises [TypeError] while formatting its first
    log message.  The exception leaves [start_transaction]: the handle
    stays locked and busy with the connection it had, nothing is closed or
    connected, and the rotation is as it was. *)
Theorem start_transaction_unhealthy_raises (r : ref) (h : WaitableConnection.t)
    (p : ConnectionPool.t) (e : Env) :
  get_handle r p = Some h →
  WaitableConnection._lock h = false →
  WaitableConnection.is_healthy h = false →
  let res := start_transaction r p e in
  out res
    = Raises (TypeError "not all arguments converted during string formatting") ∧
  state res
    = put_handle r (WaitableConnection.set_in_use true
                      (WaitableConnection.set_lock true h)) p ∧
  ConnectionPool._connection_cycle (state res) = ConnectionPool._connection_cycle p ∧
  emitted (start_transaction r) p e
    = [Log (ConnectionPool.logger_key p) TRACE "acquiring lock on connection...";
       Log (ConnectionPool.logger_key p) TRACE "lock acquired on connection...";
       Ext ExcInfo].
Proof.
  intros Hh Hl Hu. cbn zeta.
  unfold emitted. rewrite (start_transaction_unhealthy r h p e Hh Hl Hu).
  cbn [out state env emit trace]. rewrite connection_cycle_put_handle.
  repeat split. rewrite <- !app_assoc. by rewrite drop_app_length.
Qed.

Lemma start_transaction_unhealthy_raises_witness :
  let h := WaitableConnection.mk "A" (Some {| conn_no := 7; closed := true |})
             false None false in
  let p := example_pool 2 [h] 0 in
  get_handle 0%nat p = Some h ∧
  WaitableConnection._lock h = false ∧
  WaitableConnection.is_healthy h = false ∧
  out (start_transaction 0%nat p quiet)
    = Raises (TypeError "not all arguments converted during string formatting").
Proof.
  cbn zeta. repeat (split; [reflexivity|]).
  eapply start_transaction_unhealthy_raises; reflexivity.
Defined.

(** ** Rollback on an idle handle *)

Lemma wp_raises {S A} (m : M S A) (P : exn → S → Prop) s e :
  wp m (fun _ _ _ => False) (fun x s' _ => P x s') (fun _ _ => False) s e →
  ∃ x, out (m s e) = Raises x ∧ P x (state (m s e)).
Proof. unfold wp. destruct (m s e) as [[a|x|] s' e']; [done| |done]. eauto. Qed.

Lemma fmt_rollback (v : PyVal) :
  py_format "rolling back transaction. Exception = [%s]" [v]
  = inr ("rolling back transaction. Exception = [" +:+ py_str v +:+ "]").
Proof. reflexivity. Qed.

#[local] Hint Rewrite fmt_rollback : pyfmt.




(** ** Entering: [start_transaction] *)

Lemma start_transaction_no_handle (r : ref) (p : ConnectionPool.t) (e : Env) :
  get_handle r p = None →
  out (start_transaction r p e) = Raises AttributeError.
Proof.
  intros Hh. unfold start_transaction, ConnectionPool.log, ConnectionPool.handle.
  unfold get_handle in Hh. munfold. cbn [out state env]. by rewrite Hh.
Qed.

Lemma start_transaction_locked (r : ref) (h : WaitableConnection.t)
    (p : ConnectionPool.t) (e : Env) :
  get_handle r p = Some h → WaitableConnection._lock h = true →
  out (start_transaction r p e) = Blocks.
Proof.
  intros Hh Hl. unfold start_transaction, ConnectionPool.log, ConnectionPool.handle.
  unfold get_handle in Hh. munfold. cbn [out state env]. by rewrite Hh, Hl.
Qed.

(** On a handle whose lock is free and whose connection is open,
    [start_transaction] takes the lock, marks the handle busy and asks the
    connection to begin; the transaction it stores is the one that call
    made. *)
Lemma start_transaction_healthy (r : ref) (h : WaitableConnection.t) (c : Connection)
    (p : ConnectionPool.t) (e : Env) :
  get_handle r p = Some h →
  WaitableConnection._lock h = false →
  WaitableConnection._connection h = Some c →
  closed c = false →
  let key := ConnectionPool.logger_key p in
  let e2 := emit (Log key TRACE "creating transaction...")
              (emit (Log key TRACE "lock acquired on connection...")
                 (emit (Log key TRACE "acquiring lock on connection...") e)) in
  let n := length (trace e2) in
  start_transaction r p e =
  if ok (oracle e n) then
    mkResult (Returns c)
      (put_handle r
         (WaitableConnection.mk (WaitableConnection._id h) (Some c) true
            (Some {| tx_no := n; tx_conn := conn_no c; is_active := true |}) true) p)
      (emit (Log key TRACE "returning connection...") (emit (Ext (Begin (conn_no c))) e2))
  else
    mkResult (Raises DBAPIError)
      (put_handle r
         (WaitableConnection.mk (WaitableConnection._id h) (Some c) true
            (WaitableConnection._transaction h) true) p)
      (emit (Ext (Begin (conn_no c))) e2).
Proof.
  intros Hh Hl Hc Hopen. cbn zeta. apply wp_result. unfold start_transaction.
  destruct h as [id c' lk tx iu]. cbn in Hl, Hc. subst lk c'.
  hwp_go. unfold WaitableConnection.is_healthy. pool_simpl. rewrite Hopen. cbn [negb].
  hwp_go. env_simpl.
  destruct (ok (oracle e _)); cbn [negb]; hwp_go; reflexivity.
Qed.

(** When [start_transaction] returns, the handle holds the lock, is marked
    busy, and holds a transaction that is open and was begun by a call
    this [start_transaction] made on the connection it returns. *)
Lemma start_transaction_returns (r : ref) (c : Connection) (p : ConnectionPool.t)
    (e : Env) :
  out (start_transaction r p e) = Returns c →
  ∃ h' n,
    get_handle r (state (start_transaction r p e)) = Some h' ∧
    WaitableConnection._lock h' = true ∧
    WaitableConnection._in_use h' = true ∧
    WaitableConnection._connection h' = Some c ∧
    WaitableConnection._transaction h'
      = Some {| tx_no := n; tx_conn := conn_no c; is_active := true |} ∧
    (length (trace e) ≤ n)%nat ∧
    trace (env (start_transaction r p e)) !! n = Some (Ext (Begin (conn_no c))).
Proof.
  intros Hret.
  destruct (get_handle r p) as [h|] eqn:Hh;
    [|by rewrite start_transaction_no_handle in Hret].
  destruct (WaitableConnection._lock h) eqn:Hl;
    [by rewrite (start_transaction_locked r h) in Hret|].
  destruct (WaitableConnection.is_healthy h) eqn:Hu.
  2:{ by rewrite (start_transaction_unhealthy r h p e Hh Hl Hu) in Hret. }
  unfold WaitableConnection.is_healthy in Hu.
  destruct (WaitableConnection._connection h) as [c0|] eqn:Hc; [|done].
  apply negb_true_iff in Hu.
  pose proof (start_transaction_healthy r h c0 p e Hh Hl Hc Hu) as Hrun.
  cbn zeta in Hrun. rewrite Hrun in *. clear Hrun.
  destruct (ok _); [|done]. cbn in Hret. injection Hret as ->.
  eexists _, _. cbn [state env]. split; [apply get_put_handle; eauto|].
  cbn [WaitableConnection._lock WaitableConnection._in_use
       WaitableConnection._connection WaitableConnection._transaction].
  repeat split.
  - cbn [emit trace]. rewrite !length_app. lia.
  - cbn [emit trace].
    rewrite lookup_app_l by (rewrite !length_app; cbn; lia).
    by rewrite lookup_app_r, Nat.sub_diag.
Qed.

(** ** Leaving: commit or rollback *)

Lemma count_nil f : count f [] = 0%nat.
Proof. done. Qed.

Lemma count_cons f ev evs :
  count f (ev :: evs) = ((if f ev then 1 else 0) + count f evs)%nat.
Proof.
  unfold count. rewrite filter_cons. destruct (f ev).
  - rewrite decide_True by done. done.
  - rewrite decide_False by done. done.
Qed.

Lemma count_app f evs evs' : count f (evs ++ evs') = (count f evs + count f evs')%nat.
Proof. unfold count. by rewrite filter_app, length_app. Qed.

Lemma rollback_line_for_refl key exc_val :
  rollback_line_for exc_val
    (Log key ERROR
       ("rolling back transaction. Exception = [" +:+ py_str (exc_val_text exc_val) +:+ "]"))
  = true.
Proof. cbn. apply String.eqb_refl. Qed.

Lemma is_rollback_line_rollback key (s : string) :
  is_rollback_line (Log key ERROR ("rolling back transaction. Exception = [" +:+ s))
  = true.
Proof. reflexivity. Qed.

Lemma is_rollback_line_text (s : string) :
  starts_with "rolling back transaction. Exception = ["
    ("rolling back transaction. Exception = [" +:+ s) = true.
Proof. reflexivity. Qed.

Lemma wp_env {S A} (m : M S A) (P : Env → Prop) s e :
  wp m (fun _ _ e' => P e') (fun _ _ e' => P e') (fun _ e' => P e') s e →
  P (env (m s e)).
Proof. unfold wp. by destruct (m s e) as [[a|x|] s' e']. Qed.

Lemma adds_trans e e' e'' (P P' R : list event → Prop) :
  adds e e' P → adds e' e'' P' →
  (∀ evs evs', P evs → P' evs' → R (evs ++ evs')) →
  adds e e'' R.
Proof.
  intros (evs & He & HP) (evs' & He' & HP') HR. exists (evs ++ evs').
  rewrite He', He, app_assoc. auto.
Qed.

(** Close a leaf: the events added are those after [trace e]. *)
Ltac adds_leaf :=
  unfold adds; cbn [emit trace]; rewrite <- ?app_assoc;
  eexists; split; [reflexivity|];
  cbn [app];
  rewrite ?count_cons, ?count_nil, ?rollback_line_for_refl, ?is_rollback_line_rollback;
  cbn [is_commit_line is_rollback_line rollback_line_for];
  try done.

(** [commit_transaction] runs: its line is logged, once, and no rollback
    line, whatever comes of the call. *)
Lemma commit_transaction_adds (r : ref) (p : ConnectionPool.t) (e : Env) :
  adds e (env (commit_transaction r p e))
    (fun evs => count is_commit_line evs = 1%nat ∧ count is_rollback_line evs = 0%nat).
Proof.
  apply wp_env. unfold commit_transaction, finish_transaction.
  destruct p as [eng cd conns cyc plk max key]. wp_go; adds_leaf.
Qed.

Lemma rollback_transaction_adds (r : ref) (exc_val : option exn)
    (p : ConnectionPool.t) (e : Env) :
  adds e (env (rollback_transaction r exc_val p e))
    (fun evs => count is_commit_line evs = 0%nat ∧ count is_rollback_line evs = 1%nat ∧
                count (rollback_line_for exc_val) evs = 1%nat).
Proof.
  apply wp_env. unfold rollback_transaction, finish_transaction.
  destruct p as [eng cd conns cyc plk max key]. wp_go; adds_leaf.
Qed.

(** [WaitableConnection.__exit__]: commit when the block ended normally,
    rollback with the exception the block raised otherwise. *)
Lemma exit_adds {A} (r : ref) (o : outcome A) (p : ConnectionPool.t) (e : Env) :
  o ≠ Blocks →
  adds e (env (__exit__ r match o with Raises x => Some x | _ => None end p e))
    (on_exit o Some).
Proof.
  intros Ho. destruct o as [a|x|]; [| |done]; unfold __exit__, on_exit.
  - pose proof (commit_transaction_adds r p e) as H.
    unfold bind. by destruct (commit_transaction r p e) as [[[]|y|] p' e'].
  - pose proof (rollback_transaction_adds r (Some x) p e) as H.
    unfold bind. by destruct (rollback_transaction r (Some x) p e) as [[[]|y|] p' e'].
Qed.

(** The [with] statement runs [exit] once after a block that ended, with
    the exception the block raised; the trace ends with what [exit]
    added. *)
Lemma with_stmt_adds {S X A} (enter : M S X) (exit : option exn → M S bool)
    (block : X → M S A) (P : outcome A → list event → Prop)
    (x : X) (s s1 : S) (e e1 : Env) :
  enter s e = mkResult (Returns x) s1 e1 →
  adds e1 (env (block x s1 e1)) no_commit_or_rollback →
  (out (block x s1 e1) ≠ Blocks →
   adds (env (block x s1 e1))
     (env (exit match out (block x s1 e1) with Raises y => Some y | _ => None end
             (state (block x s1 e1)) (env (block x s1 e1))))
     (P (out (block x s1 e1)))) →
  (∀ o evs evs', no_commit_or_rollback evs → P o evs' → P o (evs ++ evs')) →
  (∀ evs, no_commit_or_rollback evs → P Blocks evs) →
  adds e1 (env (with_stmt enter exit block s e)) (P (out (block x s1 e1))).
Proof.
  intros Henter Hblock Hexit Happ Hblocks. unfold with_stmt, bind at 1.
  rewrite Henter.
  destruct (block x s1 e1) as [[a|y|] s2 e2]; cbn [out state env] in *.
  - eapply adds_trans; [exact Hblock| |by apply Happ].
    specialize (Hexit ltac:(done)). unfold bind.
    by destruct (exit None s2 e2) as [[b|z|] s3 e3].
  - eapply adds_trans; [exact Hblock| |by apply Happ].
    specialize (Hexit ltac:(done)). unfold bind.
    by destruct (exit (Some y) s2 e2) as [[[]|z|] s3 e3].
  - destruct Hblock as (evs & He & Hq). exists evs. auto.
Qed.

Lemma on_exit_app {A} (o : outcome A) context evs evs' :
  no_commit_or_rollback evs → on_exit o context evs' → on_exit o context (evs ++ evs').
Proof.
  intros [Hc Hr]. destruct o as [a|x|]; cbn; [| |done]; rewrite !count_app, ?Hc, ?Hr.
  - done.
  - intros (? & ? & ?). repeat split; [done..|].
    assert (count (rollback_line_for (context x)) evs = 0%nat); [|lia].
    clear -Hr. induction evs as [|ev evs IH]; [done|].
    rewrite count_cons in *.
    destruct (is_rollback_line ev) eqn:E; [done|].
    assert (rollback_line_for (context x) ev = false) as ->; [|by apply IH].
    destruct ev as [key [] msg|]; try done.
    unfold rollback_line_for, is_rollback_line in *.
    destruct (String.eqb_spec msg
                ("rolling back transaction. Exception = [" +:+
                 py_str (exc_val_text (context x)) +:+ "]")) as [->|]; [|done].
    by rewrite is_rollback_line_text in E.
Qed.

(** ** The trace only grows *)

Section Grows.
Context {S : Type}.

Lemma grows_ret {A} (a : A) : grows (S:=S) (ret a).
Proof. by intros s e. Qed.

Lemma grows_raise {A} x : grows (S:=S) (raise (A:=A) x).
Proof. by intros s e. Qed.

Lemma grows_gets {A} (f : S → A) : grows (gets f).
Proof. by intros s e. Qed.

Lemma grows_modify (f : S → S) : grows (modify f).
Proof. by intros s e. Qed.

Lemma grows_tick : grows (S:=S) tick.
Proof. by intros s e. Qed.

Lemma grows_ask c : grows (S:=S) (ask c).
Proof. intros s e. cbn. rewrite length_app. lia. Qed.

Lemma grows_log_to key lvl msg : grows (S:=S) (log_to key lvl msg).
Proof. intros s e. cbn. rewrite length_app. lia. Qed.

Lemma grows_lift_exn {A} (x : exn + A) : grows (S:=S) (lift_exn x).
Proof. by destruct x; intros ? ?. Qed.

Lemma grows_fmt_msg fmt args : grows (S:=S) (fmt_msg fmt args).
Proof. unfold fmt_msg. by destruct (py_format fmt args); intros ? ?. Qed.

Lemma grows_bind {A C} (m : M S A) (f : A → M S C) :
  grows m → (∀ a, grows (f a)) → grows (bind m f).
Proof.
  intros Hm Hf s e. specialize (Hm s e). unfold bind.
  destruct (m s e) as [[a|x|] s' e']; cbn in *; [|done..].
  specialize (Hf a s' e'). lia.
Qed.

Lemma grows_try_except {A} (m : M S A) (h : exn → M S A) :
  grows m → (∀ x, grows (h x)) → grows (try_except m h).
Proof.
  intros Hm Hh s e. specialize (Hm s e). unfold try_except.
  destruct (m s e) as [[a|x|] s' e']; cbn in *; [done| |done].
  specialize (Hh x s' e'). lia.
Qed.

Lemma grows_try_finally {A} (m : M S A) (f : M S unit) :
  grows m → grows f → grows (try_finally m f).
Proof.
  intros Hm Hf s e. specialize (Hm s e). unfold try_finally.
  destruct (m s e) as [[a|x|] s' e']; cbn in *; [| |done];
    specialize (Hf s' e'); destruct (f s' e') as [[[]|y|] s'' e'']; cbn in *; lia.
Qed.

Lemma grows_acquire (held : S → bool) (set_held : bool → S → S) :
  grows (acquire held set_held).
Proof. intros s e. unfold acquire. by destruct (held s). Qed.

Lemma grows_release (held : S → bool) (set_held : bool → S → S) :
  grows (release held set_held).
Proof. intros s e. unfold release. by destruct (held s). Qed.

Lemma grows_zoom {T A} (get : S → T) (set : T → S → S) (m : M T A) :
  grows m → grows (zoom get set m).
Proof.
  intros Hm s e. specialize (Hm (get s) e). unfold zoom.
  by destruct (m (get s) e) as [o t' e'].
Qed.

Lemma grows_on_object {B} p (m : M ConnectionPool.t B) :
  grows m → grows (S:=S) (ConnectionPool.on_object p m).
Proof.
  intros Hm s e. specialize (Hm p e). unfold ConnectionPool.on_object.
  by destruct (m p e) as [[a|x|] p' e'].
Qed.

End Grows.

Lemma grows_item {A} (i : Z) : grows (ConnectionCycle.item (A:=A) i).
Proof. intros c e. unfold ConnectionCycle.item. by destruct (py_index _ _). Qed.

Lemma grows_del_item {A} (i : Z) : grows (ConnectionCycle.del_item (A:=A) i).
Proof. intros c e. unfold ConnectionCycle.del_item. by destruct (py_del _ _). Qed.

Lemma grows_handle {B} r (m : M WaitableConnection.t B) :
  grows m → grows (ConnectionPool.handle r m).
Proof.
  intros Hm p e. unfold ConnectionPool.handle.
  destruct (ConnectionPool._connections p !! r) as [h|]; [|done].
  specialize (Hm h e). by destruct (m h e) as [o h' e'].
Qed.

Lemma grows_pool {B} key (m : M ConnectionPool.t B) :
  grows m → grows (ConnectionPool.pool key m).
Proof.
  intros Hm pools e. unfold ConnectionPool.pool.
  destruct (pools !! key) as [p|]; [|done].
  specialize (Hm p e). by destruct (m p e) as [o p' e'].
Qed.

Create HintDb grows.

Ltac grows_step :=
  lazymatch goal with
  | |- grows (bind _ _) => apply grows_bind; [|intros ?]
  | |- grows (ret _) => apply grows_ret
  | |- grows (raise _) => apply grows_raise
  | |- grows (gets _) => apply grows_gets
  | |- grows (modify _) => apply grows_modify
  | |- grows tick => apply grows_tick
  | |- grows (ask _) => apply grows_ask
  | |- grows (log_to _ _ _) => apply grows_log_to
  | |- grows (lift_exn _) => apply grows_lift_exn
  | |- grows (fmt_msg _ _) => apply grows_fmt_msg
  | |- grows (try_except _ _) => apply grows_try_except; [|intros ?]
  | |- grows (try_finally _ _) => apply grows_try_finally
  | |- grows (acquire _ _) => apply grows_acquire
  | |- grows (release _ _) => apply grows_release
  | |- grows (zoom _ _ _) => apply grows_zoom
  | |- grows (ConnectionPool.on_object _ _) => apply grows_on_object
  | |- grows (ConnectionCycle.item _) => apply grows_item
  | |- grows (ConnectionCycle.del_item _) => apply grows_del_item
  | |- grows (ConnectionPool.handle _ _) => apply grows_handle
  | |- grows (ConnectionPool.pool _ _) => apply grows_pool
  | |- grows (if ?b then _ else _) => destruct b
  | |- grows (match ?x with _ => _ end) => destruct x
  | |- grows ?m => first [ solve [auto with grows] | unfold_head m ]
  end.

Ltac grows_go := repeat grows_step.

Lemma create_connection_grows raw lock : grows (ConnectionPool.create_connection raw lock).
Proof. grows_go. Qed.

Lemma create_connections_grows n : grows (ConnectionPool.create_connections n).
Proof.
  induction n as [|n IH]; cbn [ConnectionPool.create_connections].
  - apply grows_ret.
  - apply grows_bind; [apply create_connection_grows|by intros _].
Qed.

#[local] Hint Resolve create_connection_grows create_connections_grows : grows.

Lemma get_pooled_connection_grows details :
  grows (ConnectionPool.get_pooled_connection details).
Proof. grows_go. Qed.

Lemma start_transaction_grows r : grows (start_transaction r).
Proof. grows_go. Qed.

(** ** The scoped-acquisition wrappers *)

(** [TransactionManager.__exit__]: commit when the block ended normally,
    rollback otherwise, and the rollback is given no exception. *)
Lemma manager_exit_adds {A} (o : outcome A) (w : TransactionManager.World) (e : Env)
    key r p :
  o ≠ Blocks →
  TransactionManager._waitable_connection (TransactionManager.self w) = Some (key, r) →
  TransactionManager.POOLS w !! key = Some p →
  adds e (env (TransactionManager.__exit__ match o with Raises x => Some x | _ => None end w e))
    (on_exit o (fun _ => None)).
Proof.
  intros Ho Hwc Hp. destruct o as [a|x|]; [| |done];
    unfold TransactionManager.__exit__, TransactionManager.waitable_connection,
      TransactionManager.registry, zoom, ConnectionPool.pool, on_exit, bind, gets;
    cbn [out state env]; rewrite Hwc, Hp.
  - pose proof (commit_transaction_adds r p e) as H.
    by destruct (commit_transaction r p e) as [[[]|y|] p' e'].
  - pose proof (rollback_transaction_adds r None p e) as H.
    by destruct (rollback_transaction r None p e) as [[[]|y|] p' e'].
Qed.

(** [WaitableConnection.__enter__] that returns has begun a transaction. *)
Lemma enter_begins (r : ref) (c : Connection) (p p1 : ConnectionPool.t) (e e1 : Env) :
  __enter__ r p e = mkResult (Returns c) p1 e1 →
  transaction_begun r c p1 (length (trace e)) (trace e1).
Proof.
  unfold __enter__. intros H.
  destruct (start_transaction_returns r c p e) as (h & n & Hh & _ & _ & _ & Ht & Hn & Hb);
    [by rewrite H|].
  rewrite H in *. by exists h, n.
Qed.

(** So has a [TransactionManager.__enter__] that returns, on the handle it
    keeps in [_waitable_connection]. *)
Lemma manager_enter_begins (c : Connection) (w w1 : TransactionManager.World)
    (e e1 : Env) :
  TransactionManager.__enter__ w e = mkResult (Returns c) w1 e1 →
  ∃ key r p1,
    TransactionManager._waitable_connection (TransactionManager.self w1) = Some (key, r) ∧
    TransactionManager.POOLS w1 !! key = Some p1 ∧
    transaction_begun r c p1 (length (trace e)) (trace e1).
Proof.
  unfold TransactionManager.__enter__, TransactionManager.waitable_connection,
    TransactionManager.registry, zoom, try_except, ConnectionPool.pool, bind, gets, modify.
  cbn [out state env].
  pose proof (get_pooled_connection_grows
                (TransactionManager._connection_details (TransactionManager.self w))
                (TransactionManager.POOLS w) e) as Hg.
  destruct (ConnectionPool.get_pooled_connection _ (TransactionManager.POOLS w) e)
    as [[[[key r]|]|x|] R e']; cbn [out state env] in *; try discriminate.
  cbn [TransactionManager.self TransactionManager.set_self TransactionManager._waitable_connection TransactionManager.POOLS TransactionManager.set_POOLS].
  destruct (R !! key) as [p|] eqn:Hp; cbn [out state env]; try discriminate.
  pose proof (start_transaction_returns r c p e') as Hs.
  destruct (start_transaction r p e') as [[c'|x|] p1 e1'] eqn:Hst; cbn [out state env] in *; try discriminate.
  unfold ret. intros [= -> <- <-]. exists key, r, p1. cbn.
  rewrite lookup_insert_eq. split; [done|]. split; [done|].
  destruct Hs as (h & n & Hh & _ & _ & _ & Ht & Hn & Hb); [done|].
  exists h, n. repeat split; [done..|lia|done].
Qed.

(** C7.  Used as context managers, [WaitableConnection] and
    [TransactionManager] begin a transaction on entry, whenever entry
    returns; and after a block that does not itself commit or roll back,
    exactly one of [commit_transaction] and [rollback_transaction] has
    run, whatever comes of that call: [commit_transaction] when the block
    ended normally, [rollback_transaction] when it raised.
    [WaitableConnection.__exit__] hands the rollback the exception of the
    block.  [TransactionManager.__exit__] receives that exception and
    does not hand it on: it calls [rollback_transaction()] with no
    argument, so the rollback it runs has lost the context of the failure
    and records [None] in its place. *)
Theorem wrappers_begin_then_commit_or_rollback :
  (∀ A (block : Connection → M ConnectionPool.t A) r p e c p1 e1,
     quiet_block block →
     __enter__ r p e = mkResult (Returns c) p1 e1 →
     transaction_begun r c p1 (length (trace e)) (trace e1) ∧
     adds e1 (env (with_stmt (__enter__ r) (__exit__ r) block p e))
       (on_exit (out (block c p1 e1)) Some)) ∧
  (∀ A (block : Connection → M TransactionManager.World A) w e c w1 e1,
     quiet_managed_block block →
     TransactionManager.__enter__ w e = mkResult (Returns c) w1 e1 →
     (∃ key r p1,
        TransactionManager._waitable_connection (TransactionManager.self w1)
          = Some (key, r) ∧
        TransactionManager.POOLS w1 !! key = Some p1 ∧
        transaction_begun r c p1 (length (trace e)) (trace e1)) ∧
     adds e1
       (env (with_stmt TransactionManager.__enter__ TransactionManager.__exit__ block w e))
       (on_exit (out (block c w1 e1)) (fun _ => None))).
Proof.
  split.
  - intros A block r p e c p1 e1 Hq Henter. split; [by apply (enter_begins r c p p1 e e1)|].
    apply (with_stmt_adds (__enter__ r) (__exit__ r) block (fun o => on_exit o Some)
             c p p1 e e1); [done|apply Hq| |intros o evs evs'; apply on_exit_app|done].
    intros Ho. exact (exit_adds r (out (block c p1 e1)) (state (block c p1 e1))
                       (env (block c p1 e1)) Ho).
  - intros A block w e c w1 e1 Hq Henter.
    destruct (manager_enter_begins c w w1 e e1 Henter) as (key & r & p1 & Hwc & Hp & Hb).
    split; [by exists key, r, p1|].
    destruct (Hq c w1 e1) as (Hadds & Hself & Hpools).
    apply (with_stmt_adds TransactionManager.__enter__ TransactionManager.__exit__ block
             (fun o => on_exit o (fun _ => None)) c w w1 e e1);
      [done|done| |intros o evs evs'; apply on_exit_app|done].
    destruct (Hpools key) as [p2 Hp2]; [by rewrite Hp|].
    intros Ho. apply (manager_exit_adds (out (block c w1 e1)) _ _ key r p2);
      [done|by rewrite Hself|done].
Qed.

(** The run that shows it: under a [TransactionManager] the block raises
    [Exception("boom")], the rollback runs once, and what it was given is
    [None], not the exception of the block. *)
Lemma manager_rollback_without_exception :
  let run := with_stmt TransactionManager.__enter__ TransactionManager.__exit__
               failing_block in
  let evs := emitted run example_world (env scenario_start) in
  out (run example_world (env scenario_start)) = Raises (Exception "boom") ∧
  count is_rollback_line evs = 1%nat ∧
  count (rollback_line_for (Some (Exception "boom"))) evs = 0%nat ∧
  count (rollback_line_for None) evs = 1%nat.
Proof. vm_compute. repeat split. Qed.

Lemma failing_block_quiet {S X} : quiet_block (S:=S) (X:=X) failing_block.
Proof. intros x s e. exists []. split; [by rewrite app_nil_r|by vm_compute]. Defined.

Lemma failing_block_quiet_managed {X} : quiet_managed_block (X:=X) failing_block.
Proof.
  intros x w e. split; [|done].
  exists []. split; [by rewrite app_nil_r|by vm_compute].
Defined.

Lemma wrappers_begin_then_commit_or_rollback_witness :
  let p := example_pool 2 [idle_handle "a" 7] 0 in
  let e := env scenario_start in
  adds (env (__enter__ 0%nat p quiet))
    (env (with_stmt (__enter__ 0%nat) (__exit__ 0%nat) failing_block p quiet))
    (on_exit (A:=unit) (Raises (Exception "boom")) Some) ∧
  adds (env (TransactionManager.__enter__ example_world e))
    (env (with_stmt TransactionManager.__enter__ TransactionManager.__exit__
            failing_block example_world e))
    (on_exit (A:=unit) (Raises (Exception "boom")) (fun _ => None)).
Proof.
  cbn zeta. destruct wrappers_begin_then_commit_or_rollback as [HW HT]. split.
  - refine (proj2 (HW unit failing_block 0%nat (example_pool 2 [idle_handle "a" 7] 0) quiet
              {| conn_no := 7; closed := false |} _ _ failing_block_quiet _)).
    vm_compute. reflexivity.
  - refine (proj2 (HT unit failing_block example_world (env scenario_start)
              {| conn_no := 9; closed := false |} _ _ failing_block_quiet_managed _)).
    vm_compute. reflexivity.
Defined.

(** ** ConnectionDetails *)

(** C9.  Two [ConnectionDetails] that differ only in their password have
    the same key and the same printed form: the key is made of host, port,
    database, user and schema, in that order and joined by colons, and the
    printed form is that of the attributes with the password replaced by
    six stars. *)
Theorem password_in_neither_key_nor_repr (d1 d2 : ConnectionDetails.t) :
  differ_only_in_password d1 d2 →
  ConnectionDetails.get_key d1 = ConnectionDetails.get_key d2 ∧
  ConnectionDetails.__repr__ d1 = ConnectionDetails.__repr__ d2 ∧
  ConnectionDetails.get_key d1
    = py_str (ConnectionDetails.host d1) +:+ ":" +:+
      py_str (ConnectionDetails.port d1) +:+ ":" +:+
      py_str (ConnectionDetails.database d1) +:+ ":" +:+
      py_str (ConnectionDetails.user d1) +:+ ":" +:+
      py_str (ConnectionDetails.schema d1) ∧
  ConnectionDetails.__repr__ d1
    = dict_str
        [("dialect", ConnectionDetails.dialect d1);
         ("driver", ConnectionDetails.driver d1);
         ("host", ConnectionDetails.host d1);
         ("port", ConnectionDetails.port d1);
         ("database", ConnectionDetails.database d1);
         ("user", ConnectionDetails.user d1);
         ("password", PStr "******");
         ("schema", ConnectionDetails.schema d1);
         ("disable_ssl", ConnectionDetails.disable_ssl d1)].
Proof.
  destruct d1 as [dialect1 driver1 host1 port1 database1 user1 password1 schema1 ssl1].
  destruct d2 as [dialect2 driver2 host2 port2 database2 user2 password2 schema2 ssl2].
  unfold differ_only_in_password. cbn [ConnectionDetails.dialect ConnectionDetails.driver
    ConnectionDetails.host ConnectionDetails.port ConnectionDetails.database
    ConnectionDetails.user ConnectionDetails.schema ConnectionDetails.disable_ssl].
  intros (-> & -> & -> & -> & -> & -> & -> & ->).
  repeat split; reflexivity.
Qed.

Lemma password_in_neither_key_nor_repr_witness :
  ConnectionDetails.get_key example_details = ConnectionDetails.get_key other_password ∧
  ConnectionDetails.__repr__ example_details = ConnectionDetails.__repr__ other_password ∧
  ConnectionDetails.get_key example_details = "db.local:5432:app:bob:public".
Proof.
  destruct (password_in_neither_key_nor_repr example_details other_password)
    as (Hkey & Hrepr & _ & _).
  - unfold differ_only_in_password. repeat split; reflexivity.
  - split; [exact Hkey|]. split; [exact Hrepr|]. vm_compute. reflexivity.
Defined.

(** * More of the code *)

(** ** More on the rotation *)

Section RotationMore.
Context {A : Type}.
Implicit Types (l : list A) (c : ConnectionCycle.t A).

(** X1.  [add] on a rotation whose list lock is free appends the entry,
    leaves the cursor alone and keeps the rotation invariant; it calls no
    collaborator. *)
Theorem add_appends_and_keeps_cursor c (x : A) e :
  ConnectionCycle._items_lock c = false →
  cursor_valid c →
  let r := ConnectionCycle.add x c e in
  out r = Returns tt ∧
  ConnectionCycle._items (state r) = ConnectionCycle._items c ++ [x] ∧
  ConnectionCycle._pointer (state r) = ConnectionCycle._pointer c ∧
  ConnectionCycle._items_lock (state r) = false ∧
  cursor_valid (state r) ∧
  env r = e.
Proof.
  destruct c as [lk l [v pl] pool]. cbn. intros -> Hv.
  repeat split; try reflexivity.
  unfold cursor_valid, ConnectionCycle.len in *. cbn in *.
  rewrite length_app. cbn.
  destruct (Z.eqb_spec (Z.of_nat (length l)) 0);
    destruct (Z.eqb_spec (Z.of_nat (length l + 1)) 0); lia.
Qed.


(** X2.  [cycle] on a non-empty rotation at rest, whatever the cursor from
    -1 up: it returns the entry Python finds at the cursor, or raises
    [IndexError] when the cursor is past the end; either way the list is
    untouched and the cursor is a valid index afterwards. *)
Theorem cycle_restores_cursor l (v : Z) pool e :
  l ≠ [] → -1 ≤ v →
  let r := ConnectionCycle.cycle (rotation_at l v pool) e in
  cursor_valid (state r) ∧
  ConnectionCycle._items (state r) = l ∧
  (v < Z.of_nat (length l) → ∃ x, py_index l v = Some x ∧ out r = Returns (Some x)) ∧
  (Z.of_nat (length l) ≤ v → out r = Raises IndexError).
Proof.
  intros Hl Hv. cbn zeta. rewrite cycle_at by done. cbn zeta.
  assert (Hlen : 0 < Z.of_nat (length l)) by (destruct l; [done|cbn; lia]).
  assert (Hcv : ∀ o e', cursor_valid (state (mkResult (A:=option A) o
             (rotation_at l (if v + 1 >? Z.of_nat (length l) - 1 then 0 else v + 1) pool) e'))).
  { intros o e'. unfold cursor_valid, ConnectionCycle.len. cbn.
    destruct (Z.eqb_spec (Z.of_nat (length l)) 0); [lia|].
    destruct (Z.gtb_spec (v + 1) (Z.of_nat (length l) - 1)); lia. }
  destruct (py_index l v) as [x|] eqn:Hx.
  - split; [apply Hcv|]. split; [done|]. split; [eauto|].
    intros Hge. unfold py_index in Hx.
    destruct (Z.leb_spec 0 v); destruct (Z.ltb_spec v (Z.of_nat (length l)));
      cbn in Hx; try lia.
    destruct (Z.leb_spec (- Z.of_nat (length l)) v); destruct (Z.ltb_spec v 0);
      cbn in Hx; try lia; done.
  - split; [apply Hcv|]. split; [done|]. split; [|done].
    intros Hlt. exfalso. unfold py_index in Hx.
    destruct (Z.leb_spec 0 v); destruct (Z.ltb_spec v (Z.of_nat (length l)));
      cbn in Hx; try lia.
    + apply lookup_ge_None_1 in Hx. lia.
    + destruct (Z.leb_spec (- Z.of_nat (length l)) v); destruct (Z.ltb_spec v 0);
        cbn in Hx; try lia.
      apply lookup_ge_None_1 in Hx. lia.
Qed.


(** X3.  [peek] reads and nothing else: it leaves the rotation and the
    trace as they were.  On a rotation at rest it answers what the next
    [cycle] will: the same entry, [None] on an empty rotation, the same
    [IndexError] for a cursor outside the list. *)
Theorem peek_reads_what_cycle_returns l (v : Z) pool e :
  let c := rotation_at l v pool in
  state (ConnectionCycle.peek c e) = c ∧
  env (ConnectionCycle.peek c e) = e ∧
  out (ConnectionCycle.peek c e) = out (ConnectionCycle.cycle c e) ∧
  (l = [] → out (ConnectionCycle.peek c e) = Returns None).
Proof.
  cbn zeta. destruct l as [|a l].
  - repeat split; destruct pool; reflexivity.
  - rewrite cycle_at by done. cbn zeta.
    unfold rotation_at, ConnectionCycle.peek, ConnectionCycle.pointer, ConnectionCycle.item,
      AtomicInt.get, ConnectionCycle.len.
    msimpl.
    assert (Hn : (Z.of_nat (S (length l)) =? 0) = false) by (apply Z.eqb_neq; lia).
    rewrite Hn. msimpl.
    destruct (py_index (a :: l) v); repeat split; done.
Qed.

End RotationMore.

Lemma add_appends_and_keeps_cursor_witness :
  let c := rotation_at ["A"; "B"] 1 None in
  ConnectionCycle._items (state (ConnectionCycle.add "C" c quiet)) = ["A"; "B"; "C"] ∧
  cursor_valid (state (ConnectionCycle.add "C" c quiet)).
Proof.
  cbn zeta.
  destruct (add_appends_and_keeps_cursor (rotation_at ["A"; "B"] 1 None) "C" quiet)
    as (_ & Hi & _ & _ & Hc & _).
  - reflexivity.
  - unfold cursor_valid. vm_compute. split; [discriminate|reflexivity].
  - split; [exact Hi|exact Hc].
Defined.

Lemma cycle_restores_cursor_witness :
  let r := ConnectionCycle.cycle (rotation_at ["A"; "B"] (-1) None) quiet in
  cursor_valid (state r) ∧ out r = Returns (Some "B").
Proof.
  cbn zeta.
  destruct (cycle_restores_cursor ["A"; "B"] (-1) None quiet) as (Hc & _ & Hx & _);
    [done|lia|].
  split; [exact Hc|]. reflexivity.
Defined.

Section RotationDelete.
Context {A : Type}.
Implicit Types (l : list A).

(** [_delete_by_index(k)] for an index in the list, whoever holds the list
    lock. *)
Lemma _delete_by_index_at lk l (k : nat) (x : A) (v : Z) pool e :
  l !! k = Some x →
  ConnectionCycle._delete_by_index (Z.of_nat k)
    (ConnectionCycle.mk lk l (AtomicInt.mk v false) pool) e =
  mkResult (Returns (Some x))
    (ConnectionCycle.mk lk (delete k l)
       (AtomicInt.mk (if v >=? Z.of_nat k
                      then if v >=? Z.of_nat (length l) - 1 then 0 else v - 1
                      else v) false) pool) e.
Proof.
  intros Hx. pose proof (lookup_lt_Some _ _ _ Hx) as Hk.
  unfold ConnectionCycle._delete_by_index, ConnectionCycle.pointer, ConnectionCycle.item,
    ConnectionCycle.del_item, AtomicInt.get, AtomicInt.set, AtomicInt.dec,
    ConnectionCycle.len.
  msimpl.
  destruct (Z.geb_spec (Z.of_nat k) (Z.of_nat (length l))); [lia|]. msimpl.
  destruct (v >=? Z.of_nat k); msimpl;
    [destruct (v >=? Z.of_nat (length l) - 1); msimpl|];
    rewrite (py_index_nat _ _ _ Hx); msimpl;
    rewrite (py_del_nat _ _ Hk); reflexivity.
Qed.

Lemma search_first (item_eq : A → A → bool) l1 (x : A) l2 (connection : A) (i : Z) :
  item_eq x connection = true →
  (∀ y, y ∈ l1 → item_eq y connection = false) →
  ConnectionCycle.search item_eq (l1 ++ x :: l2) connection i = i + Z.of_nat (length l1).
Proof.
  intros Hx. revert i. induction l1 as [|y l1 IH]; intros i Hl1; cbn.
  - rewrite Hx. lia.
  - rewrite (Hl1 y) by constructor.
    rewrite IH by (intros z Hz; apply Hl1; by constructor). lia.
Qed.

(** [delete] on a rotation at rest that holds an entry equal to
    [connection]: the first such entry goes. *)
Lemma delete_first_match_at (item_eq : A → A → bool) l1 (x : A) l2
    (connection : A) (v : Z) pool e :
  item_eq x connection = true →
  (∀ y, y ∈ l1 → item_eq y connection = false) →
  ConnectionCycle.delete item_eq connection (rotation_at (l1 ++ x :: l2) v pool) e
  = mkResult (Returns true)
      (rotation_at (l1 ++ l2)
         (if v >=? Z.of_nat (length l1)
          then if v >=? Z.of_nat (length (l1 ++ x :: l2)) - 1 then 0 else v - 1
          else v) pool) e.
Proof.
  intros Hx Hl1.
  assert (Hk : (l1 ++ x :: l2) !! length l1 = Some x)
    by (by rewrite lookup_app_r, Nat.sub_diag).
  unfold ConnectionCycle.delete, rotation_at.
  munfold. cbn -[ConnectionCycle._delete_by_index ConnectionCycle.search].
  rewrite (search_first _ _ _ _ _ 0 Hx Hl1), Z.add_0_l.
  assert (Hne : (Z.of_nat (length l1) =? -1) = false) by (apply Z.eqb_neq; lia).
  rewrite Hne. unfold ConnectionCycle.set_items_lock.
  cbn [ConnectionCycle._items ConnectionCycle._pointer ConnectionCycle._pool].
  rewrite (_delete_by_index_at _ _ _ _ _ _ _ Hk).
  cbn. by rewrite delete_middle.
Qed.

(** X4.  [delete(connection)] on a rotation at rest that holds an entry
    equal to [connection]: it removes the first such entry and no other,
    returns [True] and frees the list lock.  From a valid cursor the
    cursor is valid afterwards, except when the entry removed is the first
    of several and the cursor is on it. *)
Theorem delete_removes_first_match (item_eq : A → A → bool) l1 (x : A) l2
    (connection : A) (v : Z) pool e :
  item_eq x connection = true →
  (∀ y, y ∈ l1 → item_eq y connection = false) →
  let c := rotation_at (l1 ++ x :: l2) v pool in
  let r := ConnectionCycle.delete item_eq connection c e in
  out r = Returns true ∧
  ConnectionCycle._items (state r) = l1 ++ l2 ∧
  ConnectionCycle._items_lock (state r) = false ∧
  env r = e ∧
  (cursor_valid c → (cursor_valid (state r) ↔ ¬ (v = 0 ∧ l1 = [] ∧ l2 ≠ []))).
Proof.
  intros Hx Hl1. cbn zeta. rewrite delete_first_match_at by done.
  do 4 (split; [reflexivity|]).
  unfold cursor_valid, ConnectionCycle.len. cbn.
  rewrite !length_app. cbn.
  destruct (Z.eqb_spec (Z.of_nat (length l1 + S (length l2))) 0); [lia|].
  intros Hv.
  assert (Hnil1 : l1 = [] ↔ length l1 = 0%nat) by (destruct l1; cbn; split; done).
  assert (Hnil2 : l2 ≠ [] ↔ length l2 ≠ 0%nat) by (destruct l2; cbn; split; done).
  rewrite Hnil1, Hnil2.
  destruct (Z.eqb_spec (Z.of_nat (length l1 + length l2)) 0);
    destruct (Z.geb_spec v (Z.of_nat (length l1)));
    try destruct (Z.geb_spec v (Z.of_nat (length l1 + S (length l2)) - 1)); lia.
Qed.

(** X5.  [delete_by_index(i)] on a rotation at rest with a valid cursor,
    for an index that is not one of [0 .. len-1].  At or past the length:
    nothing happens.  From [-len] to [-1]: Python counts from the end, the
    entry at [len + i] is removed, and the cursor is moved as for an index
    it is at or past.  Below [-len]: [IndexError], the list is as it was
    and the lock is free, but the cursor has been moved already. *)
Theorem delete_by_index_outside l (i v : Z) pool e :
  0 ≤ v →
  let n := Z.of_nat (length l) in
  let c := rotation_at l v pool in
  let r := ConnectionCycle.delete_by_index i c e in
  let moved := rotation_at l (if v >=? n - 1 then 0 else v - 1) pool in
  (n ≤ i → r = mkResult (Returns tt) c e) ∧
  (- n ≤ i < 0 →
     r = mkResult (Returns tt)
           (ConnectionCycle.set_items (delete (Z.to_nat (n + i)) l) moved) e) ∧
  (i < - n → r = mkResult (Raises IndexError) moved e).
Proof.
  intros Hv. cbn zeta.
  unfold rotation_at, ConnectionCycle.delete_by_index, ConnectionCycle._delete_by_index,
    ConnectionCycle.pointer, ConnectionCycle.item, ConnectionCycle.del_item,
    AtomicInt.get, AtomicInt.set, AtomicInt.dec, ConnectionCycle.len.
  split; [|split]; intros Hi; msimpl.
  - destruct (Z.geb_spec i (Z.of_nat (length l))); [reflexivity|lia].
  - destruct (Z.geb_spec i (Z.of_nat (length l))); [lia|]. msimpl.
    destruct (Z.geb_spec v i); [|lia]. msimpl.
    assert (Hlt : (Z.to_nat (Z.of_nat (length l) + i) < length l)%nat) by lia.
    destruct (lookup_lt_is_Some_2 l _ Hlt) as [x Hx].
    assert (Hidx : py_index l i = Some x).
    { unfold py_index.
      destruct (Z.leb_spec 0 i); [lia|]. cbn.
      destruct (Z.leb_spec (- Z.of_nat (length l)) i); [|lia].
      destruct (Z.ltb_spec i 0); [|lia]. done. }
    assert (Hdel : py_del l i = Some (delete (Z.to_nat (Z.of_nat (length l) + i)) l)).
    { unfold py_del.
      destruct (Z.leb_spec 0 i); [lia|]. cbn.
      destruct (Z.leb_spec (- Z.of_nat (length l)) i); [|lia].
      destruct (Z.ltb_spec i 0); [|lia]. done. }
    destruct (v >=? Z.of_nat (length l) - 1); msimpl; rewrite Hidx; msimpl;
      rewrite Hdel; reflexivity.
  - destruct (Z.geb_spec i (Z.of_nat (length l))); [lia|]. msimpl.
    destruct (Z.geb_spec v i); [|lia]. msimpl.
    assert (Hidx : py_index l i = None).
    { unfold py_index.
      destruct (Z.leb_spec 0 i); [lia|]. cbn.
      destruct (Z.leb_spec (- Z.of_nat (length l)) i); [lia|]. done. }
    destruct (v >=? Z.of_nat (length l) - 1); msimpl; rewrite Hidx; reflexivity.
Qed.

End RotationDelete.

Lemma delete_removes_first_match_witness :
  let r := ConnectionCycle.delete String.eqb "B" (rotation_at ["A"; "B"; "C"; "B"] 2 None)
             quiet in
  out r = Returns true ∧ ConnectionCycle._items (state r) = ["A"; "C"; "B"].
Proof.
  cbn zeta.
  destruct (delete_removes_first_match String.eqb ["A"] "B" ["C"; "B"] "B" 2 None quiet)
    as (Ho & Hi & _).
  - reflexivity.
  - intros y Hy. apply list_elem_of_singleton in Hy. subst y. reflexivity.
  - split; [exact Ho|exact Hi].
Defined.

Lemma delete_by_index_outside_witness :
  ConnectionCycle.delete_by_index (-3) (rotation_at ["A"; "B"] 0 None) quiet
  = mkResult (Raises IndexError) (rotation_at ["A"; "B"] (-1) None) quiet.
Proof.
  refine (proj2 (proj2 (delete_by_index_outside ["A"; "B"] (-3) 0 None quiet _)) _);
    cbn; lia.
Defined.

(** ** Locks are released and nothing waits *)

Section Calm.
Context {S : Type} (P : S → Prop).

Lemma calm_preserves {A} (m : M S A) : calm P m → preserves P m.
Proof. intros H s e Hs. by apply H. Qed.

Lemma calm_ret {A} (a : A) : calm P (ret a).
Proof. by intros s e. Qed.

Lemma calm_raise {A} x : calm P (raise (A:=A) x).
Proof. by intros s e. Qed.

Lemma calm_gets {A} (f : S → A) : calm P (gets f).
Proof. by intros s e. Qed.

Lemma calm_ask c : calm P (ask c).
Proof. by intros s e. Qed.

Lemma calm_tick : calm P tick.
Proof. by intros s e. Qed.

Lemma calm_log_to key lvl msg : calm P (log_to key lvl msg).
Proof. by intros s e. Qed.

Lemma calm_lift_exn {A} (x : exn + A) : calm P (lift_exn x).
Proof. by destruct x as [y|a]; intros s e. Qed.

Lemma calm_fmt_msg fmt args : calm P (fmt_msg fmt args).
Proof. unfold fmt_msg. by destruct (py_format fmt args) as [y|a]; intros s e. Qed.

Lemma calm_modify (f : S → S) : (∀ s, P s → P (f s)) → calm P (modify f).
Proof. intros H s e Hs. split; [by apply H|done]. Qed.

Lemma calm_bind {A C} (m : M S A) (f : A → M S C) :
  calm P m → (∀ a, calm P (f a)) → calm P (bind m f).
Proof.
  intros Hm Hf s e Hs. unfold bind. destruct (Hm s e Hs) as [Hs' Ho].
  destruct (m s e) as [[a|x|] s' e']; cbn in *; [by apply Hf|done..].
Qed.

Lemma calm_try_except {A} (m : M S A) (h : exn → M S A) :
  calm P m → (∀ x, calm P (h x)) → calm P (try_except m h).
Proof.
  intros Hm Hh s e Hs. unfold try_except. destruct (Hm s e Hs) as [Hs' Ho].
  destruct (m s e) as [[a|x|] s' e']; cbn in *; [done|by apply Hh|done].
Qed.

Lemma calm_release (held : S → bool) (set_held : bool → S → S) :
  (∀ s, P s → P (set_held false s)) → calm P (release held set_held).
Proof. intros H s e Hs. unfold release. destruct (held s); cbn; auto. Qed.

(** [with lock: body]: the lock is free before and after, held inside. *)
Lemma calm_with_lock {A} (P' : S → Prop) (held : S → bool) (set_held : bool → S → S)
    (body : M S A) :
  (∀ s, P s → held s = false ∧ P' (set_held true s)) →
  (∀ s, P' s → held s = true ∧ P (set_held false s)) →
  calm P' body → calm P (with_lock held set_held body).
Proof.
  intros Hin Hout Hb s e Hs. unfold with_lock, acquire, bind, try_finally, release.
  destruct (Hin s Hs) as [-> Hs1].
  destruct (Hb _ e Hs1) as [Hs2 Ho].
  destruct (body (set_held true s) e) as [[a|x|] s2 e2]; cbn in *; [| |done];
    destruct (Hout s2 Hs2) as [-> Hs3]; done.
Qed.

End Calm.

Lemma wp_calm {S A} (P : S → Prop) (m : M S A) :
  (∀ s e, P s → wp m (fun _ s' _ => P s') (fun _ s' _ => P s') (fun _ _ => False) s e) →
  calm P m.
Proof.
  intros H s e Hs. specialize (H s e Hs). unfold wp in H.
  by destruct (m s e) as [[a|x|] s' e'].
Qed.

Ltac rotation_calm_go :=
  apply wp_calm; intros [lk l [v pl] pool] e [Hlk Hpl]; cbn in Hlk, Hpl; subst lk pl;
  wp_go; done.

Lemma size_calm {A} : rotation_calm (ConnectionCycle.size (A:=A)).
Proof. rotation_calm_go. Qed.

Lemma peek_calm {A} : rotation_calm (ConnectionCycle.peek (A:=A)).
Proof. rotation_calm_go. Qed.

Lemma cycle_calm {A} : rotation_calm (ConnectionCycle.cycle (A:=A)).
Proof. rotation_calm_go. Qed.

Lemma add_calm {A} (x : A) : rotation_calm (ConnectionCycle.add x).
Proof. rotation_calm_go. Qed.

Lemma delete_calm {A} item_eq (x : A) : rotation_calm (ConnectionCycle.delete item_eq x).
Proof. rotation_calm_go. Qed.

Lemma delete_by_index_calm {A} i : rotation_calm (ConnectionCycle.delete_by_index (A:=A) i).
Proof. rotation_calm_go. Qed.

Section Steady.
Context (b c : bool) (n : nat).

Lemma steady_set_lock a a' p :
  steady a b c n p → steady a' b c n (ConnectionPool.set_lock a' p).
Proof. destruct p. unfold steady. cbn. tauto. Qed.

Lemma steady_lock a p : steady a b c n p → ConnectionPool._lock p = a.
Proof. by intros [? _]. Qed.

Lemma steady_set_engine a x p :
  steady a b c n p → steady a b c n (ConnectionPool.set_engine x p).
Proof. by destruct p. Qed.

Lemma steady_insert a r h p :
  steady a b c n p →
  steady a b c n (ConnectionPool.set_connections (<[r := h]> (ConnectionPool._connections p)) p).
Proof. destruct p. unfold steady. cbn. by rewrite length_insert. Qed.

Lemma steady_append a h p :
  steady a b c n p →
  steady a b c n (ConnectionPool.set_connections (ConnectionPool._connections p ++ [h]) p).
Proof. destruct p. unfold steady. cbn. rewrite length_app. intuition lia. Qed.

(** A method of a handle changes neither the locks of the pool nor the
    number of handle objects. *)
Lemma handle_steady {C} a r (m : M WaitableConnection.t C) :
  preserves (steady a b c n) (ConnectionPool.handle r m).
Proof.
  intros p e Hp. unfold ConnectionPool.handle.
  destruct (ConnectionPool._connections p !! r) as [h|]; [|done].
  destruct (m h e) as [o h' e']. by apply steady_insert.
Qed.

Lemma handle_calm {C} a r (m : M WaitableConnection.t C) :
  (∀ h e, out (m h e) ≠ Blocks) → calm (steady a b c n) (ConnectionPool.handle r m).
Proof.
  intros Hm p e Hp. split; [by apply handle_steady|].
  unfold ConnectionPool.handle.
  destruct (ConnectionPool._connections p !! r) as [h|]; [|done].
  specialize (Hm h e). by destruct (m h e) as [o h' e'].
Qed.

End Steady.

Lemma rotation_steady {C} a n (m : M (ConnectionCycle.t ref) C) :
  rotation_calm m → calm (steady a false false n) (ConnectionPool.rotation m).
Proof.
  intros Hm p e (Ha & Hb & Hc & Hn). unfold ConnectionPool.rotation, zoom.
  destruct (Hm (ConnectionPool._connection_cycle p) e) as [[Hb' Hc'] Ho]; [done|].
  destruct (m _ e) as [o c' e']. destruct p. by cbn in *.
Qed.

Lemma calm_pool_lock {A} n (body : M ConnectionPool.t A) :
  calm (steady true false false n) body →
  calm (steady false false false n)
    (with_lock ConnectionPool._lock ConnectionPool.set_lock body).
Proof.
  apply calm_with_lock; intros p Hp;
    (split; [exact (steady_lock _ _ _ _ _ Hp)|exact (steady_set_lock _ _ _ _ _ _ Hp)]).
Qed.

Create HintDb calm.

#[local] Hint Resolve steady_set_engine steady_append steady_insert
  size_calm peek_calm cycle_calm add_calm delete_calm delete_by_index_calm : calm.

Ltac handle_side :=
  intros [? ? [] ? ?] ?;
  unfold acquire, release, gets, modify; cbn; done.

Ltac calm_step :=
  lazymatch goal with
  | |- calm _ (bind _ _) => apply calm_bind; [|intros ?]
  | |- calm _ (ret _) => apply calm_ret
  | |- calm _ (raise _) => apply calm_raise
  | |- calm _ (gets _) => apply calm_gets
  | |- calm _ (locked _) => apply calm_gets
  | |- calm _ (ask _) => apply calm_ask
  | |- calm _ tick => apply calm_tick
  | |- calm _ (log_to _ _ _) => apply calm_log_to
  | |- calm _ (lift_exn _) => apply calm_lift_exn
  | |- calm _ (fmt_msg _ _) => apply calm_fmt_msg
  | |- calm _ (modify _) => apply calm_modify; intros ? ?; solve [auto with calm]
  | |- calm _ (try_except _ _) => apply calm_try_except; [|intros ?]
  | |- calm _ (with_lock ConnectionPool._lock ConnectionPool.set_lock _) =>
      apply calm_pool_lock
  | |- calm _ (ConnectionPool.handle _ _) => apply handle_calm; handle_side
  | |- calm _ (ConnectionPool.rotation _) => apply rotation_steady; solve [auto with calm]
  | |- calm _ (if ?b then _ else _) => destruct b
  | |- calm _ (match ?x with _ => _ end) => destruct x
  | |- calm _ ?m => first [ solve [auto with calm] | unfold_head m ]
  end.

Ltac calm_go := repeat calm_step.

Section SteadyMethods.
Context (n : nat).

Lemma log_calm a msg lvl : calm (steady a false false n) (ConnectionPool.log msg lvl).
Proof. calm_go. Qed.

Lemma connect_calm a : calm (steady a false false n) ConnectionPool.connect.
Proof. calm_go. Qed.

Lemma create_db_engine_calm recreate :
  calm (steady false false false n) (ConnectionPool.create_db_engine recreate).
Proof. calm_go. Qed.

#[local] Hint Resolve log_calm connect_calm create_db_engine_calm : calm.

Lemma _create_connection_calm a :
  calm (steady a false false n) ConnectionPool._create_connection.
Proof. calm_go. Qed.

#[local] Hint Resolve _create_connection_calm : calm.

Lemma create_connection_calm raw lock :
  calm (steady false false false n) (ConnectionPool.create_connection raw lock).
Proof. calm_go. Qed.

Lemma remove_connection_calm r :
  calm (steady false false false n) (ConnectionPool.remove_connection r).
Proof. calm_go. Qed.

#[local] Hint Resolve create_connection_calm remove_connection_calm : calm.

Lemma get_connection_calm :
  calm (steady false false false n) ConnectionPool.get_connection.
Proof. calm_go. Qed.

Lemma self_heal_calm r : calm (steady false false false n) (self_heal r).
Proof. calm_go. Qed.

Lemma finish_transaction_calm r c :
  calm (steady false false false n) (finish_transaction r c).
Proof. calm_go. Qed.

#[local] Hint Resolve get_connection_calm self_heal_calm finish_transaction_calm : calm.

Lemma commit_transaction_calm r : calm (steady false false false n) (commit_transaction r).
Proof. calm_go. Qed.

Lemma rollback_transaction_calm r exc_val :
  calm (steady false false false n) (rollback_transaction r exc_val).
Proof. calm_go. Qed.

Lemma close_transaction_calm r : calm (steady false false false n) (close_transaction r).
Proof. calm_go. Qed.

(** [start_transaction] may wait, for the lock of its handle; the locks of
    the pool are not involved. *)
Lemma start_transaction_steady r :
  preserves (steady false false false n) (start_transaction r).
Proof.
  unfold start_transaction.
  repeat first
    [ apply preserves_bind; [|intros ?]
    | apply handle_steady
    | apply calm_preserves; solve [calm_go]
    | match goal with
      | |- preserves _ (if ?b then _ else _) => destruct b
      | |- preserves _ (match ?x with _ => _ end) => destruct x
      end ].
Qed.

Lemma perform_calm o :
  (∀ r, o ≠ StartTransaction r) → calm (steady false false false n) (perform o).
Proof.
  intros Ho.
  destruct o as [|lock|r|r|r|r exc_val|r]; try (by destruct (Ho r));
    unfold perform, discard;
    first [ apply commit_transaction_calm | apply rollback_transaction_calm
          | apply close_transaction_calm | calm_go ].
Qed.

Lemma perform_steady o : preserves (steady false false false n) (perform o).
Proof.
  destruct o as [|lock|r|r0|r|r exc_val|r].
  4:{ unfold perform, discard. apply preserves_bind; [apply start_transaction_steady|].
      intros ?. apply preserves_ret. }
  all: apply calm_preserves, perform_calm; by intros r'.
Qed.

Lemma run_steady ops p e :
  steady false false false n p → steady false false false n (run ops p e).1.
Proof.
  revert p e. induction ops as [|o ops IH]; intros p e Hp; [done|].
  cbn [run]. pose proof (perform_steady o p e Hp) as H.
  destruct (perform o p e) as [out' p' e']. by apply IH.
Qed.

End SteadyMethods.

(** ** The registry: [initialize] and [instance] *)

Lemma wp_mono {S A} (m : M S A) (Q Q' : A → S → Env → Prop) (E E' : exn → S → Env → Prop)
    (B B' : S → Env → Prop) s e :
  wp m Q E B s e →
  (∀ a s' e', Q a s' e' → Q' a s' e') →
  (∀ x s' e', E x s' e' → E' x s' e') →
  (∀ s' e', B s' e' → B' s' e') →
  wp m Q' E' B' s e.
Proof. unfold wp. destruct (m s e) as [[a|x|] s' e']; auto. Qed.

Lemma wp_on_object {S B} (p : ConnectionPool.t) (m : M ConnectionPool.t B)
    (Q : B * ConnectionPool.t → S → Env → Prop) E Bk (s : S) e :
  wp m (fun b p' e' => Q (b, p') s e') (fun x _ e' => E x s e') (fun _ e' => Bk s e') p e →
  wp (ConnectionPool.on_object p m) Q E Bk s e.
Proof. unfold wp, ConnectionPool.on_object. by destruct (m p e) as [[a|x|] p' e']. Qed.

Lemma wp_pool {B} key (m : M ConnectionPool.t B) Q E Bk
    (pools : gmap string ConnectionPool.t) e :
  match pools !! key with
  | Some p => wp m (fun a p' => Q a (<[key := p']> pools))
                   (fun x p' => E x (<[key := p']> pools))
                   (fun p' => Bk (<[key := p']> pools)) p e
  | None => E KeyError pools e
  end →
  wp (ConnectionPool.pool key m) Q E Bk pools e.
Proof.
  unfold wp, ConnectionPool.pool. destruct (pools !! key) as [p|]; [|done].
  by destruct (m p e) as [[a|x|] p' e'].
Qed.

Lemma grown_by_zero max n : grown_by max n 0 = Z.to_nat (Z.min (Z.of_nat n) max).
Proof.
  assert (H : ∀ k, grown_by max n k
              = Z.to_nat (Z.max (Z.of_nat k) (Z.min (Z.of_nat (k + n)) max))).
  { induction n as [|n IH]; intros k; cbn [grown_by].
    - lia.
    - rewrite IH. unfold grown. destruct (Z.ltb_spec (Z.of_nat k) max); lia. }
  rewrite H. lia.
Qed.

(** One more [create_connection()] on a filled pool: a handle more, unless
    the pool is at its maximum. *)
Lemma create_connection_fills d max k p e :
  filled d max k p →
  wp (ConnectionPool.create_connection false false)
     (fun _ p' _ => filled d max (grown max k) p')
     (fun _ _ _ => True) (fun _ _ => True) p e.
Proof.
  destruct p as [eng cd conns [lk l [v pl] pool] plk mx key].
  intros ([en Hen] & Hcd & Hmax & (Hlk & Hil & Hpl & _) & Hlen & Hitems).
  cbn in *. subst.
  unfold grown.
  wp_go; try done; bool_to_Z;
    rewrite ?length_seq in *;
    destruct (Z.ltb_spec (Z.of_nat (length conns)) max); try lia;
    unfold filled, locks_free, steady; rewrite ?seq_S; cbn;
    rewrite ?length_app; cbn; repeat split; eauto; lia.
Qed.

Lemma create_connections_fill d max n : ∀ k p e,
  filled d max k p →
  wp (ConnectionPool.create_connections n)
     (fun _ p' _ => filled d max (grown_by max n k) p')
     (fun _ _ _ => True) (fun _ _ => True) p e.
Proof.
  induction n as [|n IH]; intros k p e Hp; cbn [ConnectionPool.create_connections grown_by].
  - by apply wp_ret.
  - apply wp_bind. eapply wp_mono; [by apply create_connection_fills|..]; [|done..].
    intros a p' e' Hp'. by apply IH.
Qed.

Lemma fmt_creating_pool (key : string) (max : Z) :
  py_format "creating pool with key = [%s], max_pool_size = [%d]..." [PStr key; PInt max]
  = inr ("creating pool with key = [" +:+ key +:+ "], max_pool_size = [" +:+
         pretty max +:+ "]...").
Proof. reflexivity. Qed.

Lemma fmt_pool_created (key : string) :
  py_format "pool created with key = [%s]." [PStr key]
  = inr ("pool created with key = [" +:+ key +:+ "].").
Proof. reflexivity. Qed.

Lemma fmt_initialising (z : Z) :
  py_format "initialising pool with [%d] connections..." [PInt z]
  = inr ("initialising pool with [" +:+ pretty z +:+ "] connections...").
Proof. reflexivity. Qed.

Lemma fmt_engine_created (s : string) :
  py_format "DB engine created, pool = [%s]" [PStr s]
  = inr ("DB engine created, pool = [" +:+ s +:+ "]").
Proof. reflexivity. Qed.

#[local] Hint Rewrite fmt_creating_pool fmt_pool_created fmt_initialising
  fmt_engine_created : pyfmt.

(** The pool object [__init__] makes. *)
Lemma init_object {S} d max (s : S) e :
  wp (ConnectionPool.__init__ d max)
     (fun p s' _ =>
        s' = s ∧
        p = ConnectionPool.mk None d []
              (ConnectionCycle.__init__
                 (Some (LOGGER_KEY +:+ " - " +:+ py_str (ConnectionDetails.database d)
                          +:+ "." +:+ py_str (ConnectionDetails.schema d))))
              false max
              (LOGGER_KEY +:+ " - " +:+ py_str (ConnectionDetails.database d)
                 +:+ "." +:+ py_str (ConnectionDetails.schema d)))
     (fun _ _ _ => False) (fun _ _ => False) s e.
Proof. unfold ConnectionPool.__init__, load_environment_variable. wp_go; done. Qed.

(** The first [create_db_engine] on it: when it returns the pool is
    filled, with no handle. *)
Lemma create_db_engine_first d max pool key e :
  wp (ConnectionPool.create_db_engine false)
     (fun _ p' _ => filled d max 0 p') (fun _ _ _ => True) (fun _ _ => True)
     (ConnectionPool.mk None d [] (ConnectionCycle.__init__ pool) false max key) e.
Proof.
  unfold ConnectionCycle.__init__, AtomicInt.__init__.
  wp_go; try done; unfold filled, locks_free, steady; cbn; repeat split; eauto.
Qed.

(** [initialize] for a key that is not registered. *)
Lemma initialize_new d max init (pools : gmap string ConnectionPool.t) e :
  pools !! ConnectionDetails.get_key d = None →
  wp (ConnectionPool.initialize d max init)
     (fun key R _ =>
        key = ConnectionDetails.get_key d ∧
        ∃ p, R = <[ConnectionDetails.get_key d := p]> pools ∧
             filled d max (Z.to_nat (Z.min init max)) p)
     (fun _ R _ => R = pools) (fun R _ => R = pools) pools e.
Proof.
  intros Hnone. unfold ConnectionPool.initialize.
  apply wp_bind, wp_gets. rewrite Hnone.
  apply wp_bind, wp_fmt_msg. rewrite fmt_creating_pool.
  apply wp_bind, wp_log_to.
  apply wp_bind. eapply wp_mono; [apply init_object|..]; [|done..].
  intros p R e1 [-> ->].
  assert (Hrest : ∀ p' e', filled d max (Z.to_nat (Z.min init max)) p' →
    wp (let* _ := modify (fun pools0 : gmap string ConnectionPool.t =>
                            <[ConnectionDetails.get_key d := (tt, p').2]> pools0) in
        let* msg := fmt_msg "pool created with key = [%s]."
                      [PStr (ConnectionDetails.get_key d)] in
        let* _ := ConnectionPool.pool (ConnectionDetails.get_key d)
                    (ConnectionPool.log msg DEBUG) in
        ret (ConnectionDetails.get_key d))
      (fun key R _ =>
         key = ConnectionDetails.get_key d ∧
         ∃ p, R = <[ConnectionDetails.get_key d := p]> pools ∧
              filled d max (Z.to_nat (Z.min init max)) p)
      (fun _ R _ => R = pools) (fun R _ => R = pools) pools e').
  { intros p' e' Hp'. apply wp_bind, wp_modify.
    apply wp_bind, wp_fmt_msg. rewrite fmt_pool_created.
    apply wp_bind, wp_pool. rewrite lookup_insert_eq.
    unfold ConnectionPool.log. apply wp_bind, wp_gets, wp_log_to, wp_ret.
    split; [done|]. exists p'. cbn. by rewrite insert_insert_eq. }
  apply wp_bind, wp_on_object, wp_bind.
  eapply wp_mono; [apply create_db_engine_first|..]; [|done..].
  intros [] p1 e2 Hp1. 
  destruct (Z.gtb_spec init 0).
  - apply wp_bind, wp_fmt_msg. rewrite fmt_initialising.
    apply wp_bind. unfold ConnectionPool.log. apply wp_bind, wp_gets, wp_log_to.
    eapply wp_mono; [by apply (create_connections_fill d max _ 0)|..]; [|done..].
    intros [] p2 e3 Hp2. rewrite grown_by_zero, Z2Nat.id in Hp2 by lia.
    by apply Hrest.
  - apply wp_ret. apply Hrest.
    replace (Z.to_nat (Z.min init max)) with 0%nat by lia. done.
Qed.

(** X6.  From a pool whose three locks (the pool's, the rotation's list
    lock and the cursor's) are free: after any sequence of calls on the
    pool and its handles, whatever their outcomes, the three locks are
    free again; and no call waits, except [start_transaction] on a handle
    whose own lock is held. *)
Theorem pool_locks_are_released (p : ConnectionPool.t) (e : Env) :
  locks_free p →
  ∀ ops : list operation,
    locks_free (run ops p e).1 ∧
    (∀ o, (∀ r, o ≠ StartTransaction r) →
          out (perform o (run ops p e).1 (run ops p e).2) ≠ Blocks) ∧
    (∀ r, out (start_transaction r (run ops p e).1 (run ops p e).2) = Blocks ↔
          ∃ h, get_handle r (run ops p e).1 = Some h ∧ WaitableConnection._lock h = true).
Proof.
  intros Hp ops. pose proof (run_steady 0 ops p e Hp) as Hrun.
  destruct (run ops p e) as [p' e']. cbn [fst snd] in *.
  split; [done|]. split.
  - intros o Ho. by apply (perform_calm 0 o Ho).
  - intros r. split.
    + intros Hb. destruct (get_handle r p') as [h|] eqn:Hh;
        [|by rewrite start_transaction_no_handle in Hb].
      exists h. split; [done|].
      destruct (WaitableConnection._lock h) eqn:Hl; [done|exfalso].
      destruct (WaitableConnection.is_healthy h) eqn:Hu.
      2:{ by rewrite (start_transaction_unhealthy r h p' e' Hh Hl Hu) in Hb. }
      unfold WaitableConnection.is_healthy in Hu.
      destruct (WaitableConnection._connection h) as [c0|] eqn:Hc; [|done].
      apply negb_true_iff in Hu.
      pose proof (start_transaction_healthy r h c0 p' e' Hh Hl Hc Hu) as Hrun'.
      cbn zeta in Hrun'. rewrite Hrun' in Hb. by destruct (ok _).
    + intros (h & Hh & Hl). by apply (start_transaction_locked r h).
Qed.

Lemma pool_locks_are_released_witness :
  let p := example_pool 2 [idle_handle "A" 7] 0 in
  let ops := [GetConnection; StartTransaction 0%nat; GetConnection; RemoveConnection 0%nat] in
  locks_free (run ops p quiet).1.
Proof.
  cbn zeta.
  refine (proj1 (pool_locks_are_released (example_pool 2 [idle_handle "A" 7] 0) quiet _ _)).
  unfold locks_free, steady; cbn; repeat split; lia.
Defined.

(** X7.  The handle list [_connections] of a pool never shrinks: after any
    sequence of calls on a pool whose locks are free it holds at least as
    many handle objects as it held, [remove_connection] included. *)
Theorem handle_list_never_shrinks (p : ConnectionPool.t) (e : Env) (ops : list operation) :
  locks_free p →
  (length (ConnectionPool._connections p)
   ≤ length (ConnectionPool._connections (run ops p e).1))%nat.
Proof.
  intros (Ha & Hb & Hc & _).
  by destruct (run_steady (length (ConnectionPool._connections p)) ops p e)
    as (_ & _ & _ & H).
Qed.

Lemma handle_list_never_shrinks_witness :
  let p := example_pool 2 [idle_handle "A" 7] 0 in
  (1 ≤ length (ConnectionPool._connections
                 (run [RemoveConnection 0%nat; GetConnection] p quiet).1))%nat.
Proof.
  cbn zeta.
  refine (handle_list_never_shrinks (example_pool 2 [idle_handle "A" 7] 0) quiet
            [RemoveConnection 0%nat; GetConnection] _).
  unfold locks_free, steady; cbn; repeat split; lia.
Defined.

(** X8.  [initialize] gets or creates.  For a key that is registered it
    returns the key and touches neither the registry nor a collaborator,
    and so does [instance], without reading the environment.  For a new key
    the registry changes only when [initialize] returns, and then only at
    that key: a failure while the pool is built leaves no pool behind. *)
Theorem initialize_gets_or_creates (d : ConnectionDetails.t) (max init : Z)
    (pools : gmap string ConnectionPool.t) (e : Env) :
  let key := ConnectionDetails.get_key d in
  let r := ConnectionPool.initialize d max init pools e in
  (is_Some (pools !! key) →
     r = mkResult (Returns key) pools e ∧
     ConnectionPool.instance d pools e = mkResult (Returns key) pools e) ∧
  (pools !! key = None →
     match out r with
     | Returns k =>
         k = key ∧
         ∃ p, state r = <[key := p]> pools ∧
              ConnectionPool._connection_details p = d ∧
              ConnectionPool._max_pool_size p = max
     | _ => state r = pools
     end) ∧
  (∀ key', key' ≠ key → state r !! key' = pools !! key').
Proof.
  cbn zeta.
  assert (Hold : is_Some (pools !! ConnectionDetails.get_key d) →
            ConnectionPool.initialize d max init pools e
              = mkResult (Returns (ConnectionDetails.get_key d)) pools e ∧
            ConnectionPool.instance d pools e
              = mkResult (Returns (ConnectionDetails.get_key d)) pools e).
  { intros [p Hp]. unfold ConnectionPool.initialize, ConnectionPool.instance, bind, gets.
    by rewrite Hp. }
  pose proof (initialize_new d max init pools e) as Hnew. unfold wp in Hnew.
  split; [done|]. split.
  - intros Hnone. specialize (Hnew Hnone).
    destruct (ConnectionPool.initialize d max init pools e) as [[k|x|] R e']; cbn; [|done..].
    destruct Hnew as (-> & p & -> & _ & Hd & Hm & _). eauto.
  - intros key' Hne. destruct (pools !! ConnectionDetails.get_key d) as [p|] eqn:Hp.
    + destruct Hold as [-> _]; done.
    + specialize (Hnew eq_refl).
      destruct (ConnectionPool.initialize d max init pools e) as [[k|x|] R e']; cbn in *;
        [|by subst..].
      destruct Hnew as (-> & p & -> & _). by rewrite lookup_insert_ne.
Qed.

Lemma initialize_gets_or_creates_witness :
  let pools := state scenario_start in
  ConnectionPool.initialize example_details 7 7 pools quiet
  = mkResult (Returns (ConnectionDetails.get_key example_details)) pools quiet.
Proof.
  cbn zeta.
  refine (proj1 (proj1 (initialize_gets_or_creates example_details 7 7
                          (state scenario_start) quiet) _)).
  vm_compute. eauto.
Defined.

(** X9.  When [initialize] returns for a new key, the pool it registered
    has its engine, its locks free, and exactly [min(initial_pool_size,
    max_pool_size)] handles (none when that is negative), all in the
    rotation in the order they were made: an initial size above the
    maximum is cut to the maximum. *)
Theorem initialize_fills_up_to_max (d : ConnectionDetails.t) (max init : Z)
    (pools : gmap string ConnectionPool.t) (e : Env) (key : string) :
  pools !! ConnectionDetails.get_key d = None →
  out (ConnectionPool.initialize d max init pools e) = Returns key →
  ∃ p, state (ConnectionPool.initialize d max init pools e) !! key = Some p ∧
       filled d max (Z.to_nat (Z.min init max)) p ∧
       rotation_size p = Z.max 0 (Z.min init max).
Proof.
  intros Hnone Hret. pose proof (initialize_new d max init pools e Hnone) as Hnew.
  unfold wp in Hnew.
  destruct (ConnectionPool.initialize d max init pools e) as [[k|x|] R e']; [|done..].
  cbn in *. injection Hret as ->. destruct Hnew as (-> & p & -> & Hp).
  exists p. rewrite lookup_insert_eq. split; [done|]. split; [done|].
  destruct Hp as (_ & _ & _ & _ & _ & Hitems).
  unfold rotation_size, ConnectionCycle.len. rewrite Hitems, length_seq. lia.
Qed.

Lemma initialize_fills_up_to_max_witness :
  ∃ p, state (ConnectionPool.initialize example_details 2 5 ∅ quiet)
         !! ConnectionDetails.get_key example_details = Some p ∧
       rotation_size p = 2.
Proof.
  destruct (initialize_fills_up_to_max example_details 2 5 ∅ quiet
              (ConnectionDetails.get_key example_details))
    as (p & Hp & _ & Hsize).
  - reflexivity.
  - vm_compute. reflexivity.
  - exists p. split; [exact Hp|exact Hsize].
Defined.

(** X10.  [create_connection(raw_connection_only=True)] hands out a bare
    connection: whatever its outcome, the handle list, the rotation and the
    maximum of the pool are as they were; what it returns is a connection
    that is open and was made by this call. *)
Theorem raw_connection_leaves_pool (lock : bool) (p : ConnectionPool.t) (e : Env) :
  let r := ConnectionPool.create_connection true lock p e in
  ConnectionPool._connections (state r) = ConnectionPool._connections p ∧
  ConnectionPool._connection_cycle (state r) = ConnectionPool._connection_cycle p ∧
  ConnectionPool._max_pool_size (state r) = ConnectionPool._max_pool_size p ∧
  (∀ v, out r = Returns v →
        ∃ c, v = VConnection c ∧ closed c = false ∧ (length (trace e) ≤ conn_no c)%nat ∧
             trace (env r) !! conn_no c = Some (Ext Connect)).
Proof.
  cbn zeta.
  pose (Post := fun (o : outcome value) (p' : ConnectionPool.t) (e' : Env) =>
    ConnectionPool._connections p' = ConnectionPool._connections p ∧
    ConnectionPool._connection_cycle p' = ConnectionPool._connection_cycle p ∧
    ConnectionPool._max_pool_size p' = ConnectionPool._max_pool_size p ∧
    (∀ v, o = Returns v →
          ∃ c, v = VConnection c ∧ closed c = false ∧ (length (trace e) ≤ conn_no c)%nat ∧
               trace e' !! conn_no c = Some (Ext Connect))).
  assert (H : wp (ConnectionPool.create_connection true lock)
            (fun v => Post (Returns v)) (fun x => Post (Raises x)) (Post Blocks) p e).
  { destruct p as [eng cd conns cyc plk max key]. unfold Post.
    wp_go; cbn; (split; [done|]); (split; [done|]); (split; [done|]);
      intros v' Hv; try done; injection Hv as <-;
      eexists; (split; [reflexivity|]); cbn; (split; [done|]);
      rewrite ?length_app; cbn; (split; [lia|]);
      rewrite lookup_app_r by (rewrite ?length_app; cbn; lia);
      rewrite ?length_app; cbn;
      match goal with |- [_] !! ?i = _ => replace i with 0%nat by lia end; done. }
  unfold wp in H.
  by destruct (ConnectionPool.create_connection true lock p e) as [[v|x|] p' e'].
Qed.

Lemma fmt_removing (id : string) :
  py_format "removing connection with id = [%s] from pool..." [PStr id]
  = inr ("removing connection with id = [" +:+ id +:+ "] from pool...").
Proof. reflexivity. Qed.

Lemma fmt_removed (id : string) (z : Z) :
  py_format "connection with id = [%s] removed from pool, current pool size = [%d]"
    [PStr id; PInt z]
  = inr ("connection with id = [" +:+ id +:+ "] removed from pool, current pool size = ["
         +:+ pretty z +:+ "]").
Proof. reflexivity. Qed.

Lemma fmt_not_removed (id : string) (z : Z) :
  py_format
    "failed to remove connection with id = [%s] from pool, current pool size = [%d]"
    [PStr id; PInt z]
  = inr ("failed to remove connection with id = [" +:+ id +:+
         "] from pool, current pool size = [" +:+ pretty z +:+ "]").
Proof. reflexivity. Qed.

Lemma delete_no_match_at {A} (item_eq : A → A → bool) l (connection : A) v pool e :
  (∀ y, y ∈ l → item_eq y connection = false) →
  ConnectionCycle.delete item_eq connection (rotation_at l v pool) e
  = mkResult (Returns false) (rotation_at l v pool) e.
Proof.
  intros Habs. unfold ConnectionCycle.delete, rotation_at. msimpl.
  rewrite search_absent by done. reflexivity.
Qed.

(** [remove_connection] on a pool at rest is [delete] on its rotation,
    between two log lines. *)
Lemma remove_connection_at r h eng cd conns l v pool max key e :
  conns !! r = Some h →
  let p := ConnectionPool.mk eng cd conns (rotation_at l v pool) false max key in
  let id := WaitableConnection._id h in
  let e1 := emit (Log key DEBUG ("removing connection with id = [" +:+ id +:+
                                 "] from pool...")) e in
  ConnectionPool.remove_connection r p e =
  match ConnectionCycle.delete (ConnectionPool.handle_eq conns) r (rotation_at l v pool) e1 with
  | mkResult (Returns true) c' e2 =>
      mkResult (Returns true) (ConnectionPool.set_connection_cycle c' p)
        (emit (Log key DEBUG
                 ("connection with id = [" +:+ id +:+
                  "] removed from pool, current pool size = [" +:+
                  pretty (ConnectionCycle.len c') +:+ "]")) e2)
  | mkResult (Returns false) c' e2 =>
      mkResult (Returns false) (ConnectionPool.set_connection_cycle c' p)
        (emit (Log key WARN
                 ("failed to remove connection with id = [" +:+ id +:+
                  "] from pool, current pool size = [" +:+
                  pretty (ConnectionCycle.len c') +:+ "]")) e2)
  | mkResult (Raises x) c' e2 =>
      mkResult (Raises x) (ConnectionPool.set_connection_cycle c' p) e2
  | mkResult Blocks c' e2 =>
      mkResult Blocks
        (ConnectionPool.set_connection_cycle c' (ConnectionPool.set_lock true p)) e2
  end.
Proof.
  intros Hh. cbn zeta.
  unfold ConnectionPool.remove_connection, ConnectionPool.handle, ConnectionPool.log,
    ConnectionPool.rotation, ConnectionCycle.size, rotation_at.
  munfold. cbn -[ConnectionCycle.delete pretty]. rewrite Hh.
  cbn -[ConnectionCycle.delete pretty]. rewrite list_insert_id by done.
  destruct (ConnectionCycle.delete _ r _ _) as [[[]|x|] c' e2];
    cbn -[pretty]; reflexivity.
Qed.

(** X11.  [remove_connection(connection)] on a pool whose locks are free.
    When the rotation holds an entry equal to the handle (same id), the
    first such entry is taken out, the rotation is one shorter and the
    call returns [True]; when it holds none, the call returns [False] and
    the pool is as it was.  Either way the handle object stays in
    [_connections]. *)
Theorem remove_connection_removes_one_entry (r : ref) (h : WaitableConnection.t)
    (p : ConnectionPool.t) (e : Env) :
  get_handle r p = Some h →
  locks_free p →
  let items := ConnectionCycle._items (ConnectionPool._connection_cycle p) in
  let same := ConnectionPool.handle_eq (ConnectionPool._connections p) in
  let res := ConnectionPool.remove_connection r p e in
  (∀ l1 x l2,
     items = l1 ++ x :: l2 → same x r = true → (∀ y, y ∈ l1 → same y r = false) →
     out res = Returns true ∧
     ConnectionCycle._items (ConnectionPool._connection_cycle (state res)) = l1 ++ l2 ∧
     rotation_size (state res) = rotation_size p - 1) ∧
  ((∀ y, y ∈ items → same y r = false) → out res = Returns false ∧ state res = p) ∧
  ConnectionPool._connections (state res) = ConnectionPool._connections p.
Proof.
  destruct p as [eng cd conns [lk l [v pl] pool] plk max key].
  intros Hh (Hplk & Hlk & Hpl & _). unfold get_handle in Hh. cbn in *. subst.
  change (ConnectionCycle.mk false l (AtomicInt.mk v false) pool)
    with (rotation_at l v pool).
  rewrite (remove_connection_at r h eng cd conns l v pool max key e Hh). cbn zeta.
  split; [|split].
  - intros l1 x l2 -> Hx Hl1. rewrite (delete_first_match_at _ _ _ _ _ _ _ _ Hx Hl1).
    cbn. split; [done|]. split; [done|].
    unfold rotation_size, ConnectionCycle.len. cbn. rewrite !length_app. cbn. lia.
  - intros Habs. rewrite delete_no_match_at by done. done.
  - by destruct (ConnectionCycle.delete _ r _ _) as [[[]|x|] c' e2].
Qed.

Lemma remove_connection_removes_one_entry_witness :
  let p := example_pool 3 [idle_handle "A" 7; idle_handle "B" 8] 0 in
  out (ConnectionPool.remove_connection 1%nat p quiet) = Returns true ∧
  ConnectionCycle._items
    (ConnectionPool._connection_cycle (state (ConnectionPool.remove_connection 1%nat p quiet)))
  = [0%nat].
Proof.
  cbn zeta.
  destruct (remove_connection_removes_one_entry 1%nat (idle_handle "B" 8)
              (example_pool 3 [idle_handle "A" 7; idle_handle "B" 8] 0) quiet)
    as (H & _); [reflexivity|unfold locks_free, steady; cbn; repeat split; lia|].
  destruct (H [0%nat] 1%nat []) as (Ho & Hi & _).
  - reflexivity.
  - reflexivity.
  - intros y Hy. apply list_elem_of_singleton in Hy. subst y. reflexivity.
  - split; [exact Ho|exact Hi].
Defined.

(** ** The life of a handle *)

(** What a call leaves behind when it returns: read off [wp]. *)
Lemma wp_returns {S A} (m : M S A) (P : A → S → Prop) s e :
  wp m (fun a s' _ => P a s') (fun _ _ _ => False) (fun _ _ => False) s e →
  ∃ a, out (m s e) = Returns a ∧ P a (state (m s e)).
Proof. unfold wp. destruct (m s e) as [[a|x|] s' e']; [|done..]. eauto. Qed.

(** X12.  A transaction from start to finish.  On a handle whose lock is
    free and whose connection is open, with a database that answers:
    [start_transaction] returns the connection, and [commit_transaction]
    after it, or [rollback_transaction], returns and leaves the handle
    idle (lock free, not busy, no open transaction) on the same
    connection. *)
Theorem transaction_leaves_handle_idle (r : ref) (h : WaitableConnection.t)
    (c : Connection) (p : ConnectionPool.t) (e : Env) :
  get_handle r p = Some h →
  WaitableConnection._lock h = false →
  WaitableConnection._connection h = Some c →
  closed c = false →
  (∀ n, ok (oracle e n) = true) →
  let s := start_transaction r p e in
  let released (f : Result ConnectionPool.t unit) :=
    out f = Returns tt ∧
    ∃ h', state f = put_handle r h' p ∧ idle h' ∧
          WaitableConnection._connection h' = Some c ∧
          WaitableConnection._id h' = WaitableConnection._id h in
  out s = Returns c ∧
  released (commit_transaction r (state s) (env s)) ∧
  (∀ exc_val, released (rollback_transaction r exc_val (state s) (env s))).
Proof.
  intros Hh Hl Hc Hopen Hok. cbn zeta.
  pose proof (start_transaction_healthy r h c p e Hh Hl Hc Hopen) as Hrun.
  cbn zeta in Hrun. rewrite Hok in Hrun. rewrite Hrun. clear Hrun.
  cbn [out state env]. split; [done|].
  set (h1 := WaitableConnection.mk _ _ _ _ _).
  set (e1 := emit _ _).
  assert (Hok1 : ∀ n, ok (oracle e1 n) = true) by (intros n; apply Hok).
  assert (Hh1 : get_handle r (put_handle r h1 p) = Some h1)
    by (apply get_put_handle; eauto).
  clearbody e1.
  assert (Hfin : ∀ (m : M ConnectionPool.t unit),
    wp m (fun _ p' _ => ∃ h', p' = put_handle r h' p ∧ idle h' ∧
                              WaitableConnection._connection h' = Some c ∧
                              WaitableConnection._id h' = WaitableConnection._id h)
         (fun _ _ _ => False) (fun _ _ => False) (put_handle r h1 p) e1 →
    out (m (put_handle r h1 p) e1) = Returns tt ∧
    ∃ h', state (m (put_handle r h1 p) e1) = put_handle r h' p ∧ idle h' ∧
          WaitableConnection._connection h' = Some c ∧
          WaitableConnection._id h' = WaitableConnection._id h).
  { intros m Hm. apply wp_returns in Hm. destruct Hm as ([] & Ho & Hs). done. }
  split; [|intros exc_val]; apply Hfin;
    unfold commit_transaction, rollback_transaction, finish_transaction; subst h1;
    hwp_go; env_simpl; rewrite Hok1; hwp_go;
    eexists; (split; [reflexivity|]); by repeat split.
Qed.

Lemma transaction_leaves_handle_idle_witness :
  let p := example_pool 2 [idle_handle "A" 7] 0 in
  let s := start_transaction 0%nat p quiet in
  out s = Returns {| conn_no := 7; closed := false |} ∧
  out (commit_transaction 0%nat (state s) (env s)) = Returns tt.
Proof.
  cbn zeta.
  destruct (transaction_leaves_handle_idle 0%nat (idle_handle "A" 7)
              {| conn_no := 7; closed := false |}
              (example_pool 2 [idle_handle "A" 7] 0) quiet)
    as (Hs & (Hc & _) & _); try reflexivity.
  split; [exact Hs|exact Hc].
Defined.



(** X14.  [close_transaction] on a handle that holds its lock, with a
    connection that closes: the handle is freed and its physical
    connection closed, by the one call [Connection.close()].  The code
    neither commits nor rolls back the transaction the handle records; the
    close ends it: a transaction begun on this connection is left
    recorded and no longer active, so the handle has no open transaction.
    The handle is then unhealthy: the next [start_transaction] on it
    raises the [TypeError] of self-heal. *)
Theorem close_transaction_leaves_closed_handle (r : ref) (h : WaitableConnection.t)
    (c : Connection) (p : ConnectionPool.t) (e : Env) :
  get_handle r p = Some h →
  WaitableConnection._lock h = true →
  WaitableConnection._connection h = Some c →
  (∀ n, ok (oracle e n) = true) →
  let f := close_transaction r p e in
  let h' := WaitableConnection.after_close c
              (WaitableConnection.mk (WaitableConnection._id h) (Some c) false
                 (WaitableConnection._transaction h) false) in
  out f = Returns tt ∧
  state f = put_handle r h' p ∧
  WaitableConnection._id h' = WaitableConnection._id h ∧
  WaitableConnection._connection h' = Some {| conn_no := conn_no c; closed := true |} ∧
  WaitableConnection._lock h' = false ∧
  WaitableConnection._in_use h' = false ∧
  (∀ tx, WaitableConnection._transaction h = Some tx →
         tx_conn tx = conn_no c →
         WaitableConnection._transaction h'
         = Some {| tx_no := tx_no tx; tx_conn := tx_conn tx; is_active := false |} ∧
         idle h') ∧
  (WaitableConnection._transaction h = None →
   WaitableConnection._transaction h' = None) ∧
  emitted (close_transaction r) p e
    = [Log (ConnectionPool.logger_key p) TRACE "closing non transactional connection...";
       Ext (Close (conn_no c))] ∧
  (∀ e', out (start_transaction r (state f) e')
         = Raises (TypeError "not all arguments converted during string formatting")).
Proof.
  intros Hh Hl Hc Hok. cbn zeta.
  set (h1 := WaitableConnection.after_close _ _).
  assert (Hrun : close_transaction r p e
            = mkResult (Returns tt) (put_handle r h1 p)
                (emit (Ext (Close (conn_no c)))
                   (emit (Log (ConnectionPool.logger_key p) TRACE
                            "closing non transactional connection...") e))).
  { apply wp_result. unfold close_transaction. subst h1.
    destruct h as [id c' lk tx iu]. cbn in Hl, Hc. subst lk c'.
    hwp_go. env_simpl. rewrite Hok. hwp_go. reflexivity. }
  unfold emitted. rewrite Hrun. cbn [out state env emit trace].
  do 6 (split; [done|]). split; [|split; [|split]].
  - intros tx Htx Hconn. subst h1.
    unfold WaitableConnection.after_close, idle, has_open_transaction.
    cbn. rewrite Htx, Hconn, Nat.eqb_refl. done.
  - intros Htx. subst h1. unfold WaitableConnection.after_close. cbn. by rewrite Htx.
  - rewrite <- !app_assoc. by rewrite drop_app_length.
  - intros e'. rewrite (start_transaction_unhealthy r h1 (put_handle r h1 p) e');
      [done|apply get_put_handle; eauto|done|done].
Qed.

Lemma close_transaction_leaves_closed_handle_witness :
  let h := WaitableConnection.mk "A" (Some {| conn_no := 7; closed := false |}) true
             (Some {| tx_no := 9; tx_conn := 7; is_active := true |}) true in
  let p := example_pool 2 [h] 0 in
  close_transaction 0%nat p quiet
  = mkResult (Returns tt)
      (example_pool 2
         [WaitableConnection.mk "A" (Some {| conn_no := 7; closed := true |}) false
            (Some {| tx_no := 9; tx_conn := 7; is_active := false |}) false] 0)
      (env (close_transaction 0%nat p quiet)) ∧
  out (start_transaction 0%nat (state (close_transaction 0%nat p quiet)) quiet)
  = Raises (TypeError "not all arguments converted during string formatting").
Proof.
  cbn zeta.
  destruct (close_transaction_leaves_closed_handle 0%nat
              (WaitableConnection.mk "A" (Some {| conn_no := 7; closed := false |}) true
                 (Some {| tx_no := 9; tx_conn := 7; is_active := true |}) true)
              {| conn_no := 7; closed := false |}
              (example_pool 2
                 [WaitableConnection.mk "A" (Some {| conn_no := 7; closed := false |}) true
                    (Some {| tx_no := 9; tx_conn := 7; is_active := true |}) true] 0)
              quiet)
    as (Ho & Hs & _ & _ & _ & _ & _ & _ & _ & Hn); try reflexivity.
  split; [|exact (Hn quiet)].
  destruct (close_transaction _ _ _) as [o st en]; cbn in Ho, Hs |- *.
  by rewrite Ho, Hs.
Defined.

(** X15.  On an idle handle (lock free, not busy, no open transaction)
    [commit_transaction] and [close_transaction] raise and leave the pool
    as it was.  [commit_transaction] raises [AttributeError] when the
    handle never had a transaction.  [close_transaction] raises
    [RuntimeError] at the release of the lock, before it reaches the
    connection: the connection is not closed. *)
Theorem commit_and_close_on_idle_handle_raise (r : ref) (h : WaitableConnection.t)
    (p : ConnectionPool.t) (e : Env) :
  get_handle r p = Some h →
  idle h →
  (∃ x, out (commit_transaction r p e) = Raises x ∧
        state (commit_transaction r p e) = p ∧
        (WaitableConnection._transaction h = None → x = AttributeError) ∧
        (x = AttributeError ∨ x = DBAPIError ∨ x = RuntimeError "release unlocked lock")) ∧
  close_transaction r p e
    = mkResult (Raises (RuntimeError "release unlocked lock")) p
        (emit (Log (ConnectionPool.logger_key p) TRACE
                 "closing non transactional connection...") e).
Proof.
  intros Hh (Hu & Hl & Htx). split.
  - apply (wp_raises _ (fun x s' =>
             s' = p ∧ (WaitableConnection._transaction h = None → x = AttributeError) ∧
             (x = AttributeError ∨ x = DBAPIError ∨ x = RuntimeError "release unlocked lock"))).
    destruct h as [id c lk [[n k act]|] iu]; cbn in Hu, Hl, Htx; subst.
    + unfold commit_transaction, finish_transaction.
      hwp_go.
      destruct (ok _); hwp_go;
        rewrite ?(put_get_handle _ _ _ Hh); (split; [done|]); (split; [done|]); auto.
    + unfold commit_transaction, finish_transaction.
      hwp_go. rewrite ?(put_get_handle _ _ _ Hh). auto.
  - apply wp_result. unfold close_transaction.
    destruct h as [id c lk tx iu]; cbn in Hu, Hl; subst.
    hwp_go. by rewrite ?(put_get_handle _ _ _ Hh).
Qed.

Lemma commit_and_close_on_idle_handle_raise_witness :
  let p := example_pool 2 [idle_handle "A" 7] 0 in
  close_transaction 0%nat p quiet
  = mkResult (Raises (RuntimeError "release unlocked lock")) p
      (emit (Log (ConnectionPool.logger_key p) TRACE
               "closing non transactional connection...") quiet).
Proof.
  cbn zeta.
  refine (proj2 (commit_and_close_on_idle_handle_raise 0%nat (idle_handle "A" 7)
                   (example_pool 2 [idle_handle "A" 7] 0) quiet _ _));
    [reflexivity|by repeat split].
Defined.

(** ** The wrappers and the exception of the block *)

(** Neither [rollback_transaction] nor [commit_transaction] waits. *)
Lemma finish_never_waits (r : ref) (p : ConnectionPool.t) (e : Env) :
  out (commit_transaction r p e) ≠ Blocks ∧
  (∀ exc_val, out (rollback_transaction r exc_val p e) ≠ Blocks).
Proof.
  assert (H : ∀ m : M ConnectionPool.t unit,
            wp m (fun _ _ _ => True) (fun _ _ _ => True) (fun _ _ => False) p e →
            out (m p e) ≠ Blocks).
  { intros m Hm. unfold wp in Hm. by destruct (m p e) as [[a|x|] p' e']. }
  destruct p as [eng cd conns cyc plk max key].
  split; [|intros exc_val]; apply H;
    unfold commit_transaction, rollback_transaction, finish_transaction;
    wp_go; done.
Qed.

(** X16.  [with handle as connection: block], when the block raises.
    [WaitableConnection.__exit__] rolls back with the exception of the
    block and then calls [print_exc] on the traceback object, which has no
    such method: the statement ends with [AttributeError], or with the
    error of the rollback when the rollback raises, and not with the
    exception of the block. *)
Theorem waitable_connection_replaces_exception {A} (r : ref)
    (block : Connection → M ConnectionPool.t A)
    (p p1 p2 : ConnectionPool.t) (e e1 e2 : Env) (c : Connection) (x : exn) :
  __enter__ r p e = mkResult (Returns c) p1 e1 →
  block c p1 e1 = mkResult (Raises x) p2 e2 →
  let rb := rollback_transaction r (Some x) p2 e2 in
  with_stmt (__enter__ r) (__exit__ r) block p e
  = mkResult match out rb with
             | Returns _ => Raises AttributeError
             | Raises y => Raises y
             | Blocks => Blocks
             end (state rb) (env rb) ∧
  out rb ≠ Blocks.
Proof.
  intros Henter Hblock. cbn zeta.
  split; [|apply finish_never_waits].
  unfold with_stmt, bind at 1. rewrite Henter, Hblock.
  unfold __exit__, exc_tb_print_exc, bind, raise.
  by destruct (rollback_transaction r (Some x) p2 e2) as [[[]|y|] p3 e3].
Qed.

Lemma waitable_connection_replaces_exception_witness :
  let p := example_pool 2 [idle_handle "A" 7] 0 in
  out (with_stmt (__enter__ 0%nat) (__exit__ 0%nat) failing_block p quiet)
  = Raises AttributeError.
Proof.
  cbn zeta.
  destruct (waitable_connection_replaces_exception (A:=unit) 0%nat failing_block
              (example_pool 2 [idle_handle "A" 7] 0)
              (state (__enter__ 0%nat (example_pool 2 [idle_handle "A" 7] 0) quiet))
              (state (__enter__ 0%nat (example_pool 2 [idle_handle "A" 7] 0) quiet))
              quiet
              (env (__enter__ 0%nat (example_pool 2 [idle_handle "A" 7] 0) quiet))
              (env (__enter__ 0%nat (example_pool 2 [idle_handle "A" 7] 0) quiet))
              {| conn_no := 7; closed := false |} (Exception "boom")) as [H _].
  - vm_compute. reflexivity.
  - reflexivity.
  - rewrite H. vm_compute. reflexivity.
Defined.

(** X17.  [with TransactionManager(...) as connection: block], once
    entered, for a block that leaves the manager and its pool in place.
    After a block that returns, the statement returns its value when the
    commit returns, and raises the error of the commit otherwise.  After a
    block that raises, the statement raises the exception of the block
    when the rollback returns, and the error of the rollback otherwise. *)
Theorem transaction_manager_with_outcome {A}
    (block : Connection → M TransactionManager.World A)
    (w w1 w2 : TransactionManager.World) (e e1 e2 : Env) (c : Connection)
    (o : outcome A) (key : string) (r : ref) (p : ConnectionPool.t) :
  TransactionManager.__enter__ w e = mkResult (Returns c) w1 e1 →
  block c w1 e1 = mkResult o w2 e2 →
  TransactionManager._waitable_connection (TransactionManager.self w2) = Some (key, r) →
  TransactionManager.POOLS w2 !! key = Some p →
  out (with_stmt TransactionManager.__enter__ TransactionManager.__exit__ block w e)
  = match o with
    | Returns a =>
        match out (commit_transaction r p e2) with
        | Returns _ => Returns (Some a)
        | Raises y => Raises y
        | Blocks => Blocks
        end
    | Raises x =>
        match out (rollback_transaction r None p e2) with
        | Returns _ => Raises x
        | Raises y => Raises y
        | Blocks => Blocks
        end
    | Blocks => Blocks
    end.
Proof.
  intros Henter Hblock Hwc Hp.
  unfold with_stmt, bind at 1. rewrite Henter, Hblock.
  destruct o as [a|x|]; [| |done];
    unfold TransactionManager.__exit__, TransactionManager.waitable_connection,
      TransactionManager.registry, zoom, ConnectionPool.pool, bind, gets, ret, raise;
    cbn [out state env]; rewrite Hwc, Hp.
  - by destruct (commit_transaction r p e2) as [[[]|y|] p' e'].
  - by destruct (rollback_transaction r None p e2) as [[[]|y|] p' e'].
Qed.

Lemma transaction_manager_with_outcome_witness :
  out (with_stmt TransactionManager.__enter__ TransactionManager.__exit__ failing_block
         example_world (env scenario_start))
  = Raises (Exception "boom").
Proof.
  pose (en := TransactionManager.__enter__ example_world (env scenario_start)).
  rewrite (transaction_manager_with_outcome (A:=unit) failing_block example_world
             (state en) (state en) (env scenario_start) (env en) (env en)
             {| conn_no := 9; closed := false |} (Raises (Exception "boom"))
             (ConnectionDetails.get_key example_details) 0%nat
             (default (example_pool 0 [] 0)
                (TransactionManager.POOLS (state en)
                   !! ConnectionDetails.get_key example_details))).
  - vm_compute. reflexivity.
  - vm_compute. reflexivity.
  - reflexivity.
  - vm_compute. reflexivity.
  - vm_compute. reflexivity.
Defined.

(** X18.  What [TransactionManager.__enter__] raises.  An error of
    [get_pooled_connection] passes through; a pool that gives no handle
    (an empty rotation that may not grow) makes it raise "could not get
    connection from pool"; and whatever [start_transaction] raises on the
    handle is replaced by "Failed to start transaction - could not". *)
Theorem transaction_manager_enter_failures (w : TransactionManager.World) (e : Env)
    (x : exn) :
  out (TransactionManager.__enter__ w e) = Raises x →
  match out (TransactionManager.registry
               (ConnectionPool.get_pooled_connection
                  (TransactionManager._connection_details (TransactionManager.self w)))
               w e) with
  | Returns None =>
      x = Exception "Failed to start transaction - could not get connection from pool"
  | Returns (Some _) => x = Exception "Failed to start transaction - could not"
  | Raises y => x = y
  | Blocks => False
  end.
Proof.
  unfold TransactionManager.__enter__, TransactionManager.waitable_connection,
    TransactionManager.registry, zoom, try_except, ConnectionPool.pool, bind, gets, modify,
    ret, raise.
  cbn [out state env].
  destruct (ConnectionPool.get_pooled_connection _ (TransactionManager.POOLS w) e)
    as [[[[key r]|]|y|] R e']; cbn [out state env];
    cbn [TransactionManager.self TransactionManager.set_self
         TransactionManager._waitable_connection TransactionManager.POOLS
         TransactionManager.set_POOLS]; try congruence.
  destruct (R !! key) as [p|]; cbn [out state env]; [|congruence].
  destruct (start_transaction r p e') as [[c|y|] p1 e1]; cbn [out state env]; congruence.
Qed.

Lemma transaction_manager_enter_failures_witness :
  let w := TransactionManager.mkWorld (TransactionManager.mk example_details None)
             {[ConnectionDetails.get_key example_details := example_pool 0 [] 0]} in
  let x := Exception "Failed to start transaction - could not get connection from pool" in
  out (TransactionManager.__enter__ w quiet) = Raises x ∧
  match out (TransactionManager.registry
               (ConnectionPool.get_pooled_connection
                  (TransactionManager._connection_details (TransactionManager.self w)))
               w quiet) with
  | Returns None =>
      x = Exception "Failed to start transaction - could not get connection from pool"
  | Returns (Some _) => x = Exception "Failed to start transaction - could not"
  | Raises y => x = y
  | Blocks => False
  end.
Proof.
  cbn zeta. split; [vm_compute; reflexivity|].
  apply transaction_manager_enter_failures. vm_compute. reflexivity.
Defined.

(** ** ConnectionDetails: the connection string and the shared pool *)

Lemma string_app_cons (a : ascii) (s t : string) : String a s +:+ t = String a (s +:+ t).
Proof. reflexivity. Qed.

Lemma string_app_nil_l (t : string) : "" +:+ t = t.
Proof. reflexivity. Qed.

Lemma string_app_length (s t : string) :
  String.length (s +:+ t) = (String.length s + String.length t)%nat.
Proof. induction s as [|a s IH]; [done|]. rewrite string_app_cons. cbn. by rewrite IH. Qed.

Lemma string_app_inj_2 (s1 s2 t1 t2 : string) :
  String.length s1 = String.length s2 → s1 +:+ t1 = s2 +:+ t2 → s1 = s2 ∧ t1 = t2.
Proof.
  revert s2. induction s1 as [|a s1 IH]; intros [|b s2] Hlen; try done.
  rewrite !string_app_cons. intros [= -> H]. cbn in Hlen.
  destruct (IH s2) as [-> ->]; [lia|done|done].
Qed.

Lemma string_app_inj_tail (s1 s2 t : string) : s1 +:+ t = s2 +:+ t → s1 = s2.
Proof.
  intros H. apply (string_app_inj_2 s1 s2 t t); [|done].
  apply (f_equal String.length) in H. rewrite !string_app_length in H. lia.
Qed.

(** X19.  The connection string is where the password goes: for two
    [ConnectionDetails] that differ only in their password the strings of
    [get_connection_string] are equal exactly when the passwords print the
    same. *)
Theorem connection_string_carries_password (d1 d2 : ConnectionDetails.t) :
  differ_only_in_password d1 d2 →
  ConnectionDetails.get_connection_string d1 = ConnectionDetails.get_connection_string d2
  ↔ py_str (ConnectionDetails.password d1) = py_str (ConnectionDetails.password d2).
Proof.
  destruct d1 as [dialect1 driver1 host1 port1 database1 user1 password1 schema1 ssl1].
  destruct d2 as [dialect2 driver2 host2 port2 database2 user2 password2 schema2 ssl2].
  unfold differ_only_in_password. cbn [ConnectionDetails.dialect ConnectionDetails.driver
    ConnectionDetails.host ConnectionDetails.port ConnectionDetails.database
    ConnectionDetails.user ConnectionDetails.schema ConnectionDetails.disable_ssl
    ConnectionDetails.password].
  intros (-> & -> & -> & -> & -> & -> & -> & ->).
  unfold ConnectionDetails.get_connection_string. cbn [ConnectionDetails.dialect
    ConnectionDetails.driver ConnectionDetails.host ConnectionDetails.port
    ConnectionDetails.database ConnectionDetails.user ConnectionDetails.schema
    ConnectionDetails.disable_ssl ConnectionDetails.password].
  set (engine := match driver2 with PNone => _ | _ => _ end).
  split; [|by intros ->].
  intros H.
  do 4 apply String.app_inj in H.
  by apply string_app_inj_tail in H.
Qed.

Lemma connection_string_carries_password_witness :
  ConnectionDetails.get_connection_string example_details
  ≠ ConnectionDetails.get_connection_string other_password.
Proof.
  intros H.
  apply (connection_string_carries_password example_details other_password) in H.
  - discriminate H.
  - unfold differ_only_in_password. repeat split; reflexivity.
Defined.

(** X20.  One pool per key, whatever the password.  Once a pool is
    registered for some [ConnectionDetails], asking for the pool of
    details that differ only in the password gives that same pool,
    untouched: a pool that connects with the password it was made with. *)
Theorem pool_is_shared_across_passwords (d1 d2 : ConnectionDetails.t)
    (pools : gmap string ConnectionPool.t) (p : ConnectionPool.t) (e : Env) :
  differ_only_in_password d1 d2 →
  pools !! ConnectionDetails.get_key d1 = Some p →
  ConnectionPool.instance d2 pools e
    = mkResult (Returns (ConnectionDetails.get_key d1)) pools e ∧
  (∀ max init, ConnectionPool.initialize d2 max init pools e
               = mkResult (Returns (ConnectionDetails.get_key d1)) pools e) ∧
  (∀ max init pools0 e0,
     pools0 !! ConnectionDetails.get_key d1 = None →
     pools = state (ConnectionPool.initialize d1 max init pools0 e0) →
     ConnectionPool._connection_details p = d1).
Proof.
  intros Hd Hp.
  assert (Hkey : ConnectionDetails.get_key d2 = ConnectionDetails.get_key d1).
  { destruct d1, d2. unfold differ_only_in_password in Hd. cbn in Hd.
    destruct Hd as (_ & _ & -> & -> & -> & -> & -> & _). reflexivity. }
  split; [|split].
  - unfold ConnectionPool.instance, bind, gets. cbn. by rewrite Hkey, Hp.
  - intros max init. unfold ConnectionPool.initialize, bind, gets. cbn.
    by rewrite Hkey, Hp.
  - intros max init pools0 e0 Hnone ->.
    pose proof (initialize_new d1 max init pools0 e0 Hnone) as Hnew. unfold wp in Hnew.
    destruct (ConnectionPool.initialize d1 max init pools0 e0) as [[k|x|] R e']; cbn in *.
    + destruct Hnew as (-> & p' & -> & _ & Hd1 & _).
      rewrite lookup_insert_eq in Hp. by injection Hp as <-.
    + subst R. by rewrite Hnone in Hp.
    + subst R. by rewrite Hnone in Hp.
Qed.

Lemma pool_is_shared_across_passwords_witness :
  ConnectionPool.instance other_password (state scenario_start) quiet
  = mkResult (Returns (ConnectionDetails.get_key example_details))
      (state scenario_start) quiet.
Proof.
  refine (proj1 (pool_is_shared_across_passwords example_details other_password
                   (state scenario_start)
                   (default (example_pool 0 [] 0)
                      (state scenario_start !! ConnectionDetails.get_key example_details))
                   quiet _ _)).
  - unfold differ_only_in_password. repeat split; reflexivity.
  - vm_compute. reflexivity.
Defined.

(** ** From a configuration to connection details *)

Lemma py_replace_no_hyphen (s : string) : contains_char "-" (py_replace "-" "" s) = false.
Proof.
  induction s as [|c s IH]; [done|]. cbn [py_replace].
  destruct (Ascii.eqb_spec c "-"%char) as [->|Hc].
  - by rewrite string_app_nil_l.
  - cbn [contains_char]. rewrite IH, orb_false_r.
    apply Ascii.eqb_neq. congruence.
Qed.

Lemma py_replace_id (s : string) :
  contains_char "-" s = false → py_replace "-" "" s = s.
Proof.
  induction s as [|c s IH]; [done|]. cbn [py_replace contains_char].
  intros H. apply orb_false_iff in H as [Hc Hs].
  rewrite Ascii.eqb_sym in Hc. rewrite Hc. by rewrite IH.
Qed.

Lemma py_replace_filter (s : string) :
  String.list_ascii_of_string (py_replace "-" "" s)
  = filter (fun c => c ≠ "-"%char) (String.list_ascii_of_string s).
Proof.
  induction s as [|c s IH]; [done|]. cbn [py_replace String.list_ascii_of_string].
  destruct (Ascii.eqb_spec c "-"%char) as [->|Hc].
  - rewrite string_app_nil_l, IH. by rewrite filter_cons_False by (intros H; by apply H).
  - cbn [String.list_ascii_of_string]. rewrite IH. by rewrite filter_cons_True.
Qed.

(** X21.  [getSchemaFromSchemaId] of a string is an underscore followed by
    the string without its hyphens, the other characters in their order;
    a string without hyphens is kept whole.  Of anything but a string it
    raises [AttributeError]. *)
Theorem schema_from_schema_id_strips_hyphens :
  (∀ s : string,
     ∃ t, getSchemaFromSchemaId (PStr s) = inr (PStr ("_" +:+ t)) ∧
          String.list_ascii_of_string t
            = filter (fun c => c ≠ "-"%char) (String.list_ascii_of_string s) ∧
          contains_char "-" t = false ∧
          (contains_char "-" s = false → t = s)) ∧
  (∀ v, (∀ s, v ≠ PStr s) → getSchemaFromSchemaId v = inl AttributeError).
Proof.
  split.
  - intros s. exists (py_replace "-" "" s). split; [done|].
    split; [apply py_replace_filter|]. split; [apply py_replace_no_hyphen|].
    apply py_replace_id.
  - intros [| | |s] Hv; try done. by destruct (Hv s).
Qed.

Lemma from_db_config_usable {S} (cfg : DBConfig.t) (s : S) (e : Env) :
  schema_usable cfg = true →
  ∃ schema_used,
    from_db_config (Some cfg) s e
    = mkResult
        (Returns (ConnectionDetails.mk
                    (if py_truthy (DBConfig.use_redshift cfg)
                     then PStr "redshift" else PStr "postgresql")
                    (PStr "pg8000") (DBConfig.host cfg) (DBConfig.port cfg)
                    (DBConfig.database_name cfg) (DBConfig.username cfg)
                    (DBConfig.password cfg) schema_used (DBConfig.disable_ssl cfg)))
        s e ∧
    schema_used
    = (if py_truthy (DBConfig.use_raw_schema_id cfg) then DBConfig.schema_id cfg
       else match DBConfig.schema_id cfg with
            | PStr id => PStr ("_" +:+ py_replace "-" "" id)
            | v => v
            end).
Proof.
  unfold schema_usable, from_db_config. intros H.
  destruct (py_truthy (DBConfig.use_raw_schema_id cfg)).
  - eexists. split; reflexivity.
  - destruct (DBConfig.schema_id cfg); try done. eexists. split; reflexivity.
Qed.

Lemma fmt_failed_config (s : string) :
  py_format ("Failed to create ConnectionDetails for database_config = [%s]" +:+
             String newline "Please verify environment variables") [PStr s]
  = inr ("Failed to create ConnectionDetails for database_config = [" +:+ s +:+
         "]" +:+ String newline "Please verify environment variables").
Proof. reflexivity. Qed.

Lemma from_db_config_unusable {S} (cfg : DBConfig.t) (s : S) (e : Env) :
  schema_usable cfg = false →
  let msg := "Failed to create ConnectionDetails for database_config = [" +:+
             DBConfig.__repr__ cfg +:+ "]" +:+
             String newline "Please verify environment variables" in
  from_db_config (Some cfg) s e
  = mkResult (Raises (Exception msg)) s (emit (Log POSTGRES_UTILS ERROR msg) e).
Proof.
  unfold schema_usable, from_db_config. intros H. cbn zeta.
  apply orb_false_iff in H as [Hraw Hs]. rewrite Hraw.
  unfold try_except, bind, lift_exn, fmt_msg.
  rewrite fmt_failed_config.
  destruct (DBConfig.schema_id cfg); try done.
Qed.

Lemma config_repr_hides_password (c1 c2 : DBConfig.t) :
  configs_differ_only_in_password c1 c2 → DBConfig.__repr__ c1 = DBConfig.__repr__ c2.
Proof.
  destruct c1, c2. unfold configs_differ_only_in_password. cbn.
  by intros (-> & -> & -> & -> & -> & -> & -> & ->).
Qed.

(** X22.  [ConnectionDetails.from_db_config].  It returns exactly when the
    schema can be used: [use_raw_schema_id] is true, or [schema_id] is a
    string.  The details it returns are these and no others: the dialect by
    [use_redshift], the driver pg8000, the host, port, database, user,
    password and [disable_ssl] of the configuration, and as schema the
    [schema_id] itself or its [getSchemaFromSchemaId]; it calls no
    collaborator.  Otherwise it logs one error line, which prints the
    configuration with its password masked, and raises [Exception] with
    the same text. *)
Theorem from_db_config_builds_or_fails {S} (cfg : DBConfig.t) (s : S) (e : Env) :
  let r := from_db_config (Some cfg) s e in
  let d :=
    ConnectionDetails.mk
      (if py_truthy (DBConfig.use_redshift cfg) then PStr "redshift" else PStr "postgresql")
      (PStr "pg8000") (DBConfig.host cfg) (DBConfig.port cfg)
      (DBConfig.database_name cfg) (DBConfig.username cfg) (DBConfig.password cfg)
      (if py_truthy (DBConfig.use_raw_schema_id cfg) then DBConfig.schema_id cfg
       else match DBConfig.schema_id cfg with
            | PStr id => PStr ("_" +:+ py_replace "-" "" id)
            | v => v
            end)
      (DBConfig.disable_ssl cfg) in
  let msg := "Failed to create ConnectionDetails for database_config = [" +:+
             DBConfig.__repr__ cfg +:+ "]" +:+
             String newline "Please verify environment variables" in
  state r = s ∧
  (schema_usable cfg = true →
     r = mkResult (Returns d) s e ∧
     ConnectionDetails.get_key d
       = py_str (DBConfig.host cfg) +:+ ":" +:+ py_str (DBConfig.port cfg) +:+ ":" +:+
         py_str (DBConfig.database_name cfg) +:+ ":" +:+
         py_str (DBConfig.username cfg) +:+ ":" +:+
         py_str (ConnectionDetails.schema d)) ∧
  (schema_usable cfg = false →
     out r = Raises (Exception msg) ∧
     emitted (from_db_config (Some cfg)) s e = [Log POSTGRES_UTILS ERROR msg]).
Proof.
  cbn zeta. destruct (schema_usable cfg) eqn:Hu.
  - destruct (from_db_config_usable cfg s e Hu) as (sch & -> & ->).
    split; [done|]. split; [|done]. intros _. split; reflexivity.
  - pose proof (from_db_config_unusable cfg s e Hu) as H. cbn zeta in H.
    unfold emitted. rewrite H. cbn [out state env emit trace].
    split; [done|]. split; [done|]. intros _. split; [reflexivity|].
    by rewrite drop_app_length.
Qed.

Lemma from_db_config_builds_or_fails_witness :
  from_db_config (Some example_config) tt quiet
  = mkResult
      (Returns (ConnectionDetails.mk (PStr "postgresql") (PStr "pg8000") (PStr "db.local")
                  (PInt 5432) (PStr "app") (PStr "bob") (PStr "hunter2")
                  (PStr "_tenant4fa1") (PBool false)))
      tt quiet.
Proof.
  destruct (from_db_config_builds_or_fails example_config tt quiet) as (_ & H & _).
  destruct (H eq_refl) as (Hr & _). exact Hr.
Defined.

(** X23.  Neither the outcome of [from_db_config] nor what it logs tells
    the password: two configurations that differ only in their password
    fail together, with the same exception and the same log line (the
    configuration is printed with its password masked), or succeed
    together, with details that differ only in the password. *)
Theorem from_db_config_hides_password {S} (c1 c2 : DBConfig.t) (s : S) (e : Env) :
  configs_differ_only_in_password c1 c2 →
  DBConfig.__repr__ c1 = DBConfig.__repr__ c2 ∧
  env (from_db_config (Some c1) s e) = env (from_db_config (Some c2) s e) ∧
  match out (from_db_config (Some c1) s e), out (from_db_config (Some c2) s e) with
  | Returns d1, Returns d2 => differ_only_in_password d1 d2
  | Raises x1, Raises x2 => x1 = x2
  | _, _ => False
  end.
Proof.
  intros Hd. pose proof (config_repr_hides_password c1 c2 Hd) as Hrepr.
  split; [done|].
  assert (Hu : schema_usable c1 = schema_usable c2).
  { unfold schema_usable. destruct Hd as (_ & _ & _ & _ & -> & -> & _). done. }
  destruct (schema_usable c1) eqn:Hu1; symmetry in Hu.
  - destruct (from_db_config_usable c1 s e Hu1) as (s1 & -> & Hs1).
    destruct (from_db_config_usable c2 s e Hu) as (s2 & -> & Hs2).
    cbn. split; [done|]. unfold differ_only_in_password. cbn.
    destruct Hd as (-> & -> & -> & -> & Hsch & Hraw & -> & ->).
    rewrite Hsch, Hraw in Hs1. subst. done.
  - rewrite (from_db_config_unusable c1 s e Hu1), (from_db_config_unusable c2 s e Hu).
    cbn. by rewrite Hrepr.
Qed.

Lemma from_db_config_hides_password_witness :
  let c2 := DBConfig.mk (PStr "db.local") (PInt 5432) (PStr "app") (PStr "bob")
              (PStr "other") (PStr "tenant-4f-a1") (PBool false) (PBool false)
              (PBool false) in
  DBConfig.__repr__ example_config = DBConfig.__repr__ c2.
Proof.
  cbn zeta.
  refine (proj1 (from_db_config_hides_password (S:=unit) example_config _ tt quiet _)).
  unfold configs_differ_only_in_password. repeat split; reflexivity.
Defined.

(** X24.  [DBConfig.from_json] needs the keys host, port, database,
    username and password: it raises [KeyError] exactly when one of them
    is missing.  The keys schemaId, useRawSchemaId, useRedshift and
    disableSsl are taken when present and default to "public", [True],
    [False] and [False]. *)
Theorem from_json_required_and_defaults (obj : gmap string PyVal) :
  let required := ["host"; "port"; "database"; "username"; "password"] in
  ((∃ k, k ∈ required ∧ obj !! k = None) ↔ DBConfig.from_json obj = inl KeyError) ∧
  (∀ x, DBConfig.from_json obj = inl x → x = KeyError) ∧
  (∀ cfg, DBConfig.from_json obj = inr cfg →
     obj !! "host" = Some (DBConfig.host cfg) ∧
     obj !! "port" = Some (DBConfig.port cfg) ∧
     obj !! "database" = Some (DBConfig.database_name cfg) ∧
     obj !! "username" = Some (DBConfig.username cfg) ∧
     obj !! "password" = Some (DBConfig.password cfg) ∧
     DBConfig.schema_id cfg = default (PStr "public") (obj !! "schemaId") ∧
     DBConfig.use_raw_schema_id cfg = default (PBool true) (obj !! "useRawSchemaId") ∧
     DBConfig.use_redshift cfg = default (PBool false) (obj !! "useRedshift") ∧
     DBConfig.disable_ssl cfg = default (PBool false) (obj !! "disableSsl")).
Proof.
  cbn zeta. unfold DBConfig.from_json, DBConfig.getitem, DBConfig.get_or.
  destruct (obj !! "host") as [h|] eqn:Hh;
    [destruct (obj !! "port") as [p|] eqn:Hp;
       [destruct (obj !! "database") as [d|] eqn:Hd;
          [destruct (obj !! "username") as [u|] eqn:Hu;
             [destruct (obj !! "password") as [w|] eqn:Hw|]|]|]|].
  1:{ split; [|split]; [|done|].
      - split; [|done]. intros (k & Hk & Hnone).
        repeat (apply elem_of_cons in Hk as [->|Hk]; [congruence|]).
        by apply elem_of_nil in Hk.
      - intros cfg [= <-]. cbn.
        repeat split; by destruct (obj !! _). }
  all: split; [|split]; [|by intros x [= <-]|done];
    (split; [done|]); intros _; eexists; (split; [|eassumption]);
    set_solver.
Qed.

(** Building a [TransactionManager].  Given [connection_details],
    they are kept and [database_config] is not looked at; given only a
    [database_config], the details are those of [from_db_config]; given
    neither, the construction logs an error and raises [Exception]. *)
Lemma transaction_manager_init_details {S} (s : S) (e : Env) :
  (∀ cfg d,
     TransactionManager.__init__ cfg (Some d) s e
     = mkResult (Returns (TransactionManager.mk d None)) s e) ∧
  (∀ cfg,
     out (TransactionManager.__init__ (Some cfg) None s e)
     = match out (from_db_config (S:=S) (Some cfg) s e) with
       | Returns d => Returns (TransactionManager.mk d None)
       | Raises x => Raises x
       | Blocks => Blocks
       end) ∧
  (∃ msg,
     TransactionManager.__init__ None None s e
     = mkResult (Raises (Exception msg)) s (emit (Log POSTGRES_UTILS ERROR msg) e) ∧
     msg = "Failed to create ConnectionDetails for database_config = [None]" +:+
           String newline "Please verify environment variables").
Proof.
  split; [done|]. split.
  - intros cfg. unfold TransactionManager.__init__, bind.
    by destruct (from_db_config (Some cfg) s e) as [[d|x|] s' e'].
  - eexists. split; reflexivity.
Qed.

(** ** ThreadSafeList *)

Section ThreadSafeListProps.
Context {A : Type}.
Implicit Types (l : list A).

Lemma py_insert_end l (x : A) : py_insert l (Z.of_nat (length l)) x = l ++ [x].
Proof.
  unfold py_insert. destruct (Z.ltb_spec (Z.of_nat (length l)) 0); [lia|].
  rewrite Z.min_id, Nat2Z.id, firstn_all, drop_all. done.
Qed.

Lemma py_insert_length l (i : Z) (x : A) : length (py_insert l i x) = S (length l).
Proof.
  unfold py_insert. rewrite length_app. cbn. rewrite length_take, length_drop.
  destruct (i <? 0); lia.
Qed.

(** X25.  Growing and emptying a [ThreadSafeList] whose lock is free.
    [append] puts the value last; [insert] never raises, whatever the
    index, and makes the list one longer, the value standing at the index
    clipped to the list as Python does; [clear] returns the items and
    leaves the list empty.  Each leaves the lock free. *)
Theorem thread_safe_list_grows_and_clears l (val : A) (ii : Z) e :
  let s := ThreadSafeList.mk false l in
  ThreadSafeList.append val s e = mkResult (Returns tt) (ThreadSafeList.mk false (l ++ [val])) e ∧
  (∃ l', ThreadSafeList.insert ii val s e = mkResult (Returns tt) (ThreadSafeList.mk false l') e ∧
         length l' = S (length l) ∧
         let n := Z.of_nat (length l) in
         let j := if ii <? 0 then Z.max 0 (n + ii) else Z.min ii n in
         l' !! Z.to_nat j = Some val ∧
         take (Z.to_nat j) l' = take (Z.to_nat j) l ∧
         drop (S (Z.to_nat j)) l' = drop (Z.to_nat j) l) ∧
  ThreadSafeList.clear s e = mkResult (Returns l) (ThreadSafeList.mk false []) e.
Proof.
  cbn zeta. split; [|split].
  - unfold ThreadSafeList.append, ThreadSafeList.insert. msimpl. by rewrite py_insert_end.
  - exists (py_insert l ii val). split; [reflexivity|]. split; [apply py_insert_length|].
    unfold py_insert.
    set (j := Z.to_nat (if ii <? 0 then _ else _)).
    assert (Hj : (j ≤ length l)%nat) by (subst j; destruct (Z.ltb_spec ii 0); lia).
    assert (Hlen : length (take j l) = j) by (rewrite length_take; lia).
    split; [|split].
    + rewrite lookup_app_r by lia. by rewrite Hlen, Nat.sub_diag.
    + rewrite take_app_le by lia. by rewrite take_take, Nat.min_id.
    + rewrite drop_app_ge by lia. rewrite Hlen.
      by replace (S j - j)%nat with 1%nat by lia.
  - reflexivity.
Qed.

Lemma py_set_get l (i : Z) (x : A) l' :
  py_set l i x = Some l' → py_index l' i = Some x ∧ length l' = length l.
Proof.
  unfold py_set, py_index. intros H.
  destruct ((0 <=? i) && (i <? Z.of_nat (length l))) eqn:E1.
  - injection H as <-. rewrite length_insert, E1.
    apply andb_true_iff in E1 as [H0 H1]. apply Z.leb_le in H0. apply Z.ltb_lt in H1.
    split; [|done]. apply list_lookup_insert_eq. lia.
  - destruct ((- Z.of_nat (length l) <=? i) && (i <? 0)) eqn:E2; [|done].
    injection H as <-. rewrite length_insert, E1, E2.
    apply andb_true_iff in E2 as [H0 H1]. apply Z.leb_le in H0. apply Z.ltb_lt in H1.
    split; [|done]. apply list_lookup_insert_eq. lia.
Qed.

Lemma py_out_of_range l (i : Z) (x : A) :
  i < - Z.of_nat (length l) ∨ Z.of_nat (length l) ≤ i →
  py_index l i = None ∧ py_set l i x = None ∧ py_del l i = None.
Proof.
  intros H. unfold py_index, py_set, py_del.
  destruct (Z.leb_spec 0 i); destruct (Z.ltb_spec i (Z.of_nat (length l)));
    destruct (Z.leb_spec (- Z.of_nat (length l)) i); destruct (Z.ltb_spec i 0);
    cbn; try done; lia.
Qed.

Lemma py_in_range l (i : Z) (x : A) :
  - Z.of_nat (length l) ≤ i < Z.of_nat (length l) →
  ∃ l1 l2, py_set l i x = Some l1 ∧ py_del l i = Some l2 ∧
           length l2 = (length l - 1)%nat.
Proof.
  intros H. unfold py_set, py_del.
  destruct (Z.leb_spec 0 i); destruct (Z.ltb_spec i (Z.of_nat (length l)));
    destruct (Z.leb_spec (- Z.of_nat (length l)) i); destruct (Z.ltb_spec i 0);
    cbn; try lia; eexists _, _; (split; [done|]); (split; [done|]);
    rewrite length_delete; try lia; apply lookup_lt_is_Some_2; lia.
Qed.

(** X26.  Reading, writing and deleting by index in a [ThreadSafeList]
    whose lock is free; an index counts from the end when negative.  In
    range, [l[i] = val] followed by [l[i]] gives [val] and the length is
    kept, and [del l[i]] makes the list one shorter.  Out of range, all
    three raise [IndexError] and the list is as it was.  The lock is free
    afterwards, after an [IndexError] too. *)
Theorem thread_safe_list_index_access l (ii : Z) (val : A) e :
  let s := ThreadSafeList.mk false l in
  let n := Z.of_nat (length l) in
  (- n ≤ ii < n →
     ∃ l1 l2,
       ThreadSafeList.__setitem__ ii val s e
         = mkResult (Returns tt) (ThreadSafeList.mk false l1) e ∧
       ThreadSafeList.__getitem__ ii (ThreadSafeList.mk false l1) e
         = mkResult (Returns val) (ThreadSafeList.mk false l1) e ∧
       length l1 = length l ∧
       ThreadSafeList.__delitem__ ii s e
         = mkResult (Returns tt) (ThreadSafeList.mk false l2) e ∧
       length l2 = (length l - 1)%nat) ∧
  (ii < - n ∨ n ≤ ii →
     ThreadSafeList.__setitem__ ii val s e = mkResult (Raises IndexError) s e ∧
     ThreadSafeList.__getitem__ ii s e = mkResult (Raises IndexError) s e ∧
     ThreadSafeList.__delitem__ ii s e = mkResult (Raises IndexError) s e).
Proof.
  cbn zeta. split.
  - intros Hi. destruct (py_in_range l ii val Hi) as (l1 & l2 & Hs & Hd & Hl2).
    destruct (py_set_get l ii val l1 Hs) as [Hg Hl1].
    exists l1, l2.
    unfold ThreadSafeList.__setitem__, ThreadSafeList.__getitem__,
      ThreadSafeList.__delitem__.
    msimpl. rewrite Hs, Hd, Hg. done.
  - intros Hi. destruct (py_out_of_range l ii val Hi) as (Hg & Hs & Hd).
    unfold ThreadSafeList.__setitem__, ThreadSafeList.__getitem__,
      ThreadSafeList.__delitem__.
    msimpl. rewrite Hs, Hd, Hg. done.
Qed.

End ThreadSafeListProps.

Lemma thread_safe_list_index_access_witness :
  ThreadSafeList.__delitem__ (-3) (ThreadSafeList.mk false ["A"; "B"]) quiet
  = mkResult (Raises IndexError) (ThreadSafeList.mk false ["A"; "B"]) quiet.
Proof.
  refine (proj2 (proj2 (proj2 (thread_safe_list_index_access ["A"; "B"] (-3) "C" quiet) _))).
  cbn. lia.
Defined.

(** ** ThreadSafeCache *)

Section ThreadSafeCacheProps.
Context `{Countable K} {V : Type}.
Implicit Types (m : gmap K V).

(** X27.  A [ThreadSafeCache] whose lock is free.  After
    [cache[key] = value], [cache[key]] is [value], [key in cache] holds
    and the other keys are as they were.  [del cache[key]] of a key that is
    there removes it and no other; of a key that is not there it raises
    [KeyError] and changes nothing; so does [cache[key]].  The lock is
    free afterwards, after a [KeyError] too. *)
Theorem thread_safe_cache_round_trip m (key : K) (value : V) e :
  let c := ThreadSafeCache.mk m false in
  let c1 := ThreadSafeCache.mk (<[key := value]> m) false in
  ThreadSafeCache.__setitem__ key value c e = mkResult (Returns tt) c1 e ∧
  ThreadSafeCache.__getitem__ key c1 e = mkResult (Returns value) c1 e ∧
  ThreadSafeCache.__contains__ key c1 e = mkResult (Returns true) c1 e ∧
  (∀ k, k ≠ key → ThreadSafeCache.__getitem__ k c1 e
                  = match ThreadSafeCache.__getitem__ k c e with
                    | mkResult o _ e' => mkResult o c1 e'
                    end) ∧
  (is_Some (m !! key) →
     ThreadSafeCache.__delitem__ key c e
     = mkResult (Returns tt) (ThreadSafeCache.mk (delete key m) false) e ∧
     ThreadSafeCache.__contains__ key (ThreadSafeCache.mk (delete key m) false) e
     = mkResult (Returns false) (ThreadSafeCache.mk (delete key m) false) e) ∧
  (m !! key = None →
     ThreadSafeCache.__delitem__ key c e = mkResult (Raises KeyError) c e ∧
     ThreadSafeCache.__getitem__ key c e = mkResult (Raises KeyError) c e ∧
     ThreadSafeCache.__contains__ key c e = mkResult (Returns false) c e).
Proof.
  cbn zeta.
  unfold ThreadSafeCache.__setitem__, ThreadSafeCache.__getitem__,
    ThreadSafeCache.__delitem__, ThreadSafeCache.__contains__.
  msimpl. rewrite lookup_insert_eq.
  split; [done|]. split; [done|]. split.
  { first [done | by rewrite bool_decide_eq_true_2 by eauto]. }
  split.
  { intros k Hk. rewrite lookup_insert_ne by done. by destruct (m !! k). }
  split.
  - intros [v Hv]. rewrite Hv. cbn. rewrite lookup_delete_eq.
    split; [done|].
    first [done | by rewrite bool_decide_eq_false_2 by (by intros [? ?])].
  - intros Hnone. rewrite Hnone. cbn.
    split; [done|]. split; [done|].
    first [done | by rewrite bool_decide_eq_false_2 by (by intros [? ?])].
Qed.

End ThreadSafeCacheProps.

Lemma thread_safe_cache_round_trip_witness :
  ThreadSafeCache.__delitem__ "k" (ThreadSafeCache.mk (V:=Z) ∅ false) quiet
  = mkResult (Raises KeyError) (ThreadSafeCache.mk ∅ false) quiet.
Proof.
  refine (proj1 (proj2 (proj2 (proj2 (proj2 (proj2
            (thread_safe_cache_round_trip (V:=Z) ∅ "k" 0 quiet))))) _)).
  reflexivity.
Defined.

(** ** [initialize_logger] *)

(** X28.  [initialize_logger] creates the logger of the module once.  The
    first call reads ENABLE_CONNECTION_POOL_TRACE_LOGGING, creates the
    logger at [TRACE] when the variable, lower-cased, is "true" and at
    [INFO] otherwise (unset and empty included), and sets the flag; any
    later call does nothing. *)
Theorem initialize_logger_runs_once (e : Env) :
  let a := oracle e (length (trace e)) in
  let level := if ok a && negb (String.eqb (text a) "")
                  && String.eqb (py_lower (text a)) "true"
               then TRACE else INFO in
  initialize_logger false e
  = mkResult (Returns tt) true
      (emit (Ext (CreateLogger LOGGER_KEY level))
         (emit (Ext (Environ "ENABLE_CONNECTION_POOL_TRACE_LOGGING")) e)) ∧
  (∀ e', initialize_logger true e' = mkResult (Returns tt) true e') ∧
  (∀ e', initialize_logger (state (initialize_logger false e)) e'
         = mkResult (Returns tt) true e').
Proof.
  cbn zeta.
  assert (Hfirst : initialize_logger false e
    = mkResult (Returns tt) true
        (emit (Ext (CreateLogger LOGGER_KEY
                      (if ok (oracle e (length (trace e)))
                          && negb (String.eqb (text (oracle e (length (trace e)))) "")
                          && String.eqb (py_lower (text (oracle e (length (trace e))))) "true"
                       then TRACE else INFO)))
           (emit (Ext (Environ "ENABLE_CONNECTION_POOL_TRACE_LOGGING")) e))).
  { unfold initialize_logger, load_environment_variable. msimpl.
    destruct (ok _); [|done]. cbn.
    destruct (String.eqb (text _) ""); done. }
  rewrite Hfirst. done.
Qed.

(** ** The connection list of [postgresutils.py] *)



Section LegacyPoolProps.
Context (in_transaction : Connection → bool).
Implicit Types (pool : list (option (ConnectionDetails.t * Connection))).



End LegacyPoolProps.





